(** * DecoDen: the NMF and HSR steps of [decoden/functions.py]

    A shallow embedding of [extract_mixing_matrix],
    [extract_mixing_matrix_shared_unspecific], [extract_signal], [run_HSR]
    and [run_HSR_replicates], and of the preprocessing driver
    [run_preprocess.py] ([read_csv], [make_args], [run_single],
    [write_json] and [run]).

    Conventions.
    - Python floats are idealised as real numbers ([R]): no NaN, no
      infinities, no rounding.
    - A numpy 2-D array is a list of rows ([matrix]); arrays are rectangular.
    - A pandas DataFrame is a record of row labels, column labels and the
      row-major [values].  Row labels are genomic coordinates (not integers),
      so [series[list_of_ints]] is positional.
    - A Python exception is a value of [exn]; a function that may raise
      returns [result].
    - scikit-learn, numpy's generators and pandas' sampler are not part of
      the repository: they are the operations of the class [Backend],
      together with the part of their documented contract that is used.
    - numpy's process-global generator and the sequence of factorization
      calls made so far are the two components of [world]; the functions
      that call the factorization run in the monad [M]. *)

From Stdlib Require Import String Ascii List Bool Arith ZArith Lia.
From Stdlib Require Import Reals Lra.
From Stdlib Require Import Permutation Sorted.
Import ListNotations.

Set Implicit Arguments.

(* ================================================================== *)
(** ** Python values *)

Module Py.

(** The exception classes the modelled code can raise. *)
Inductive exn : Type :=
| IndexError
| KeyError
| ValueError
| NameError.

Definition result (A : Type) : Type := (exn + A)%type.

Definition ok {A} (a : A) : result A := inr a.
Definition raise {A} (e : exn) : result A := inl e.

Definition rbind {A B} (r : result A) (k : A -> result B) : result B :=
  match r with
  | inl e => inl e
  | inr a => k a
  end.

(** [l[i]] for a non-negative index. *)
Definition getitem {A} (l : list A) (i : nat) : result A :=
  match nth_error l i with
  | Some a => ok a
  | None => raise IndexError
  end.

(** [l[a:b]] for non-negative bounds (bounds are clipped to the length). *)
Definition slice {A} (l : list A) (a b : nat) : list A :=
  skipn a (firstn b l).

(** [enumerate(l)] *)
Definition enumerate {A} (l : list A) : list (nat * A) :=
  combine (seq 0 (length l)) l.

(** [range(start, stop, step)] for [step > 0]; [fuel] bounds the length. *)
Fixpoint range_from (fuel start stop step : nat) : list nat :=
  match fuel with
  | O => []
  | S fuel' =>
      if start <? stop then start :: range_from fuel' (start + step) stop step
      else []
  end.

(** [range(start, stop, step)]: a zero step raises ValueError. *)
Definition range (start stop step : nat) : result (list nat) :=
  if step =? 0 then raise ValueError
  else ok (range_from stop start stop step).

(** A [dict] with string keys, as an association list. *)
Definition dict (V : Type) : Type := list (string * V).

Fixpoint dict_getitem {V} (d : dict V) (k : string) : result V :=
  match d with
  | [] => raise KeyError
  | (k', v) :: d' => if String.eqb k k' then ok v else dict_getitem d' k
  end.

(** [[f(x) for x in l]] where [f] may raise. *)
Fixpoint map_result {A B} (f : A -> result B) (l : list A) : result (list B) :=
  match l with
  | [] => ok []
  | a :: l' => rbind (f a) (fun b => rbind (map_result f l') (fun bs => ok (b :: bs)))
  end.

(** [s.startswith(p)] *)
Definition startswith (s p : string) : bool := String.prefix p s.

(** [x in l] for strings *)
Definition str_in (x : string) (l : list string) : bool :=
  existsb (String.eqb x) l.

End Py.
Import Py.

Declare Scope result_scope.
Delimit Scope result_scope with result.
Notation "x <- e ;; k" := (rbind e (fun x => k))
  (at level 61, e at next level, right associativity) : result_scope.
Notation "' pat <- e ;; k" := (rbind e (fun x => match x with pat => k end))
  (at level 61, pat pattern, e at next level, right associativity) : result_scope.

(* ================================================================== *)
(** ** numpy arrays *)

Module Np.

Definition matrix : Type := list (list R).

Definition nrows (m : matrix) : nat := length m.
Definition ncols (m : matrix) : nat :=
  match m with
  | [] => 0
  | r :: _ => length r
  end.

(** [m.shape == (r, c)] *)
Definition has_shape (m : matrix) (r c : nat) : Prop :=
  length m = r /\ Forall (fun row => length row = c) m.

Definition nonneg_row (l : list R) : Prop := Forall (fun x => (0 <= x)%R) l.
Definition nonneg (m : matrix) : Prop := Forall nonneg_row m.

(** Some entry of [m] is positive: [m] is not full of zeros. *)
Definition has_positive (m : matrix) : Prop :=
  Exists (Exists (fun x => (0 < x)%R)) m.

(** [x > y] on floats *)
Definition Rgtb (x y : R) : bool := if Rgt_dec x y then true else false.

(** [np.zeros((r, c))] *)
Definition zeros (r c : nat) : matrix := repeat (repeat 0%R c) r.

(** [m.flatten()] *)
Definition flatten (m : matrix) : list R := concat m.

(** [m.reshape(1, -1)] *)
Definition reshape_1 (m : matrix) : matrix := [concat m].

(** [m.T] *)
Definition transpose (m : matrix) : matrix :=
  map (fun j => map (fun row => nth j row 0%R) m) (seq 0 (ncols m)).

(** [m[:, a:b]] *)
Definition col_slice (m : matrix) (a b : nat) : matrix :=
  map (fun row => slice row a b) m.

(** [np.sum] of a list of counts *)
Definition sum (l : list nat) : nat := fold_right Nat.add 0 l.

(** One row of [a.dot(b)]: the combination of the rows of [b] weighted by
    the entries of [row]. *)
Fixpoint dot_row (row : list R) (b : matrix) (width : nat) : list R :=
  match row, b with
  | x :: row', brow :: b' =>
      map (fun p => (x * fst p + snd p)%R) (combine brow (dot_row row' b' width))
  | _, _ => repeat 0%R width
  end.

(** [a.dot(b)] for 2-D arrays: the inner dimensions must agree. *)
Definition dot (a b : matrix) : result matrix :=
  if forallb (fun row => length row =? length b) a
  then ok (map (fun row => dot_row row b (ncols b)) a)
  else raise ValueError.

(** Broadcasting of one dimension: equal sizes, or one of them is 1. *)
Definition bdim (a b : nat) : option nat :=
  if a =? b then Some a
  else if a =? 1 then Some b
  else if b =? 1 then Some a
  else None.

(** Entry [i] of a dimension that may be stretched from size 1. *)
Definition bget {A} (d : A) (l : list A) (i : nat) : A :=
  if length l =? 1 then nth 0 l d else nth i l d.

(** An elementwise binary operation on two 2-D arrays, with numpy's
    broadcasting. *)
Definition binop (f : R -> R -> R) (a b : matrix) : result matrix :=
  match bdim (nrows a) (nrows b), bdim (ncols a) (ncols b) with
  | Some n, Some m =>
      ok (map (fun i =>
                 map (fun j => f (bget 0%R (bget [] a i) j)
                                 (bget 0%R (bget [] b i) j))
                     (seq 0 m))
              (seq 0 n))
  | _, _ => raise ValueError
  end.

(** [a - b] *)
Definition sub (a b : matrix) : result matrix := binop Rminus a b.

(** [np.maximum(m, 0)] *)
Definition maximum_0 (m : matrix) : matrix :=
  map (map (fun x => Rmax x 0)) m.

(** The value of an assignment into a 1-D target: a 1-D value as it is, a
    2-D value only when its leading dimension is 1. *)
Definition as_1d (v : matrix) : result (list R) :=
  match v with
  | [r] => ok r
  | _ => raise ValueError
  end.

(** [row[a:b] = v] on a 1-D array: [v] must have the length of the target
    slice, or length 1 (it is then repeated). *)
Definition setitem_slice (row : list R) (a b : nat) (v : list R) : result (list R) :=
  let target := slice row a b in
  if length v =? length target
  then ok (firstn a row ++ v ++ skipn (a + length target) row)
  else if length v =? 1
  then ok (firstn a row ++ repeat (nth 0 v 0%R) (length target)
                      ++ skipn (a + length target) row)
  else raise ValueError.

(** [m[r, a:b] = v] *)
Definition setitem_row_slice (m : matrix) (r a b : nat) (v : list R) : result matrix :=
  match nth_error m r with
  | None => raise IndexError
  | Some row =>
      (row' <- setitem_slice row a b v ;;
       ok (firstn r m ++ row' :: skipn (S r) m))%result
  end.

(** [np.split(m, idxs)] along axis 0: the blocks between consecutive
    split points, and a last block from the last split point on. *)
Fixpoint split_from (m : matrix) (prev : nat) (idxs : list nat) : list matrix :=
  match idxs with
  | [] => [slice m prev (length m)]
  | i :: idxs' => slice m prev i :: split_from m i idxs'
  end.

Definition split (m : matrix) (idxs : list nat) : list matrix :=
  split_from m 0 idxs.

(** [np.vstack(blocks)]: at least one block, all of the same width. *)
Definition vstack (blocks : list matrix) : result matrix :=
  match blocks with
  | [] => raise ValueError
  | b :: _ =>
      if forallb (fun b' => forallb (fun row => length row =? ncols b) b') blocks
      then ok (concat blocks)
      else raise ValueError
  end.

(** [x <= y] on floats *)
Definition Rleb (x y : R) : bool := if Rle_dec x y then true else false.

Fixpoint insert_sorted (x : R) (l : list R) : list R :=
  match l with
  | [] => [x]
  | y :: l' => if Rleb x y then x :: l else y :: insert_sorted x l'
  end.

(** [np.sort] *)
Definition sort (l : list R) : list R := fold_right insert_sorted [] l.

(** [np.median]: the middle of the sorted values, the mean of the two
    middle ones for an even count; [None] is the nan of an empty array. *)
Definition median (l : list R) : option R :=
  let s := sort l in
  let n := length s in
  if n =? 0 then None
  else if Nat.even n
       then Some ((nth (n / 2 - 1) s 0 + nth (n / 2) s 0) / 2)%R
       else Some (nth (n / 2) s 0%R).

(** [s > np.median(s)], elementwise; a comparison with nan is False. *)
Definition gt_median (s : list R) : list bool :=
  match median s with
  | Some m => map (fun x => Rgtb x m) s
  | None => map (fun _ => false) s
  end.

(** [np.where(mask)[0]] *)
Definition np_where (mask : list bool) : list nat :=
  map fst (filter snd (enumerate mask)).

End Np.
Import Np.

(* ================================================================== *)
(** ** pandas DataFrames *)

Module Pd.

Record DataFrame : Type := mkDataFrame {
  index : list string;
  columns : list string;
  values : matrix
}.

(** The shape invariant of a DataFrame. *)
Definition wf (df : DataFrame) : Prop :=
  length (index df) = length (values df)
  /\ Forall (fun row => length row = length (columns df)) (values df).

(** [pd.DataFrame(m, index=idx, columns=cols)] *)
Definition make (m : matrix) (idx cols : list string) : result DataFrame :=
  if (length m =? length idx)
     && forallb (fun row => length row =? length cols) m
  then ok (mkDataFrame idx cols m)
  else raise ValueError.

(** Positions of the columns labelled [name]. *)
Definition positions (cols : list string) (name : string) : list nat :=
  map fst (filter (fun p => String.eqb name (snd p)) (enumerate cols)).

(** [df.loc[:, names]] (every name is a label of [df]) and [df[names]] *)
Definition loc_cols (df : DataFrame) (names : list string) : DataFrame :=
  let ps := flat_map (positions (columns df)) names in
  mkDataFrame (index df)
              (map (fun p => nth p (columns df) EmptyString) ps)
              (map (fun row => map (fun p => nth p row 0%R) ps) (values df)).

(** [df.loc[:, name]]: the column as a list, KeyError when absent. *)
Definition loc_col (df : DataFrame) (name : string) : result (list R) :=
  match positions (columns df) name with
  | [] => raise KeyError
  | p :: _ => ok (map (fun row => nth p row 0%R) (values df))
  end.

(** [df.loc[:, []]] *)
Definition loc_no_cols (df : DataFrame) : DataFrame :=
  mkDataFrame (index df) [] (map (fun _ => []) (values df)).

(** [(df > t).any(axis=1)] *)
Definition any_gt (df : DataFrame) (t : R) : list bool :=
  map (existsb (fun x => Rgtb x t)) (values df).

(** Rows of [l] kept by a Boolean mask of the same length. *)
Fixpoint mask_select {A} (mask : list bool) (l : list A) : list A :=
  match mask, l with
  | b :: mask', a :: l' => if b then a :: mask_select mask' l' else mask_select mask' l'
  | _, _ => []
  end.

(** [df[mask]] for a Boolean Series aligned with [df] *)
Definition filter_rows (df : DataFrame) (mask : list bool) : DataFrame :=
  mkDataFrame (mask_select mask (index df)) (columns df)
              (mask_select mask (values df)).

(** [df.take(ixs)] *)
Definition take {A} (d : A) (l : list A) (ixs : list nat) : list A :=
  map (fun i => nth i l d) ixs.

(** [df.iloc[r, c]] *)
Definition iloc (df : DataFrame) (r c : nat) : result R :=
  (row <- getitem (values df) r ;; getitem row c)%result.

(** [s[mask]] for a Boolean array: its length must be that of [s]. *)
Definition bool_index (mask : list bool) (s : list R) : result (list R) :=
  if length mask =? length s then ok (mask_select mask s)
  else raise IndexError.

(** Entry [p] of a row replaced by [x]. *)
Definition replace_nth (p : nat) (row : list R) (x : R) : list R :=
  (firstn p row ++ x :: skipn (S p) row)%list.

(** [df[name] = v]: an existing column is replaced, a new one is added at
    the end; [v] must have one value per row. *)
Definition setitem_col (df : DataFrame) (name : string) (v : list R)
  : result DataFrame :=
  if length v =? length (index df) then
    match positions (columns df) name with
    | [] =>
        ok (mkDataFrame (index df) (columns df ++ [name])
              (map (fun p => fst p ++ [snd p])%list (combine (values df) v)))
    | p :: _ =>
        ok (mkDataFrame (index df) (columns df)
              (map (fun pr => replace_nth p (fst pr) (snd pr))
                   (combine (values df) v)))
    end
  else raise ValueError.

End Pd.
Import Pd.

(* ================================================================== *)
(** ** The libraries behind the code *)

(** The [init] argument of scikit-learn's factorization, when given. *)
Inductive init_method : Type :=
| init_random
| init_custom.

(** The [beta_loss] argument: a number, or the string "kullback-leibler". *)
Inductive beta_loss : Type :=
| beta_number (b : R)
| kullback_leibler.

Inductive solver : Type :=
| mu
| cd.

(** One call of [sklearn.decomposition.non_negative_factorization] (or of
    [NMF(...).fit_transform], which runs the same routine): the data and the
    keyword arguments the code passes, defaults written out. *)
Record nnf_call : Type := mk_nnf_call {
  nnf_X : matrix;
  nnf_W : option matrix;
  nnf_H : option matrix;
  nnf_n_components : nat;
  nnf_init : option init_method;
  nnf_update_H : bool;
  nnf_solver : solver;
  nnf_beta_loss : beta_loss;
  nnf_alpha_W : R;
  nnf_alpha_H : option R;          (* None is the default 'same' *)
  nnf_max_iter : nat;
  nnf_random_state : option Z      (* None: numpy's global generator *)
}.

(** A matrix the factorization accepts with shape [(r, c)]. *)
Definition nnf_array (m : matrix) (r c : nat) : Prop :=
  has_shape m r c /\ nonneg m.

(** The calls scikit-learn accepts: a non-empty, non-negative data matrix,
    at least one component, non-negative regularisation, and with
    [init='custom'] initial factors of the right shapes that are not full
    of zeros ([W] is only needed, and only checked for zeros, when [H] is
    updated too). *)
Definition nnf_valid (c : nnf_call) : Prop :=
  1 <= nrows (nnf_X c) /\ 1 <= ncols (nnf_X c)
  /\ nnf_array (nnf_X c) (nrows (nnf_X c)) (ncols (nnf_X c))
  /\ 1 <= nnf_n_components c
  /\ (0 <= nnf_alpha_W c)%R
  /\ (forall a, nnf_alpha_H c = Some a -> (0 <= a)%R)
  /\ (nnf_init c = Some init_custom ->
      (exists H, nnf_H c = Some H
                 /\ nnf_array H (nnf_n_components c) (ncols (nnf_X c))
                 /\ has_positive H)
      /\ (nnf_update_H c = true ->
          exists W, nnf_W c = Some W /\ has_positive W)
      /\ (forall W, nnf_W c = Some W ->
                    nnf_array W (nrows (nnf_X c)) (nnf_n_components c))).

(** scikit-learn, numpy's random generators and least squares, as far as the
    code relies on them.  [G] is the state of numpy's global generator. *)
Class Backend (G : Type) : Type := {
  (** [non_negative_factorization(X, W, H, ...)]: the factors [(W, H)], or
      an exception; it may draw from the global generator. *)
  non_negative_factorization : nnf_call -> G -> result (matrix * matrix) * G;
  (** [np.random.uniform(low, high, size=(r, c))] on the global generator. *)
  random_uniform : R -> R -> nat -> nat -> G -> matrix * G;
  (** [RandomState(seed).choice(pop, size, replace=False)], which
      [DataFrame.sample(size, random_state=seed)] uses to pick rows. *)
  choice : Z -> nat -> nat -> list nat;
  (** [LinearRegression(fit_intercept=False).fit(X, y).coef_] for one
      feature. *)
  linear_regression : list R -> list R -> result R;

  nnf_shape : forall c g W H g',
    non_negative_factorization c g = (inr (W, H), g') ->
    has_shape W (nrows (nnf_X c)) (nnf_n_components c)
    /\ has_shape H (nnf_n_components c) (ncols (nnf_X c));
  nnf_nonneg : forall c g W H g',
    non_negative_factorization c g = (inr (W, H), g') ->
    nonneg W /\ nonneg H;
  (** A data matrix that is not full of zeros has factors that are not full
      of zeros (the multiplicative updates keep positive entries positive). *)
  nnf_positive : forall c g W H g',
    non_negative_factorization c g = (inr (W, H), g') ->
    has_positive (nnf_X c) ->
    has_positive W /\ has_positive H;
  nnf_total : forall c g,
    nnf_valid c ->
    exists W H g', non_negative_factorization c g = (inr (W, H), g');
  random_uniform_shape : forall lo hi r c g,
    has_shape (fst (random_uniform lo hi r c g)) r c;
  random_uniform_range : forall lo hi r c g,
    Forall (Forall (fun x => (lo <= x)%R)) (fst (random_uniform lo hi r c g));
  choice_spec : forall seed pop size,
    size <= pop ->
    length (choice seed pop size) = size
    /\ Forall (fun i => i < pop) (choice seed pop size)
}.

(** Whether scikit-learn initialises the factors of a call from numpy's
    global generator.  It does so only when it updates both factors
    ([update_H=True]), no [random_state] is passed, and the initialisation
    is random: [init='random'], or no [init] with more components than
    [min(n_samples, n_features)].  With no [init] and at most that many
    components the factors start from the singular value decomposition of
    [X] (NNDSVDa), which is reproducible up to the tolerance of the
    decomposition; an empty [X] is refused before any initialisation.  With
    [update_H=False] the given [H] is kept and [W] starts from a constant. *)
Definition draws_from_global (c : nnf_call) : bool :=
  nnf_update_H c
  && match nnf_random_state c, nnf_init c with
     | Some _, _ => false
     | None, Some init_custom => false
     | None, Some init_random => true
     | None, None =>
         (1 <=? Nat.min (nrows (nnf_X c)) (ncols (nnf_X c)))
         && (Nat.min (nrows (nnf_X c)) (ncols (nnf_X c)) <? nnf_n_components c)
     end.

(** The arguments scikit-learn uses: with [update_H=False] a [W] that is
    passed is not used ("When update_H=False, the provided initial W is not
    used"). *)
Definition arguments_used (c : nnf_call) : nnf_call :=
  if nnf_update_H c then c
  else {| nnf_X := nnf_X c; nnf_W := None; nnf_H := nnf_H c;
          nnf_n_components := nnf_n_components c; nnf_init := nnf_init c;
          nnf_update_H := false; nnf_solver := nnf_solver c;
          nnf_beta_loss := nnf_beta_loss c;
          nnf_alpha_W := nnf_alpha_W c; nnf_alpha_H := nnf_alpha_H c;
          nnf_max_iter := nnf_max_iter c;
          nnf_random_state := nnf_random_state c |}.

(** A backend whose factorization is reproducible: the outcome of a call
    that does not draw from the global generator is determined by the
    arguments it uses, whatever the state of the generator. *)
Definition seed_reproducible {G : Type} (B : Backend G) : Prop :=
  forall c c' g g',
    draws_from_global c = false ->
    arguments_used c = arguments_used c' ->
    fst (non_negative_factorization c g) = fst (non_negative_factorization c' g').

(* ================================================================== *)
(** ** The world and the monad of the factorization steps *)

Record world (G : Type) : Type := mk_world {
  np_random : G;                 (* numpy's global generator *)
  nmf_calls : list nnf_call      (* factorization calls made so far *)
}.

Definition M (G A : Type) : Type := world G -> result A * world G.

Definition ret {G A} (a : A) : M G A := fun w => (inr a, w).

Definition bind {G A B} (m : M G A) (k : A -> M G B) : M G B :=
  fun w =>
    match m w with
    | (inl e, w') => (inl e, w')
    | (inr a, w') => k a w'
    end.

(** A computation that does not touch the world. *)
Definition lift {G A} (r : result A) : M G A := fun w => (r, w).

Declare Scope M_scope.
Delimit Scope M_scope with M.
Notation "x <- e ;; k" := (bind e (fun x => k))
  (at level 61, e at next level, right associativity) : M_scope.
Notation "' pat <- e ;; k" := (bind e (fun x => match x with pat => k end))
  (at level 61, pat pattern, e at next level, right associativity) : M_scope.

Section World.
Context {G : Type} {B : Backend G}.

(** A factorization call: it is recorded, and it may advance the global
    generator. *)
Definition call_nnf (c : nnf_call) : M G (matrix * matrix) :=
  fun w =>
    let (r, g') := non_negative_factorization c (np_random w) in
    (r, mk_world g' (nmf_calls w ++ [c])).

(** [np.random.uniform(lo, hi, size=(r, c))] *)
Definition np_random_uniform (lo hi : R) (r c : nat) : M G matrix :=
  fun w =>
    let (m, g') := random_uniform lo hi r c (np_random w) in
    (inr m, mk_world g' (nmf_calls w)).

(** [df.sample(n, random_state=seed)]: [n] distinct rows; ValueError when
    the frame has fewer than [n] rows. *)
Definition sample (df : DataFrame) (n : nat) (seed : Z) : result DataFrame :=
  if length (index df) <? n then raise ValueError
  else
    let ixs := choice seed (length (index df)) n in
    ok (mkDataFrame (take EmptyString (index df) ixs)
                    (columns df)
                    (take [] (values df) ixs)).

End World.

(* ================================================================== *)
(** ** [decoden/functions.py] *)

Section Decoden.
Context {G : Type} {B : Backend G}.

(** *** [extract_mixing_matrix] *)

(** Lines 26-28: the bins where some control sample exceeds the threshold,
    and the random training subset drawn from them. *)
Definition select_dsel (data_df : DataFrame) (conditions_list : list string)
           (control_cov_threshold : R) : result DataFrame :=
  (c0 <- getitem conditions_list 0 ;;
   ok (filter_rows data_df
         (any_gt (loc_cols data_df
                    (filter (fun c => startswith c c0) (columns data_df)))
                 control_cov_threshold)))%result.

Definition select_train_data (data_df : DataFrame) (conditions_list : list string)
           (control_cov_threshold : R) (n_train_bins : nat) (seed : Z)
  : result DataFrame :=
  (dsel <- select_dsel data_df conditions_list control_cov_threshold ;;
   sample dsel n_train_bins seed)%result.

(** Lines 32-38: [NMF(n_components=1, init='random', random_state=0,
    beta_loss=1, solver="mu", alpha_W, alpha_H).fit_transform(X)] and
    [model.components_]. *)
Definition NMF_fit_transform (alpha_W alpha_H : R) (X : matrix) : M G (matrix * matrix) :=
  call_nnf {| nnf_X := X; nnf_W := None; nnf_H := None;
              nnf_n_components := 1; nnf_init := Some init_random;
              nnf_update_H := true; nnf_solver := mu;
              nnf_beta_loss := beta_number 1;
              nnf_alpha_W := alpha_W; nnf_alpha_H := Some alpha_H;
              nnf_max_iter := 200; nnf_random_state := Some 0%Z |}.

(** Lines 51-52: the training data minus the unspecific contribution,
    capped at zero from below. *)
Definition specific_data (train_values W_unspec : matrix) (H_unspec_coefs : list R)
  : result matrix :=
  (outer <- dot W_unspec [H_unspec_coefs] ;;
   diff <- sub train_values outer ;;
   ok (maximum_0 diff))%result.

(** Lines 65-74: the loop over [enumerate(treatment_conditions)], with the
    loop-carried [ix] and [mixing_matrix]. *)
Fixpoint specific_loop (alpha_W alpha_H : R) (specific_data_mat : matrix)
         (histone_n_replicates : list nat) (items : list (nat * string))
         (ix : nat) (mixing_matrix : matrix) : M G matrix :=
  match items with
  | [] => ret mixing_matrix
  | (i, modif) :: items' =>
      (c <- lift (getitem histone_n_replicates i) ;;
       ' (W_spec, H_spec) <-
         call_nnf {| nnf_X := col_slice specific_data_mat ix (ix + c);
                     nnf_W := None; nnf_H := None;
                     nnf_n_components := 1; nnf_init := None;
                     nnf_update_H := true; nnf_solver := mu;
                     nnf_beta_loss := beta_number 1;
                     nnf_alpha_W := alpha_W; nnf_alpha_H := Some alpha_H;
                     nnf_max_iter := 200; nnf_random_state := None |} ;;
       mixing_matrix' <-
         lift (v <- as_1d H_spec ;;
               setitem_row_slice mixing_matrix (i + 1) ix (ix + c) v)%result ;;
       specific_loop alpha_W alpha_H specific_data_mat histone_n_replicates
                     items' (ix + c) mixing_matrix')%M
  end.

Definition extract_mixing_matrix (data_df : DataFrame) (conditions_list : list string)
           (conditions_counts_ref : dict nat) (alpha_W alpha_H : R)
           (control_cov_threshold : R) (n_train_bins : nat) (seed : Z)
  : M G DataFrame :=
  (train_data <- lift (select_train_data data_df conditions_list
                         control_cov_threshold n_train_bins seed) ;;
   c0 <- lift (getitem conditions_list 0) ;;
   let control_cols := filter (fun c => startswith c c0) (columns data_df) in
   let treatment_cols :=
     filter (fun c => negb (str_in c control_cols)) (columns data_df) in
   ' (W_unspec, H_unspec) <-
     NMF_fit_transform alpha_W alpha_H (values (loc_cols train_data control_cols)) ;;
   ' (W_treat_uns, H_treat_uns) <-
     call_nnf {| nnf_X := transpose (values (loc_cols train_data treatment_cols));
                 nnf_W := None; nnf_H := Some (reshape_1 W_unspec);
                 nnf_n_components := 1; nnf_init := Some init_custom;
                 nnf_update_H := false; nnf_solver := mu;
                 nnf_beta_loss := beta_number 1;
                 nnf_alpha_W := alpha_W; nnf_alpha_H := None;
                 nnf_max_iter := 200; nnf_random_state := None |} ;;
   let H_unspec_coefs := (flatten H_unspec ++ flatten (transpose W_treat_uns))%list in
   specific_data_mat <- lift (specific_data (values train_data) W_unspec H_unspec_coefs) ;;
   let treatment_conditions := skipn 1 conditions_list in
   n_replicates <- lift (map_result (dict_getitem conditions_counts_ref) conditions_list) ;;
   n_control_replicates <- lift (getitem n_replicates 0) ;;
   let histone_n_replicates := skipn 1 n_replicates in
   let mixing_matrix := zeros (length conditions_list) (Np.sum n_replicates) in
   mixing_matrix <-
     lift (setitem_row_slice mixing_matrix 0 0 (Np.sum n_replicates) H_unspec_coefs) ;;
   mixing_matrix <-
     specific_loop alpha_W alpha_H specific_data_mat histone_n_replicates
                   (enumerate treatment_conditions) n_control_replicates mixing_matrix ;;
   lift (Pd.make mixing_matrix ("unspecific"%string :: treatment_conditions)
                 (columns train_data)))%M.

(** *** [extract_mixing_matrix_shared_unspecific]

    Everything after the control factorization is commented out in the
    source; the name [mm] of the return statement is bound nowhere. *)
Definition extract_mixing_matrix_shared_unspecific
           (data_df : DataFrame) (conditions_list : list string)
           (conditions_counts_ref : dict nat) (alpha_W alpha_H : R)
           (control_cov_threshold : R) (n_train_bins : nat) (seed : Z)
  : M G DataFrame :=
  (train_data <- lift (select_train_data data_df conditions_list
                         control_cov_threshold n_train_bins seed) ;;
   c0 <- lift (getitem conditions_list 0) ;;
   let control_cols := filter (fun c => startswith c c0) (columns data_df) in
   ' (W_unspec, H_unspec) <-
     NMF_fit_transform alpha_W alpha_H (values (loc_cols train_data control_cols)) ;;
   lift (raise NameError))%M.

(** *** [extract_signal] *)

(** Lines 173-182: the loop over the chunks; an empty chunk ends it. *)
Fixpoint chunk_loop (mmatrix : DataFrame) (alpha_W : R) (seed : Z)
         (chunks : list matrix) (processed_W : list matrix) : M G (list matrix) :=
  match chunks with
  | [] => ret processed_W
  | ck :: chunks' =>
      if length ck <? 1 then ret processed_W
      else
        (W <- np_random_uniform 0 (1 / 10) (length ck) (length (index mmatrix)) ;;
         ' (ck_W, H) <-
           call_nnf {| nnf_X := ck; nnf_W := Some W;
                       nnf_H := Some (values mmatrix);
                       nnf_n_components := length (index mmatrix);
                       nnf_init := Some init_custom;
                       nnf_update_H := false; nnf_solver := mu;
                       nnf_beta_loss := kullback_leibler;
                       nnf_alpha_W := alpha_W; nnf_alpha_H := None;
                       nnf_max_iter := 500; nnf_random_state := Some seed |} ;;
         chunk_loop mmatrix alpha_W seed chunks' (processed_W ++ [ck_W])%list)%M
  end.

(** Lines 172-186, for a chunk size that is not negative ([range] raises
    ValueError for a step of zero). *)
Definition extract_signal (data_df mmatrix : DataFrame) (conditions_list : list string)
           (chunk_size : nat) (alpha_W : R) (seed : Z) : M G DataFrame :=
  (split_points <- lift (range chunk_size (length (index data_df) + chunk_size)
                               chunk_size) ;;
   processed_W <- chunk_loop mmatrix alpha_W seed
                             (split (values data_df) split_points) [] ;;
   processed_W <- lift (vstack processed_W) ;;
   lift (Pd.make processed_W (index data_df) conditions_list))%M.

(** *** [run_HSR] and [run_HSR_replicates] *)

(** [col.apply(lambda x: np.maximum(eps, x)).apply(np.log)] *)
Definition log_transform (eps : R) (col : list R) : list R :=
  map ln (map (fun x => Rmax eps x) col).

(** The locals of one iteration of the HSR loops. *)
Record hsr_locals : Type := mk_hsr_locals {
  treatment_transf : list R;
  fit_ixs : list nat;
  reg_coef : R;
  log_pred : list R;
  pred : list R;
  track : list R
}.

(** Lines 212-215 (and 266-269): the bins used for the fit, and the fit. *)
Definition hsr_fit (control_transf treatment_transf : list R) (bl_mask : list bool)
  : result (list nat * R) :=
  (control_bl <- bool_index bl_mask control_transf ;;
   treatment_bl <- bool_index bl_mask treatment_transf ;;
   let fit_ixs :=
     np_where (map (fun p => fst p && snd p)
                (combine (gt_median control_bl) (gt_median treatment_bl))) in
   coef <- linear_regression (take 0%R control_bl fit_ixs)
                             (take 0%R treatment_bl fit_ixs) ;;
   ok (fit_ixs, coef))%result.

(** Lines 212-221 (and 266-275): fit, prediction for every bin with the
    floor at [log(0.5)], fitted baseline and normalised track. *)
Definition hsr_regress (control_transf treatment_transf : list R)
           (bl_mask : list bool) : result hsr_locals :=
  (' (fit_ixs, coef) <- hsr_fit control_transf treatment_transf bl_mask ;;
   let log_pred := map (fun c => Rmax (coef * c) (ln (1 / 2))) control_transf in
   let pred := map exp log_pred in
   let track := map (fun p => exp (fst p - snd p)) (combine treatment_transf log_pred) in
   ok (mk_hsr_locals treatment_transf fit_ixs coef log_pred pred track))%result.

(** The body of the loop of [run_HSR] up to the two column assignments. *)
Definition run_HSR_step (wmat : DataFrame) (bl_mask : list bool) (eps : R)
           (control_transf : list R) (treatment_cond : string) : result hsr_locals :=
  (treatment_col <- loc_col wmat treatment_cond ;;
   hsr_regress control_transf (log_transform eps treatment_col) bl_mask)%result.

(** Lines 222-223 (and 276-277). *)
Definition hsr_store (out_df : DataFrame) (name : string) (st : hsr_locals)
  : result DataFrame :=
  (out_df <- setitem_col out_df (name ++ " HSR Value")%string (track st) ;;
   setitem_col out_df (name ++ " fit")%string (pred st))%result.

(** The two loops (lines 206-223 and 254-277): for every item, the locals
    of its iteration are computed and stored as two columns of [out_df]
    under the label of the item. *)
Fixpoint hsr_loop {X : Type} (label : X -> string) (body : X -> result hsr_locals)
         (items : list X) (out_df : DataFrame) : result DataFrame :=
  match items with
  | [] => ok out_df
  | item :: rest =>
      (st <- body item ;;
       out_df <- hsr_store out_df (label item) st ;;
       hsr_loop label body rest out_df)%result
  end.

Definition run_HSR (wmat : DataFrame) (bl_mask : list bool)
           (conditions_list : list string) (eps : R) : result DataFrame :=
  (control_condition <- getitem conditions_list 0 ;;
   let out_df := loc_no_cols wmat in
   control_col <- loc_col wmat control_condition ;;
   let control_transf := log_transform eps control_col in
   hsr_loop (fun treatment_cond => treatment_cond)
            (run_HSR_step wmat bl_mask eps control_transf)
            (skipn 1 conditions_list) out_df)%result.

(** Lines 257-262: the specific signal of one replicate.  The two series
    carry the row labels of [replicates] and of [wmat]; the subtraction is
    modelled for frames with the same row labels, where pandas' alignment
    pairs the rows by position. *)
Definition sample_specific_signal (sample_data tissue_signal : list R)
           (tissue_coef eps : R) : list R :=
  map (fun p => Rmax (fst p - tissue_coef * snd p) eps)
      (combine sample_data tissue_signal).

(** The body of the loop of [run_HSR_replicates] up to the two column
    assignments. *)
Definition run_HSR_replicates_step (replicates mmat : DataFrame)
           (bl_mask : list bool) (eps : R) (n_control_samples : nat)
           (control_transf tissue_signal : list R)
           (i : nat) (treatment_sample : string) : result hsr_locals :=
  (sample_data <- loc_col replicates treatment_sample ;;
   tissue_coef <- iloc mmat 0 (i + n_control_samples) ;;
   let treatment_transf :=
     map ln (sample_specific_signal sample_data tissue_signal tissue_coef eps) in
   hsr_regress control_transf treatment_transf bl_mask)%result.

Definition run_HSR_replicates (replicates wmat mmat : DataFrame) (bl_mask : list bool)
           (conditions_list : list string) (conditions_counts_ref : dict nat)
           (eps : R) : result DataFrame :=
  (control_condition <- getitem conditions_list 0 ;;
   let out_df := loc_no_cols wmat in
   n_control_samples <- dict_getitem conditions_counts_ref control_condition ;;
   control_col <- loc_col wmat control_condition ;;
   let control_transf := log_transform eps control_col in
   let treatment_columns :=
     filter (fun c => negb (startswith c control_condition)) (columns replicates) in
   tissue_signal <- loc_col wmat control_condition ;;
   hsr_loop snd
            (fun item => run_HSR_replicates_step replicates mmat bl_mask eps
                           n_control_samples control_transf tissue_signal
                           (fst item) (snd item))
            (enumerate treatment_columns) out_df)%result.

End Decoden.

(* ================================================================== *)
(** ** [run_preprocess.py]

    The preprocessing driver.  What it calls outside the file is the
    environment: pandas' CSV reader, the file system, joblib's [Parallel]
    and [run_pipeline] of [preprocess.macs_steps]; they are the operations
    of the class [Env].  The records sent to the logger are kept in the
    state. *)

Module Pre.

(** The exceptions of this file: the ValueError of [read_csv] with its
    message, the AttributeError of a missing row attribute, the TypeError
    of a path that is not a string, and whatever the environment raises. *)
Inductive exn : Type :=
| ValueError (msg : string)
| AttributeError
| TypeError
| EnvError (name : string).

Definition result (A : Type) : Type := (exn + A)%type.

(** A cell of the CSV table, as pandas hands it over. *)
Inductive cell : Type :=
| CStr (s : string)
| CBool (b : bool)
| CInt (z : Z)
| CFloat (x : R)
| CNaN.

(** The table read from the CSV file: column labels (distinct: the reader
    renames duplicates) and rows. *)
Record csv_frame : Type := mk_csv_frame {
  csv_columns : list string;
  csv_rows : list (list cell)
}.

(** The argument tuple of [run_single]:
    [(filepath, exp_name, out_dir, is_control, bin_size)]. *)
Record args : Type := mk_args {
  arg_filepath : cell;
  arg_exp_name : cell;
  arg_out_dir : string;
  arg_is_control : cell;
  arg_bin_size : Z
}.

(** A record sent to the logger: the level and the message, with the
    values an f-string formats kept as they are. *)
Inductive level : Type := DEBUG | INFO | ERROR.

Inductive fragment : Type :=
| Lit (s : string)
| FCell (c : cell)
| FInt (z : Z)
| FArgs (a : args)
| FArgList (l : list args).

Record log_record : Type := mk_log_record {
  log_level : level;
  log_message : list fragment
}.

Record state (E : Type) : Type := mk_state {
  env : E;
  log : list log_record
}.

Definition P (E A : Type) : Type := state E -> result A * state E.

Definition ret {E A} (a : A) : P E A := fun s => (inr a, s).

Definition raise {E A} (e : exn) : P E A := fun s => (inl e, s).

Definition bind {E A C} (m : P E A) (k : A -> P E C) : P E C :=
  fun s =>
    match m s with
    | (inl e, s') => (inl e, s')
    | (inr a, s') => k a s'
    end.

Definition lift {E A} (r : result A) : P E A := fun s => (r, s).

(** [logger.info(...)], [logger.error(...)], [logger.debug(...)] *)
Definition logger {E} (l : level) (message : list fragment) : P E unit :=
  fun s => (inr tt, mk_state (env s) (log s ++ [mk_log_record l message])).

(** *** [os.path] (posixpath) *)

(** [s.rfind(c)], [None] for -1. *)
Fixpoint rfind_from (c : ascii) (s : string) (i : nat) (found : option nat)
  : option nat :=
  match s with
  | EmptyString => found
  | String a s' => rfind_from c s' (S i) (if Ascii.eqb a c then Some i else found)
  end.

Definition rfind (s : string) (c : ascii) : option nat := rfind_from c s 0 None.

(** [s[i:]] and [s[:i]] *)
Definition str_from (s : string) (i : nat) : string :=
  substring i (String.length s - i) s.

Definition str_to (s : string) (i : nat) : string := substring 0 i s.

(** [os.path.basename(p)]: [i = p.rfind('/') + 1; return p[i:]]. *)
Definition basename (p : string) : string :=
  match rfind p "/" with
  | None => p
  | Some i => str_from p (S i)
  end.

(** [os.path.splitext(p)]: the extension starts at the last dot of the last
    component, unless only dots come before it in that component. *)
Definition splitext (p : string) : string * string :=
  let start := match rfind p "/" with None => 0 | Some i => S i end in
  match rfind p "." with
  | None => (p, EmptyString)
  | Some dotIndex =>
      if (start <=? dotIndex)
         && existsb (fun k => match String.get k p with
                              | Some a => negb (Ascii.eqb a ".")
                              | None => false
                              end)
                    (seq start (dotIndex - start))
      then (str_to p dotIndex, str_from p dotIndex)
      else (p, EmptyString)
  end.

(** [s.endswith('/')] *)
Fixpoint ends_with_slash (s : string) : bool :=
  match s with
  | EmptyString => false
  | String a EmptyString => Ascii.eqb a "/"
  | String _ s' => ends_with_slash s'
  end.

(** [os.path.join(a, b)] *)
Definition os_path_join (a b : string) : string :=
  if Py.startswith b "/" then b
  else if (String.eqb a EmptyString || ends_with_slash a)%bool then (a ++ b)%string
  else (a ++ "/" ++ b)%string.

(** A path argument must be a string. *)
Definition fspath (c : cell) : result string :=
  match c with
  | CStr s => inr s
  | _ => inl TypeError
  end.

(** *** Python dictionaries built by assignment *)

(** [d[k] = v]: the value of an existing key is replaced in place, a new
    key is added at the end. *)
Fixpoint dict_setitem {V} (d : Py.dict V) (k : string) (v : V) : Py.dict V :=
  match d with
  | [] => [(k, v)]
  | (k', v') :: d' =>
      if String.eqb k k' then (k', v) :: d' else (k', v') :: dict_setitem d' k v
  end.

(** [{key(a): value(a) for a in l}] *)
Definition dict_comprehension {A V} (key : A -> string) (value : A -> V) (l : list A)
  : Py.dict V :=
  fold_left (fun d a => dict_setitem d (key a) (value a)) l [].

(** *** The environment *)

Class Env (E : Type) : Type := {
  (** [pd.read_csv(path)] *)
  pd_read_csv : string -> E -> result csv_frame;
  (** [os.listdir(path)] *)
  os_listdir : string -> E -> result (list string);
  (** [Path(a, b).mkdir(parents=True, exist_ok=True)] *)
  path_mkdir : string -> string -> E -> result unit * E;
  (** [run_pipeline(input_filepath, name, out_dir, is_control, bin_size)] of
      [preprocess.macs_steps]: it returns the path of the processed file;
      it may write files and log. *)
  run_pipeline : cell -> cell -> string -> cell -> Z -> state E
                 -> result string * state E;
  (** [json.dump(obj, open(path, 'w'), indent=1)] *)
  json_dump : string -> Py.dict cell -> E -> result unit * E;
  (** [Parallel(n_jobs=n)(delayed(f)(a) for a in l)]: the results, in the
      order of [l]. *)
  parallel : forall A C : Type, Z -> (A -> P E C) -> list A -> P E (list C);
  (** Every result is what [f] returned for its argument, in the state the
      job ran in. *)
  parallel_results : forall A C n (f : A -> P E C) l s rs s',
    parallel n f l s = (inr rs, s') ->
    Forall2 (fun a r => exists s1 s2, f a s1 = (inr r, s2)) l rs
}.

Section Preprocess.
Context {E : Type} {V : Env E}.

Local Notation "x <- e ;; k" := (bind e (fun x => k))
  (at level 61, e at next level, right associativity).
Local Notation "e ;;; k" := (bind e (fun _ => k))
  (at level 61, right associativity).

(** An operation of the environment that only reads. *)
Definition env_read {A} (f : E -> result A) : P E A := fun s => (f (env s), s).

(** An operation of the environment that may change it. *)
Definition env_step {A} (f : E -> result A * E) : P E A :=
  fun s => let (r, e') := f (env s) in (r, mk_state e' (log s)).

Definition column_not_found (c : string) : string :=
  ("`" ++ c ++ "` column not found. Check input CSV.")%string.

(** The check of one required column (lines 31-39). *)
Definition require_column (input_csv : csv_frame) (c : string) : P E unit :=
  if negb (Py.str_in c (csv_columns input_csv)) then
    logger ERROR [Lit (column_not_found c)] ;;;
    raise (ValueError (column_not_found c))
  else ret tt.

Definition read_csv (input_csv_filepath : string) : P E csv_frame :=
  logger INFO [Lit "Reading CSV file "; Lit input_csv_filepath] ;;;
  input_csv <- env_read (pd_read_csv input_csv_filepath) ;;
  require_column input_csv "filepath" ;;;
  require_column input_csv "exp_name" ;;;
  require_column input_csv "is_control" ;;;
  ret input_csv.

(** [row.name] for a row of [iterrows()]: the cell under the column
    labelled [name], AttributeError without such a column. *)
Definition row_attr (columns : list string) (row : list cell) (name : string)
  : result cell :=
  match Pd.positions columns name with
  | [] => inl AttributeError
  | p :: _ => inr (nth p row CNaN)
  end.

Definition rbind {A C} (r : result A) (k : A -> result C) : result C :=
  match r with
  | inl e => inl e
  | inr a => k a
  end.

(** The tuple appended for one row (lines 57-65). *)
Definition row_args (columns : list string) (out_dir : string) (bin_size : Z)
           (row : list cell) : result args :=
  rbind (row_attr columns row "filepath") (fun filepath =>
  rbind (row_attr columns row "exp_name") (fun exp_name =>
  rbind (row_attr columns row "is_control") (fun is_control =>
  inr (mk_args filepath exp_name out_dir is_control bin_size)))).

Fixpoint map_rows {A C} (f : A -> result C) (l : list A) : result (list C) :=
  match l with
  | [] => inr []
  | a :: l' => rbind (f a) (fun c => rbind (map_rows f l') (fun cs => inr (c :: cs)))
  end.

Definition make_args (input_csv : csv_frame) (out_dir : string) (bin_size : Z)
  : P E (list args) :=
  logger INFO [Lit "Making arguments for parallelization..."] ;;;
  arg_list <- lift (map_rows (row_args (csv_columns input_csv) out_dir bin_size)
                             (csv_rows input_csv)) ;;
  logger DEBUG [FArgList arg_list] ;;;
  ret arg_list.

Definition tiled_suffix : string := "_filterdup_pileup_tiled.bed".

(** The name under which the processed file of an input is looked for
    (line 83). *)
Definition tiled_name (input_filepath : string) : string :=
  (fst (splitext (basename input_filepath)) ++ tiled_suffix)%string.

Definition run_single (a : args) : P E (string * cell) :=
  logger INFO [Lit "Running pipeline for "; FArgs a] ;;;
  let input_filepath := arg_filepath a in
  let name := arg_exp_name a in
  let out_dir := arg_out_dir a in
  let is_control := arg_is_control a in
  let bin_size := arg_bin_size a in
  files <- env_read (os_listdir (os_path_join out_dir "data")) ;;
  path <- lift (fspath input_filepath) ;;
  let tiled_filepath := tiled_name path in
  tiled_filepath <-
    (if negb (Py.str_in tiled_filepath files) then
       run_pipeline input_filepath name out_dir is_control bin_size
     else
       logger INFO [Lit "Skipping "; FCell input_filepath;
                    Lit " as output already exists."] ;;;
       ret tiled_filepath) ;;
  ret (tiled_filepath, name).

(** The object written by [write_json] (line 101). *)
Definition json_obj (tiled_files : list (string * cell)) : Py.dict cell :=
  dict_comprehension (fun a => os_path_join "data" (basename (fst a))) snd tiled_files.

Definition write_json (tiled_files : list (string * cell)) (out_dir : string)
  : P E unit :=
  let out_filename := os_path_join out_dir "experiment_conditions.json" in
  logger INFO [Lit "Writing json file in "; Lit out_filename] ;;;
  env_step (json_dump out_filename (json_obj tiled_files)).

Definition run (input_csv : string) (bin_size num_jobs : Z) (out_dir : string)
  : P E (list (string * cell)) :=
  input_csv <- read_csv input_csv ;;
  arg_list <- make_args input_csv out_dir bin_size ;;
  env_step (path_mkdir out_dir "data") ;;;
  logger INFO [Lit "Running "; FInt num_jobs; Lit " in parallel..."] ;;;
  tiled_files <- parallel num_jobs run_single arg_list ;;
  logger INFO [Lit "Parallel jobs completed."] ;;;
  write_json tiled_files out_dir ;;;
  ret tiled_files.

End Preprocess.

End Pre.

(* ================================================================== *)
(** ** The statements of the specification

    The predicates in which the properties of the functions above are
    stated, from the data model of the pipeline. *)

Section Specification.
Context {G : Type} {B : Backend G}.

(** A bin qualifies for training when some control sample (a column whose
    label starts with the control condition) strictly exceeds the coverage
    threshold. *)
Definition qualifies (cols : list string) (c0 : string) (t : R) (row : list R) : bool :=
  existsb (fun p => startswith (fst p) c0 && Rgtb (snd p) t) (combine cols row).

Definition qualifying_bins (data_df : DataFrame) (c0 : string) (t : R) : list (list R) :=
  filter (qualifies (columns data_df) c0 t) (values data_df).

(** The replicate counts in the order of the conditions list, and the
    column slice of treatment condition [i] (the condition at position
    [i + 1] of the list): the counts of the conditions before it give its
    first column, its own count gives its width. *)
Definition replicate_counts (counts : dict nat) (conds : list string) : list nat :=
  map (fun c => match dict_getitem counts c with inr k => k | inl _ => 0 end) conds.

Definition slice_start (counts : dict nat) (conds : list string) (i : nat) : nat :=
  Np.sum (firstn (S i) (replicate_counts counts conds)).

Definition slice_stop (counts : dict nat) (conds : list string) (i : nat) : nat :=
  Np.sum (firstn (S (S i)) (replicate_counts counts conds)).

(** A coverage matrix the background factorization can run on: non-negative
    values, distinct sample names, a conditions list whose first element is
    the control, at least one control sample and one treatment sample, a
    non-negative coverage threshold, enough qualifying bins, and
    non-negative regularisation. *)
Record usable_data (data_df : DataFrame) (conds : list string)
       (aW aH t : R) (n : nat) : Prop := {
  ud_wf : wf data_df;
  ud_nonneg : nonneg (values data_df);
  ud_names : NoDup (columns data_df);
  ud_control :
    exists c0 rest,
      conds = c0 :: rest
      /\ (exists c, In c (columns data_df) /\ startswith c c0 = true)
      /\ (exists c, In c (columns data_df) /\ startswith c c0 = false)
      /\ 1 <= n <= length (qualifying_bins data_df c0 t);
  ud_threshold : (0 <= t)%R;
  ud_alpha : (0 <= aW)%R /\ (0 <= aH)%R
}.

(** A valid input: usable data, a count of at least one for every
    condition, and counts that add up to the number of samples. *)
Record valid_input (data_df : DataFrame) (conds : list string) (counts : dict nat)
       (aW aH t : R) (n : nat) : Prop := {
  vi_data : usable_data data_df conds aW aH t n;
  vi_counts :
    Forall (fun c => exists k, dict_getitem counts c = inr k /\ 1 <= k) conds;
  vi_total : Np.sum (replicate_counts counts conds) = length (columns data_df)
}.

(** The non-empty chunks of at most [cs] rows, in order. *)
Fixpoint chunks_from (fuel cs : nat) (m : matrix) : list matrix :=
  match fuel, m with
  | S fuel', _ :: _ => firstn cs m :: chunks_from fuel' cs (skipn cs m)
  | _, _ => []
  end.

Definition chunks (cs : nat) (m : matrix) : list matrix :=
  chunks_from (length m) cs m.

(** The inputs [extract_signal] is meant for: a non-negative coverage
    matrix with at least one sample, and a non-negative mixing matrix, not
    full of zeros, with one row per condition and one column per sample. *)
Record signal_input (data_df mmatrix : DataFrame) (conds : list string)
       (cs : nat) (aW : R) : Prop := {
  si_wf : wf data_df;
  si_nonneg : nonneg (values data_df);
  si_samples : 1 <= length (columns data_df);
  si_mm_wf : wf mmatrix;
  si_mm_nonneg : nonneg (values mmatrix);
  si_mm_positive : has_positive (values mmatrix);
  si_mm_columns : length (columns mmatrix) = length (columns data_df);
  si_mm_rows : length (index mmatrix) = length conds;
  si_conds : 1 <= length conds;
  si_chunk : 1 <= cs;
  si_alpha : (0 <= aW)%R
}.

(** The condition each column should belong to: for every condition in
    list order, as many columns as its count. *)
Definition expected_layout (conds : list string) (counts : dict nat) : list string :=
  flat_map (fun c => repeat c (match dict_getitem counts c with
                               | inr k => k
                               | inl _ => 0
                               end)) conds.

(** The columns are grouped in the order of the conditions list: one column
    per expected entry, each labelled with a name that starts with its
    condition. *)
Definition layout_ok (data_df : DataFrame) (conds : list string) (counts : dict nat)
  : bool :=
  (length (columns data_df) =? length (expected_layout conds counts))
  && forallb (fun p => startswith (fst p) (snd p))
             (combine (columns data_df) (expected_layout conds counts)).

(** The floor of the log transform on one column: the argument of the
    logarithm is positive, and it is [eps] for a raw value below [eps]. *)
Definition floored (eps : R) (col : list R) : Prop :=
  log_transform eps col = map (fun x => ln (Rmax eps x)) col
  /\ Forall (fun x => (0 < Rmax eps x)%R /\ ((x < eps)%R -> Rmax eps x = eps)) col.

(** What a table returned by [run_HSR] satisfies: for the control column
    and for every treatment condition the log transform is floored at [eps],
    the prediction is floored at [log(0.5)], the " fit" column of the
    condition is the exponential of the prediction and is at least [0.5],
    and the " HSR Value" column is the floored treatment value divided by
    that baseline. *)
Definition hsr_floors (wmat : DataFrame) (bl_mask : list bool) (conds : list string)
           (eps : R) (out : DataFrame) : Prop :=
  exists c0 control_col,
    nth_error conds 0 = Some c0
    /\ loc_col wmat c0 = inr control_col
    /\ floored eps control_col
    /\ index out = index wmat
    /\ forall t, In t (skipn 1 conds) ->
         exists treatment_col st,
           loc_col wmat t = inr treatment_col
           /\ run_HSR_step wmat bl_mask eps (log_transform eps control_col) t = inr st
           /\ treatment_transf st = log_transform eps treatment_col
           /\ floored eps treatment_col
           /\ log_pred st
              = map (fun c => Rmax (reg_coef st * c) (ln (1 / 2)))
                    (log_transform eps control_col)
           /\ Forall (fun lp => (ln (1 / 2) <= lp)%R) (log_pred st)
           /\ loc_col out (t ++ " fit")%string = inr (map exp (log_pred st))
           /\ Forall (fun p => (1 / 2 <= p)%R) (map exp (log_pred st))
           /\ loc_col out (t ++ " HSR Value")%string
              = inr (map (fun p => (Rmax eps (fst p) / exp (snd p))%R)
                         (combine treatment_col (log_pred st))).

(** What a run of [run_HSR_replicates] that returns has computed for every
    treatment replicate: the replicate's column minus the control signal
    scaled by the entry of row 0 of the mixing matrix at the replicate's
    position among the treatment columns plus the number of control
    samples, floored at [eps], then the logarithm; this is the treatment
    side of the fit.  With the control columns first and as many as counted,
    that entry is at the replicate's own column position. *)
Definition replicate_signals (replicates wmat mmat : DataFrame) (bl_mask : list bool)
           (conds : list string) (counts : dict nat) (eps : R) : Prop :=
  exists c0 n_control tissue_signal,
    nth_error conds 0 = Some c0
    /\ dict_getitem counts c0 = inr n_control
    /\ loc_col wmat c0 = inr tissue_signal
    /\ forall i s,
        nth_error (filter (fun c => negb (startswith c c0)) (columns replicates)) i
        = Some s ->
        exists sample_data row0 tissue_coef st,
          loc_col replicates s = inr sample_data
          /\ nth_error (values mmat) 0 = Some row0
          /\ nth_error row0 (i + n_control) = Some tissue_coef
          /\ run_HSR_replicates_step replicates mmat bl_mask eps n_control
               (log_transform eps tissue_signal) tissue_signal i s = inr st
          /\ treatment_transf st
             = map (fun p => ln (Rmax (fst p - tissue_coef * snd p) eps))
                   (combine sample_data tissue_signal)
          /\ Forall (fun p => (eps <= Rmax (fst p - tissue_coef * snd p) eps)%R)
                    (combine sample_data tissue_signal)
          /\ hsr_fit (log_transform eps tissue_signal) (treatment_transf st) bl_mask
             = inr (fit_ixs st, reg_coef st)
          /\ (forall ctrl treat,
                 columns replicates = ctrl ++ treat ->
                 Forall (fun c => startswith c c0 = true) ctrl ->
                 Forall (fun c => startswith c c0 = false) treat ->
                 length ctrl = n_control ->
                 nth_error (columns replicates) (i + n_control) = Some s).

(** Two columns agree on the bins the mask keeps. *)
Definition agree_on (mask : list bool) (a b : list R) : Prop :=
  length a = length b
  /\ forall i, nth i mask false = true -> nth i a 0%R = nth i b 0%R.

(** Two frames with the same columns and as many rows agree on the bins the
    mask keeps. *)
Definition frames_agree_on (mask : list bool) (df df' : DataFrame) : Prop :=
  columns df = columns df'
  /\ length (values df) = length (values df')
  /\ forall i, nth i mask false = true -> nth i (values df) [] = nth i (values df') [].

(** The fit of an iteration: the bins used and the coefficient. *)
Definition fit_of (r : result hsr_locals) : result (list nat * R) :=
  (st <- r ;; ok (fit_ixs st, reg_coef st))%result.

(** Agreement, by recursion on the columns. *)
Fixpoint agree_rec (mask : list bool) (a b : list R) : Prop :=
  match a, b with
  | [], [] => True
  | x :: a', y :: b' => (hd false mask = true -> x = y) /\ agree_rec (tl mask) a' b'
  | _, _ => False
  end.

(** The values computed along a run of [extract_mixing_matrix] that
    returns. *)
Inductive mixing_run (data_df : DataFrame) (conditions_list : list string)
          (conditions_counts_ref : dict nat) (alpha_W alpha_H t : R) (n : nat)
          (seed : Z) (w : world G) (mm : DataFrame) (w' : world G) : Prop :=
| mixing_run_intro
    (c0 : string) (rest : list string) (train_data : DataFrame)
    (W_unspec H_unspec : matrix) (w1 : world G)
    (W_treat_uns H_treat_uns : matrix) (w2 : world G)
    (specific_data_mat : matrix) (n_control_replicates : nat)
    (histone_n_replicates : list nat) (mm0 mm1 : matrix) :
    let control_cols := filter (fun c => startswith c c0) (columns data_df) in
    let treatment_cols :=
      filter (fun c => negb (str_in c control_cols)) (columns data_df) in
    let H_unspec_coefs := flatten H_unspec ++ flatten (transpose W_treat_uns) in
    let total := Np.sum (n_control_replicates :: histone_n_replicates) in
    conditions_list = c0 :: rest ->
    select_train_data data_df conditions_list t n seed = inr train_data ->
    NMF_fit_transform alpha_W alpha_H
      (values (loc_cols train_data control_cols)) w
    = (inr (W_unspec, H_unspec), w1) ->
    call_nnf {| nnf_X := transpose (values (loc_cols train_data treatment_cols));
                nnf_W := None; nnf_H := Some (reshape_1 W_unspec);
                nnf_n_components := 1; nnf_init := Some init_custom;
                nnf_update_H := false; nnf_solver := mu;
                nnf_beta_loss := beta_number 1;
                nnf_alpha_W := alpha_W; nnf_alpha_H := None;
                nnf_max_iter := 200; nnf_random_state := None |} w1
    = (inr (W_treat_uns, H_treat_uns), w2) ->
    specific_data (values train_data) W_unspec H_unspec_coefs
    = inr specific_data_mat ->
    map_result (dict_getitem conditions_counts_ref) conditions_list
    = inr (n_control_replicates :: histone_n_replicates) ->
    setitem_row_slice (zeros (length conditions_list) total) 0 0 total
                      H_unspec_coefs = inr mm0 ->
    specific_loop alpha_W alpha_H specific_data_mat histone_n_replicates
                  (enumerate rest) n_control_replicates mm0 w2
    = (inr mm1, w') ->
    Pd.make mm1 ("unspecific"%string :: rest) (columns train_data) = inr mm ->
    mixing_run data_df conditions_list conditions_counts_ref alpha_W alpha_H
               t n seed w mm w'.

(** What lines 26-52 compute on usable data: the training subset, the two
    background factorizations (the only calls made so far) and the
    residual. *)
Inductive background (data_df : DataFrame) (conds : list string)
          (aW aH t : R) (n : nat) (seed : Z) (w : world G) : Prop :=
| background_intro
    (c0 : string) (rest : list string) (train_data : DataFrame)
    (W_unspec H_unspec : matrix) (w1 : world G)
    (W_treat_uns H_treat_uns : matrix) (w2 : world G)
    (specific_data_mat : matrix) :
    let control_cols := filter (fun c => startswith c c0) (columns data_df) in
    let treatment_cols :=
      filter (fun c => negb (str_in c control_cols)) (columns data_df) in
    let H_unspec_coefs := flatten H_unspec ++ flatten (transpose W_treat_uns) in
    conds = c0 :: rest ->
    select_train_data data_df conds t n seed = inr train_data ->
    columns train_data = columns data_df ->
    NMF_fit_transform aW aH (values (loc_cols train_data control_cols)) w
    = (inr (W_unspec, H_unspec), w1) ->
    call_nnf {| nnf_X := transpose (values (loc_cols train_data treatment_cols));
                nnf_W := None; nnf_H := Some (reshape_1 W_unspec);
                nnf_n_components := 1; nnf_init := Some init_custom;
                nnf_update_H := false; nnf_solver := mu;
                nnf_beta_loss := beta_number 1;
                nnf_alpha_W := aW; nnf_alpha_H := None;
                nnf_max_iter := 200; nnf_random_state := None |} w1
    = (inr (W_treat_uns, H_treat_uns), w2) ->
    length (nmf_calls w2) = length (nmf_calls w) + 2 ->
    length H_unspec_coefs = length (columns data_df) ->
    2 <= length (columns data_df) ->
    nonneg_row H_unspec_coefs ->
    specific_data (values train_data) W_unspec H_unspec_coefs
    = inr specific_data_mat ->
    has_shape specific_data_mat n (length (columns data_df)) ->
    nonneg specific_data_mat ->
    background data_df conds aW aH t n seed w.

End Specification.

(* ================================================================== *)
(** ** A reference backend

    A small instance of [Backend]: it shows that the contract is
    satisfiable, and concrete runs are evaluated with it.  The generator
    state is a counter; a factorization that draws from the global generator
    initialises from it, every other factorization starts from ones. *)

Module Reference.

Definition const_matrix (x : R) (r c : nat) : matrix := repeat (repeat x c) r.

Definition ref_nnf (c : nnf_call) (g : nat) : result (matrix * matrix) * nat :=
  if (nrows (nnf_X c) =? 0) || (ncols (nnf_X c) =? 0) || (nnf_n_components c =? 0)
  then (inl ValueError, g)
  else if draws_from_global c
  then (inr (const_matrix (INR (S g)) (nrows (nnf_X c)) (nnf_n_components c),
             const_matrix (INR (S g)) (nnf_n_components c) (ncols (nnf_X c))), S g)
  else (inr (const_matrix 1 (nrows (nnf_X c)) (nnf_n_components c),
             const_matrix 1 (nnf_n_components c) (ncols (nnf_X c))), g).

Definition ref_uniform (lo hi : R) (r c : nat) (g : nat) : matrix * nat :=
  (const_matrix lo r c, S g).

Definition ref_choice (seed : Z) (pop size : nat) : list nat := seq 0 size.

Definition Rsum (l : list R) : R := fold_right Rplus 0%R l.

(** Least squares through the origin; scikit-learn refuses to fit on no
    sample at all. *)
Definition ref_linear_regression (xs ys : list R) : result R :=
  match xs with
  | [] => raise ValueError
  | _ :: _ => ok (Rsum (map (fun p => fst p * snd p) (combine xs ys))
                  / Rsum (map (fun x => x * x) xs))%R
  end.

Lemma const_matrix_shape x r c : has_shape (const_matrix x r c) r c.
Proof.
  unfold has_shape, const_matrix. split.
  - apply repeat_length.
  - apply Forall_forall. intros row Hin.
    apply repeat_spec in Hin. subst row. apply repeat_length.
Qed.

Lemma const_matrix_bound (P : R -> Prop) x r c :
  P x -> Forall (Forall P) (const_matrix x r c).
Proof.
  intros Hx. unfold const_matrix.
  apply Forall_forall. intros row Hin.
  apply repeat_spec in Hin. subst row.
  apply Forall_forall. intros y Hy.
  apply repeat_spec in Hy. now subst y.
Qed.

Lemma const_matrix_positive x r c :
  (0 < x)%R -> 1 <= r -> 1 <= c -> has_positive (const_matrix x r c).
Proof.
  intros Hx Hr Hc. destruct r as [|r]; [lia|]. destruct c as [|c]; [lia|].
  unfold has_positive, const_matrix. simpl. now repeat constructor.
Qed.

Lemma ref_nnf_inv c g W H g' :
  ref_nnf c g = (inr (W, H), g') ->
  1 <= nrows (nnf_X c) /\ 1 <= ncols (nnf_X c) /\ 1 <= nnf_n_components c
  /\ exists x, (0 < x)%R
    /\ W = const_matrix x (nrows (nnf_X c)) (nnf_n_components c)
    /\ H = const_matrix x (nnf_n_components c) (ncols (nnf_X c)).
Proof.
  unfold ref_nnf.
  destruct (nrows (nnf_X c) =? 0) eqn:E1; [discriminate|].
  destruct (ncols (nnf_X c) =? 0) eqn:E2; [discriminate|].
  destruct (nnf_n_components c =? 0) eqn:E3; [discriminate|].
  apply Nat.eqb_neq in E1, E2, E3. simpl.
  split; [lia|]. split; [lia|]. split; [lia|].
  destruct (draws_from_global c); inversion H0; subst.
  - exists (INR (S g)). split; [apply lt_0_INR; lia | tauto].
  - exists 1%R. split; [lra | tauto].
Qed.

#[export] Program Instance backend : Backend nat := {|
  non_negative_factorization := ref_nnf;
  random_uniform := ref_uniform;
  choice := ref_choice;
  linear_regression := ref_linear_regression
|}.
Next Obligation.
  destruct (ref_nnf_inv _ _ H0) as (_ & _ & _ & x & _ & -> & ->).
  split; apply const_matrix_shape.
Qed.
Next Obligation.
  destruct (ref_nnf_inv _ _ H0) as (_ & _ & _ & x & Hx & -> & ->).
  split; apply const_matrix_bound; lra.
Qed.
Next Obligation.
  destruct (ref_nnf_inv _ _ H0) as (Hr & Hc & Hk & x & Hx & -> & ->).
  split; now apply const_matrix_positive.
Qed.
Next Obligation.
  destruct H as (Hr & Hc & _ & Hk & _).
  unfold ref_nnf.
  destruct (nrows (nnf_X c) =? 0) eqn:E1; [apply Nat.eqb_eq in E1; lia|].
  destruct (ncols (nnf_X c) =? 0) eqn:E2; [apply Nat.eqb_eq in E2; lia|].
  destruct (nnf_n_components c =? 0) eqn:E3; [apply Nat.eqb_eq in E3; lia|].
  simpl. destruct (draws_from_global c); eauto.
Qed.
Next Obligation. apply const_matrix_shape. Qed.
Next Obligation. apply const_matrix_bound. lra. Qed.
Next Obligation.
  unfold ref_choice. split.
  - apply length_seq.
  - apply Forall_forall. intros i Hi. apply in_seq in Hi. lia.
Qed.

End Reference.

(* ================================================================== *)
(** ** A small experiment

    Two bins, one control sample and one sample for each of two treatment
    conditions. *)

Module Example.

Definition data_df : DataFrame :=
  {| index := ["chr1:0-200"; "chr1:200-400"]%string;
     columns := ["control_1"; "A_1"; "B_1"]%string;
     values := [[2; 1; 3]; [4; 0; 5]]%R |}.

Definition conditions_list : list string := ["control"; "A"; "B"]%string.

Definition conditions_counts_ref : dict nat :=
  [("control", 1); ("A", 1); ("B", 1)]%string.

Definition alpha_W : R := (1 / 100)%R.
Definition alpha_H : R := (1 / 1000)%R.

Definition w0 : world nat := {| np_random := 0; nmf_calls := [] |}.

(** A coverage matrix with the same samples and no bin. *)
Definition empty_df : DataFrame :=
  {| index := []; columns := ["control_1"; "A_1"; "B_1"]%string; values := [] |}.

(** The same bins with the samples of A and B in the other order. *)
Definition misordered_df : DataFrame :=
  {| index := ["chr1:0-200"; "chr1:200-400"]%string;
     columns := ["control_1"; "B_1"; "A_1"]%string;
     values := [[2; 3; 1]; [4; 5; 0]]%R |}.

(** Counts that add up to four, for three samples. *)
Definition miscounted_ref : dict nat :=
  [("control", 1); ("A", 1); ("B", 2)]%string.

Definition world_at (g : nat) : world nat := {| np_random := g; nmf_calls := [] |}.

(** A signal matrix and a coverage matrix for three bins, the last of them
    in a blacklisted region, and the floor. *)
Definition wmat : DataFrame :=
  {| index := ["chr1:0-200"; "chr1:200-400"; "chr1:400-600"]%string;
     columns := ["control"; "A"; "B"]%string;
     values := [[0; 0; 0]; [2; 2; 3]; [5; 9; 4]]%R |}.

Definition replicates : DataFrame :=
  {| index := ["chr1:0-200"; "chr1:200-400"; "chr1:400-600"]%string;
     columns := ["control_1"; "A_1"; "B_1"]%string;
     values := [[0; 0; 0]; [1; 4; 5]; [5; 1; 6]]%R |}.

Definition bl_mask : list bool := [true; true; false].

(** The same signal matrix and the same coverage matrix, changed at the
    masked-out third bin. *)
Definition wmat' : DataFrame :=
  {| index := ["chr1:0-200"; "chr1:200-400"; "chr1:400-600"]%string;
     columns := ["control"; "A"; "B"]%string;
     values := [[0; 0; 0]; [2; 2; 3]; [7; 8; 9]]%R |}.

Definition replicates' : DataFrame :=
  {| index := ["chr1:0-200"; "chr1:200-400"; "chr1:400-600"]%string;
     columns := ["control_1"; "A_1"; "B_1"]%string;
     values := [[0; 0; 0]; [1; 4; 5]; [6; 6; 6]]%R |}.

Definition eps : R := (1 / 100000000000000000000)%R.

Definition mmatrix : DataFrame :=
  {| index := ["unspecific"; "A"; "B"]%string;
     columns := ["control_1"; "A_1"; "B_1"]%string;
     values := [[1; 1; 1]; [0; 1; 0]; [0; 0; 1]]%R |}.

End Example.

(* ================================================================== *)
(** ** The environment of a small preprocessing run *)

(** No character of [s] is [c]. *)
Definition lacks (c : ascii) (s : string) : Prop :=
  forall i, String.get i s <> Some c.

(** A reference environment: one CSV file, the names in the [data]
    directory as the state, jobs run one after the other. *)
Module PreReference.
Import Pre.

Definition samples : csv_frame :=
  {| csv_columns := ["filepath"; "exp_name"; "is_control"]%string;
     csv_rows := [[CStr "reads/input.bam"; CStr "control"; CBool true];
                  [CStr "reads/h3k4me3.bam"; CStr "A"; CBool false]] |}.

(** The same table without the [exp_name] column. *)
Definition unnamed : csv_frame :=
  {| csv_columns := ["filepath"; "is_control"]%string;
     csv_rows := [[CStr "reads/input.bam"; CBool true]] |}.

Definition ref_read_csv (path : string) (e : list string) : result csv_frame :=
  if String.eqb path "samples.csv" then inr samples
  else if String.eqb path "unnamed.csv" then inr unnamed
  else inl (EnvError "FileNotFoundError").

Definition ref_run_pipeline (input_filepath name : cell) (out_dir : string)
           (is_control : cell) (bin_size : Z) (s : state (list string))
  : result string * state (list string) :=
  match input_filepath with
  | CStr p =>
      (inr (os_path_join (os_path_join out_dir "data") (tiled_name p)),
       mk_state (env s ++ [tiled_name p]) (log s))
  | _ => (inl TypeError, s)
  end.

(** Jobs run in order, each in the state the one before left. *)
Fixpoint sequential {E A C} (f : A -> P E C) (l : list A) : P E (list C) :=
  match l with
  | [] => ret []
  | a :: l' => bind (f a) (fun c => bind (sequential f l') (fun cs => ret (c :: cs)))
  end.

Lemma sequential_results {E A C} (f : A -> P E C) l :
  forall s rs s',
    sequential f l s = (inr rs, s') ->
    Forall2 (fun a r => exists s1 s2, f a s1 = (inr r, s2)) l rs.
Proof.
  induction l as [|a l IH]; intros s rs s' H.
  - inversion H. constructor.
  - cbn [sequential] in H. unfold bind at 1 in H.
    destruct (f a s) as [[e|c] s1] eqn:Ef; [discriminate|].
    unfold bind at 1 in H.
    destruct (sequential f l s1) as [[e|cs] s2] eqn:Es; [discriminate|].
    inversion H; subst. constructor; eauto.
Qed.

#[export] Instance environment : Env (list string) := {
  pd_read_csv := ref_read_csv;
  os_listdir := fun _ e => inr e;
  path_mkdir := fun _ _ e => (inr tt, e);
  run_pipeline := ref_run_pipeline;
  json_dump := fun _ _ e => (inr tt, e);
  parallel := fun A C _ f l => sequential f l;
  parallel_results := fun A C _ f l => sequential_results f l
}.

Definition s0 : state (list string) := {| env := []; log := [] |}.

End PreReference.

(* ================================================================== *)
(** ** Lists, slices and masks *)

Section ListFacts.
Context {A : Type}.

Lemma mask_select_map (f : A -> bool) (l : list A) :
  mask_select (map f l) l = filter f l.
Proof.
  induction l as [|a l IH]; simpl; [reflexivity|].
  rewrite IH. reflexivity.
Qed.

Lemma mask_select_length {C} (mask : list bool) (l : list A) (l' : list C) :
  length l = length l' ->
  length (mask_select mask l) = length (mask_select mask l').
Proof.
  revert l l'. induction mask as [|b mask IH]; intros [|a l] [|c l'] Hlen;
    simpl in *; try reflexivity; try discriminate.
  injection Hlen as Hlen. destruct b; simpl; auto.
Qed.

Lemma take_length (d : A) (l : list A) (ixs : list nat) :
  length (take d l ixs) = length ixs.
Proof. unfold take. apply length_map. Qed.

Lemma take_In (d : A) (l : list A) (ixs : list nat) (x : A) :
  Forall (fun i => i < length l) ixs ->
  In x (take d l ixs) -> In x l.
Proof.
  intros Hix Hin. unfold take in Hin. apply in_map_iff in Hin.
  destruct Hin as (i & <- & Hi).
  rewrite Forall_forall in Hix. apply nth_In. auto.
Qed.

Lemma slice_length (l : list A) (a b : nat) :
  length (slice l a b) = Nat.min b (length l) - a.
Proof. unfold slice. rewrite length_skipn, length_firstn. reflexivity. Qed.

End ListFacts.

Lemma Rgtb_true x y : (x > y)%R -> Rgtb x y = true.
Proof. intros H. unfold Rgtb. destruct (Rgt_dec x y); [reflexivity | contradiction]. Qed.

Lemma Rgtb_false x y : (x <= y)%R -> Rgtb x y = false.
Proof. intros H. unfold Rgtb. destruct (Rgt_dec x y); [lra | reflexivity]. Qed.

Lemma Rgtb_spec x y : Rgtb x y = true <-> (x > y)%R.
Proof.
  unfold Rgtb. destruct (Rgt_dec x y); split; intros; try discriminate; tauto.
Qed.

(* ================================================================== *)
(** ** Column selection *)

Lemma combine_seq_In {A} (l : list A) s q (x : A) :
  In (q, x) (combine (seq s (length l)) l) <->
  s <= q /\ nth_error l (q - s) = Some x.
Proof.
  revert s. induction l as [|a l IH]; intros s; simpl.
  - split; [tauto|]. intros (_ & H). destruct (q - s); discriminate.
  - rewrite IH. split.
    + intros [E | (Hle & Hn)].
      * inversion E; subst. split; [lia|]. rewrite Nat.sub_diag. reflexivity.
      * split; [lia|]. replace (q - s) with (S (q - S s)) by lia. exact Hn.
    + intros (Hle & Hn). destruct (Nat.eq_dec s q) as [->|Hne].
      * rewrite Nat.sub_diag in Hn. simpl in Hn. inversion Hn. now left.
      * right. split; [lia|].
        replace (q - s) with (S (q - S s)) in Hn by lia. exact Hn.
Qed.

Lemma enumerate_In {A} (l : list A) i (x : A) :
  In (i, x) (enumerate l) <-> nth_error l i = Some x.
Proof.
  unfold enumerate. rewrite combine_seq_In, Nat.sub_0_r.
  split; [tauto | intros; split; [lia | assumption]].
Qed.

Lemma positions_spec cols name p :
  In p (positions cols name) <-> nth_error cols p = Some name.
Proof.
  unfold positions. rewrite in_map_iff. split.
  - intros ((i, c) & Hp & Hin). simpl in Hp. subst i.
    apply filter_In in Hin. destruct Hin as (Hin & Heq). simpl in Heq.
    apply String.eqb_eq in Heq. subst c.
    now apply enumerate_In.
  - intros Hn. exists (p, name). split; [reflexivity|].
    apply filter_In. split; [now apply enumerate_In|].
    simpl. apply String.eqb_refl.
Qed.

Lemma combine_In_nth {A C} (l : list A) (l' : list C) a b :
  In (a, b) (combine l l') <->
  exists p, nth_error l p = Some a /\ nth_error l' p = Some b.
Proof.
  revert l'. induction l as [|x l IH]; intros [|y l']; simpl.
  - split; [tauto | intros ([|p] & H & _); discriminate].
  - split; [tauto | intros ([|p] & H & _); discriminate].
  - split; [tauto | intros ([|p] & _ & H); discriminate].
  - rewrite IH. split.
    + intros [E | (p & H1 & H2)].
      * inversion E; subst. exists 0. auto.
      * exists (S p). auto.
    + intros ([|p] & H1 & H2); simpl in *.
      * left. congruence.
      * right. eauto.
Qed.

Lemma existsb_iff_eq {A C} (f : A -> bool) (g : C -> bool) l l' :
  (existsb f l = true <-> existsb g l' = true) -> existsb f l = existsb g l'.
Proof.
  destruct (existsb f l), (existsb g l'); intros [H1 H2]; auto.
  - symmetry. auto.
Qed.

(** The mask computed at lines 26-27 is the qualification test of the
    specification. *)
Lemma control_mask_qualifies cols c0 t row :
  length row = length cols ->
  existsb (fun x => Rgtb x t)
          (map (fun p => nth p row 0%R)
               (flat_map (positions cols) (filter (fun c => startswith c c0) cols)))
  = qualifies cols c0 t row.
Proof.
  intros Hlen. unfold qualifies. apply existsb_iff_eq.
  rewrite !existsb_exists. split.
  - intros (x & Hin & Hx).
    apply in_map_iff in Hin. destruct Hin as (p & <- & Hp).
    apply in_flat_map in Hp. destruct Hp as (name & Hname & Hp).
    apply filter_In in Hname. destruct Hname as (_ & Hpre).
    apply positions_spec in Hp.
    assert (Hlt : p < length row).
    { rewrite Hlen. apply nth_error_Some. congruence. }
    exists (name, nth p row 0%R). split.
    + apply combine_In_nth. exists p. split; [assumption|].
      now apply nth_error_nth'.
    + simpl. now rewrite Hpre, Hx.
  - intros ((name, x) & Hin & Hx). simpl in Hx.
    apply andb_true_iff in Hx. destruct Hx as (Hpre & Hx).
    apply combine_In_nth in Hin. destruct Hin as (p & Hc & Hr).
    exists x. split; [|assumption].
    apply in_map_iff. exists p. split.
    + now apply nth_error_nth.
    + apply in_flat_map. exists name. split.
      * apply filter_In. split; [|assumption]. eapply nth_error_In; eauto.
      * now apply positions_spec.
Qed.

Section Training.
Context {G : Type} {B : Backend G}.

Lemma select_dsel_values data_df c0 rest t :
  wf data_df ->
  exists dsel,
    select_dsel data_df (c0 :: rest) t = inr dsel
    /\ values dsel = qualifying_bins data_df c0 t
    /\ columns dsel = columns data_df
    /\ length (index dsel) = length (values dsel).
Proof.
  intros (Hix & Hrows).
  unfold select_dsel. simpl. eexists. split; [reflexivity|].
  unfold filter_rows, any_gt, loc_cols, qualifying_bins. simpl.
  rewrite map_map. split; [|split].
  - rewrite mask_select_map. apply filter_ext_in.
    intros row Hin. apply control_mask_qualifies.
    rewrite Forall_forall in Hrows. auto.
  - reflexivity.
  - now apply mask_select_length.
Qed.

Lemma sample_spec (df : DataFrame) n seed :
  length (index df) = length (values df) ->
  n <= length (values df) ->
  exists train,
    sample df n seed = inr train
    /\ length (values train) = n
    /\ length (index train) = n
    /\ columns train = columns df
    /\ (forall row, In row (values train) -> In row (values df)).
Proof.
  intros Hix Hn. unfold sample.
  destruct (length (index df) <? n) eqn:E.
  - apply Nat.ltb_lt in E. lia.
  - destruct (choice_spec seed (pop := length (index df)) (size := n))
      as (Hlen & Hlt); [lia|].
    eexists. split; [reflexivity|]. simpl.
    rewrite !take_length. repeat split; trivial.
    intros row Hin. eapply take_In; [|exact Hin].
    rewrite <- Hix. exact Hlt.
Qed.

Lemma sample_too_few (df : DataFrame) n seed :
  length (index df) < n -> sample df n seed = inl ValueError.
Proof.
  intros H. unfold sample. apply Nat.ltb_lt in H. now rewrite H.
Qed.

(** The training subset: enough qualifying bins give exactly
    [n_train_bins] rows, each one a qualifying bin with all its sample
    columns. *)
Lemma select_train_data_spec data_df c0 rest t n seed :
  wf data_df ->
  n <= length (qualifying_bins data_df c0 t) ->
  exists train,
    select_train_data data_df (c0 :: rest) t n seed = inr train
    /\ length (values train) = n
    /\ length (index train) = n
    /\ columns train = columns data_df
    /\ (forall row, In row (values train) ->
                    In row (qualifying_bins data_df c0 t)).
Proof.
  intros Hwf Hn.
  destruct (select_dsel_values c0 rest t Hwf) as (dsel & Hd & Hv & Hc & Hl).
  destruct (@sample_spec dsel n seed Hl) as (train & Hs & H1 & H2 & H3 & H4).
  { now rewrite Hv. }
  exists train. unfold select_train_data. rewrite Hd. simpl.
  rewrite Hs. repeat split; trivial.
  - congruence.
  - intros row Hin. rewrite <- Hv. auto.
Qed.

Lemma select_train_data_too_few data_df c0 rest t n seed :
  wf data_df ->
  length (qualifying_bins data_df c0 t) < n ->
  select_train_data data_df (c0 :: rest) t n seed = inl ValueError.
Proof.
  intros Hwf Hn.
  destruct (select_dsel_values c0 rest t Hwf) as (dsel & Hd & Hv & Hc & Hl).
  unfold select_train_data. rewrite Hd. simpl.
  apply sample_too_few. rewrite Hl, Hv. exact Hn.
Qed.

End Training.

(* ================================================================== *)
(** ** Inversion of the monads *)

Lemma rbind_inr {A C} (r : result A) (k : A -> result C) c :
  rbind r k = inr c -> exists a, r = inr a /\ k a = inr c.
Proof. destruct r as [e|a]; simpl; [discriminate | eauto]. Qed.

Lemma bind_inr {G A C} (m : M G A) (k : A -> M G C) w c w' :
  bind m k w = (inr c, w') ->
  exists a w1, m w = (inr a, w1) /\ k a w1 = (inr c, w').
Proof.
  unfold bind. destruct (m w) as [[e|a] w1]; [discriminate | eauto].
Qed.

Lemma lift_inr {G A} (r : result A) (w : world G) a w' :
  lift r w = (inr a, w') -> r = inr a /\ w' = w.
Proof. unfold lift. intros E. inversion E. auto. Qed.

Lemma bind_lift_inr {G A C} (r : result A) (k : A -> M G C) w c w' :
  bind (lift r) k w = (inr c, w') ->
  exists a, r = inr a /\ k a w = (inr c, w').
Proof.
  intros H. apply bind_inr in H. destruct H as (a & w1 & H1 & H2).
  apply lift_inr in H1. destruct H1 as (-> & ->). eauto.
Qed.

Lemma getitem_inr {A} (l : list A) i a :
  getitem l i = inr a <-> nth_error l i = Some a.
Proof.
  unfold getitem. destruct (nth_error l i); simpl; split; intros E;
    try discriminate; inversion E; reflexivity.
Qed.

Section CallFacts.
Context {G : Type} {B : Backend G}.

Lemma call_nnf_inr c (w : world G) W H w' :
  call_nnf c w = (inr (W, H), w') ->
  nmf_calls w' = nmf_calls w ++ [c]
  /\ has_shape W (nrows (nnf_X c)) (nnf_n_components c)
  /\ has_shape H (nnf_n_components c) (ncols (nnf_X c))
  /\ nonneg W /\ nonneg H.
Proof.
  unfold call_nnf.
  destruct (non_negative_factorization c (np_random w)) as [r g'] eqn:E.
  intros E'. inversion E'; subst. simpl.
  split; [reflexivity|].
  destruct (nnf_shape _ _ E) as (H1 & H2).
  destruct (nnf_nonneg _ _ E) as (H3 & H4). auto.
Qed.

Lemma call_nnf_total c (w : world G) :
  nnf_valid c ->
  exists W H w', call_nnf c w = (inr (W, H), w').
Proof.
  intros Hv. destruct (nnf_total (np_random w) Hv) as (W & H & g' & E).
  unfold call_nnf. rewrite E. eauto.
Qed.

Lemma call_nnf_positive c (w : world G) W H w' :
  call_nnf c w = (inr (W, H), w') ->
  has_positive (nnf_X c) ->
  has_positive W /\ has_positive H.
Proof.
  unfold call_nnf.
  destruct (non_negative_factorization c (np_random w)) as [r g'] eqn:E.
  intros E' Hpos. inversion E'; subst. eapply nnf_positive; eauto.
Qed.

Lemma call_nnf_calls c (w : world G) r w' :
  call_nnf c w = (r, w') -> nmf_calls w' = nmf_calls w ++ [c].
Proof.
  unfold call_nnf.
  destruct (non_negative_factorization c (np_random w)).
  intros E. inversion E. reflexivity.
Qed.

End CallFacts.

(* ================================================================== *)
(** ** Assignment into a slice *)

Lemma setitem_slice_length row a b v row' :
  setitem_slice row a b v = inr row' -> length row' = length row.
Proof.
  unfold setitem_slice.
  pose proof (slice_length row a b) as HL.
  destruct (length v =? length (slice row a b)) eqn:E1.
  - apply Nat.eqb_eq in E1. intros E. inversion E; subst.
    rewrite !length_app, length_firstn, length_skipn. lia.
  - destruct (length v =? 1); [|discriminate].
    intros E. inversion E; subst.
    rewrite !length_app, repeat_length, length_firstn, length_skipn. lia.
Qed.

Lemma nth_outside_splice {A} (row mid : list A) a d j :
  length mid <= length row - a ->
  j < a \/ a + length mid <= j ->
  nth j (firstn a row ++ mid ++ skipn (a + length mid) row) d = nth j row d.
Proof.
  intros Hmid Hj.
  destruct (Nat.le_gt_cases (length row) a) as [Hle | Hgt].
  - assert (length mid = 0) by lia.
    destruct mid; [|discriminate]. simpl.
    rewrite firstn_all2, skipn_all2 by lia. now rewrite app_nil_r.
  - assert (Hf : length (firstn a row) = a) by (rewrite length_firstn; lia).
    destruct Hj as [Hj | Hj].
    + rewrite app_nth1 by lia. now rewrite nth_firstn, (proj2 (Nat.ltb_lt _ _) Hj).
    + rewrite app_nth2 by lia. rewrite app_nth2 by lia.
      rewrite nth_skipn, Hf. f_equal. lia.
Qed.

(** An assignment to [row[a:b]] leaves every entry outside [a:b] as it was. *)
Lemma setitem_slice_outside row a b v row' j :
  setitem_slice row a b v = inr row' ->
  j < a \/ b <= j ->
  nth j row' 0%R = nth j row 0%R.
Proof.
  unfold setitem_slice.
  pose proof (slice_length row a b) as HL.
  intros E Hj.
  assert (Hj' : j < a \/ a + length (slice row a b) <= j \/ length row <= j) by lia.
  destruct (length v =? length (slice row a b)) eqn:E1.
  - apply Nat.eqb_eq in E1. inversion E; subst. rewrite <- E1.
    destruct Hj' as [Hj' | [Hj' | Hj']].
    + apply nth_outside_splice; lia.
    + apply nth_outside_splice; lia.
    + rewrite (nth_overflow row) by lia. apply nth_overflow.
      rewrite !length_app, length_firstn, length_skipn. lia.
  - destruct (length v =? 1); [|discriminate]. inversion E; subst.
    set (mid := repeat (nth 0 v 0%R) (length (slice row a b))).
    assert (Hmid : length mid = length (slice row a b)) by apply repeat_length.
    rewrite <- Hmid.
    destruct Hj' as [Hj' | [Hj' | Hj']].
    + apply nth_outside_splice; lia.
    + apply nth_outside_splice; lia.
    + rewrite (nth_overflow row) by lia. apply nth_overflow.
      rewrite !length_app, length_firstn, length_skipn. lia.
Qed.

Lemma setitem_row_slice_inv m r a b v m' :
  setitem_row_slice m r a b v = inr m' ->
  exists row row',
    nth_error m r = Some row
    /\ setitem_slice row a b v = inr row'
    /\ m' = firstn r m ++ row' :: skipn (S r) m.
Proof.
  unfold setitem_row_slice.
  destruct (nth_error m r) as [row|]; [|discriminate].
  intros E. apply rbind_inr in E. destruct E as (row' & E1 & E2).
  inversion E2. eauto.
Qed.

Lemma nth_error_replace {A} (m : list A) r x k :
  r < length m ->
  nth_error (firstn r m ++ x :: skipn (S r) m) k
  = if k =? r then Some x else nth_error m k.
Proof.
  intros Hr.
  assert (Hf : length (firstn r m) = r) by (rewrite length_firstn; lia).
  destruct (k =? r) eqn:E.
  - apply Nat.eqb_eq in E. subst k.
    rewrite nth_error_app2 by lia. rewrite Hf, Nat.sub_diag. reflexivity.
  - apply Nat.eqb_neq in E.
    destruct (Nat.lt_ge_cases k r) as [Hlt | Hge].
    + rewrite nth_error_app1 by lia. rewrite nth_error_firstn.
      now rewrite (proj2 (Nat.ltb_lt _ _) Hlt).
    + rewrite nth_error_app2 by lia. rewrite Hf.
      replace (k - r) with (S (k - S r)) by lia.
      rewrite nth_error_cons_succ, nth_error_skipn. f_equal. lia.
Qed.

Lemma setitem_row_slice_shape m r a b v m' rows cols :
  setitem_row_slice m r a b v = inr m' ->
  has_shape m rows cols -> has_shape m' rows cols.
Proof.
  intros E (Hr & Hc).
  apply setitem_row_slice_inv in E. destruct E as (row & row' & En & Es & ->).
  assert (Hlt : r < length m) by (apply nth_error_Some; congruence).
  split.
  - rewrite length_app. cbn [length]. rewrite length_firstn, length_skipn. lia.
  - rewrite Forall_forall in Hc. apply Forall_forall. intros x Hin.
    apply in_app_or in Hin. destruct Hin as [Hin | [<- | Hin]].
    + apply Hc. rewrite <- (firstn_skipn r m). apply in_or_app. now left.
    + rewrite (setitem_slice_length _ _ _ _ Es). apply Hc.
      eapply nth_error_In; eauto.
    + apply Hc. rewrite <- (firstn_skipn (S r) m). apply in_or_app. now right.
Qed.

Lemma setitem_row_slice_other m r a b v m' k :
  setitem_row_slice m r a b v = inr m' ->
  k <> r -> nth_error m' k = nth_error m k.
Proof.
  intros E Hk.
  apply setitem_row_slice_inv in E. destruct E as (row & row' & En & Es & ->).
  rewrite nth_error_replace by (apply nth_error_Some; congruence).
  apply Nat.eqb_neq in Hk. now rewrite Hk.
Qed.

Lemma setitem_row_slice_outside m r a b v m' j :
  setitem_row_slice m r a b v = inr m' ->
  j < a \/ b <= j ->
  nth j (nth r m' []) 0%R = nth j (nth r m []) 0%R.
Proof.
  intros E Hj.
  apply setitem_row_slice_inv in E. destruct E as (row & row' & En & Es & ->).
  assert (Hlt : r < length m) by (apply nth_error_Some; congruence).
  assert (En' : nth_error (firstn r m ++ row' :: skipn (S r) m) r = Some row').
  { rewrite nth_error_replace by assumption. now rewrite Nat.eqb_refl. }
  rewrite (nth_error_nth _ _ [] En), (nth_error_nth _ _ [] En').
  eapply setitem_slice_outside; eauto.
Qed.

(* ================================================================== *)
(** ** The loop over the treatment conditions *)

Lemma nth_of_nth_error {A} (l l' : list A) k (d : A) :
  nth_error l k = nth_error l' k -> nth k l d = nth k l' d.
Proof.
  intros E. destruct (nth_error l k) as [x|] eqn:E1.
  - rewrite (nth_error_nth _ _ d E1). symmetry. now apply nth_error_nth.
  - symmetry in E. apply nth_error_None in E1, E.
    now rewrite !nth_overflow.
Qed.

Lemma sum_firstn_succ (l : list nat) s c :
  nth_error l s = Some c ->
  Np.sum (firstn (S s) l) = Np.sum (firstn s l) + c.
Proof.
  revert s. induction l as [|x l IH]; intros [|s] E; simpl in *; try discriminate.
  - inversion E. lia.
  - rewrite (IH s E). lia.
Qed.

Lemma sum_firstn_mono (l : list nat) a b :
  a <= b -> Np.sum (firstn a l) <= Np.sum (firstn b l).
Proof.
  revert a b. induction l as [|x l IH]; intros [|a] [|b] H; simpl; try lia.
  specialize (IH a b). lia.
Qed.

Lemma as_1d_inr (v : matrix) r : as_1d v = inr r -> v = [r].
Proof.
  destruct v as [|r' [|? ?]]; simpl; try discriminate.
  intros E. inversion E. reflexivity.
Qed.

Lemma setitem_slice_nonneg row a b v row' :
  setitem_slice row a b v = inr row' ->
  nonneg_row row -> nonneg_row v -> nonneg_row row'.
Proof.
  unfold setitem_slice, nonneg_row. intros E Hrow Hv.
  assert (H1 : Forall (fun x => (0 <= x)%R) (firstn a row)).
  { rewrite Forall_forall in *. intros x Hx. apply Hrow.
    rewrite <- (firstn_skipn a row). apply in_or_app. now left. }
  assert (H2 : forall n, Forall (fun x => (0 <= x)%R) (skipn n row)).
  { intros n. rewrite Forall_forall in *. intros x Hx. apply Hrow.
    rewrite <- (firstn_skipn n row). apply in_or_app. now right. }
  destruct (length v =? length (slice row a b)).
  - inversion E; subst. rewrite !Forall_app. auto.
  - destruct (length v =? 1) eqn:E1; [|discriminate]. inversion E; subst.
    rewrite !Forall_app. repeat split; auto.
    apply Forall_forall. intros x Hx. apply repeat_spec in Hx. subst x.
    apply Nat.eqb_eq in E1. destruct v as [|y [|? ?]]; try discriminate.
    simpl. now inversion Hv.
Qed.

Lemma setitem_row_slice_nonneg m r a b v m' :
  setitem_row_slice m r a b v = inr m' ->
  nonneg m -> nonneg_row v -> nonneg m'.
Proof.
  intros E Hm Hv.
  apply setitem_row_slice_inv in E. destruct E as (row & row' & En & Es & ->).
  unfold nonneg in *. rewrite Forall_forall in Hm.
  apply Forall_forall. intros x Hin.
  apply in_app_or in Hin. destruct Hin as [Hin | [<- | Hin]].
  - apply Hm. rewrite <- (firstn_skipn r m). apply in_or_app. now left.
  - eapply setitem_slice_nonneg; eauto. apply Hm. eapply nth_error_In; eauto.
  - apply Hm. rewrite <- (firstn_skipn (S r) m). apply in_or_app. now right.
Qed.

Section SpecificLoop.
Context {G : Type} {B : Backend G}.
Variables (alpha_W alpha_H : R) (specific_data_mat : matrix).
Variables (histone_n_replicates : list nat) (n_control_replicates : nat).

(** The column where the slice of treatment condition [i] starts. *)
Let start (i : nat) : nat :=
  n_control_replicates + Np.sum (firstn i histone_n_replicates).

(** Iteration [i] writes row [i+1] only, and only inside the slice of its
    condition; shape and non-negativity of the mixing matrix are kept. *)
Lemma specific_loop_inv (l : list string) :
  forall s mm (w : world G) mm' w' rows cols,
    specific_loop alpha_W alpha_H specific_data_mat histone_n_replicates
                  (combine (seq s (length l)) l) (start s) mm w = (inr mm', w') ->
    has_shape mm rows cols ->
    has_shape mm' rows cols
    /\ (nonneg mm -> nonneg mm')
    /\ (forall k, k <= s -> nth_error mm' k = nth_error mm k)
    /\ (forall i j, s <= i < s + length l ->
                    j < start i \/ start (S i) <= j ->
                    nth j (nth (i + 1) mm' []) 0%R = nth j (nth (i + 1) mm []) 0%R)
    /\ length (nmf_calls w') = length (nmf_calls w) + length l.
Proof.
  induction l as [|a l IH]; intros s mm w mm' w' rows cols Hrun Hshape.
  - simpl in Hrun. inversion Hrun; subst.
    split; [exact Hshape|]. split; [auto|]. split; [auto|]. split.
    + intros i j Hi. simpl in Hi. lia.
    + simpl. lia.
  - cbn [length seq combine specific_loop] in Hrun.
    apply bind_lift_inr in Hrun. destruct Hrun as (c & Hc & Hrun).
    apply getitem_inr in Hc.
    apply bind_inr in Hrun. destruct Hrun as ((W_spec, H_spec) & w1 & Hcall & Hrun).
    apply call_nnf_inr in Hcall.
    destruct Hcall as (Hcalls & _ & _ & _ & HnnH).
    apply bind_lift_inr in Hrun. destruct Hrun as (mm1 & Hset & Hrun).
    apply rbind_inr in Hset. destruct Hset as (v & Hv & Hset).
    apply as_1d_inr in Hv. subst H_spec.
    assert (Hstart : start s + c = start (S s)).
    { unfold start. rewrite (sum_firstn_succ _ _ Hc). lia. }
    rewrite Hstart in Hrun, Hset.
    assert (Hshape1 : has_shape mm1 rows cols) by (eapply setitem_row_slice_shape; eauto).
    destruct (IH _ _ _ _ _ _ _ Hrun Hshape1) as (I1 & I2 & I3 & I4 & I5).
    split; [exact I1|]. split; [|split; [|split]].
    + intros Hnn. apply I2.
      eapply setitem_row_slice_nonneg; eauto. now inversion HnnH.
    + intros k Hk. rewrite I3 by lia.
      eapply setitem_row_slice_other; eauto. lia.
    + intros i j Hi Hj. cbn [length] in Hi.
      destruct (Nat.eq_dec i s) as [-> | Hne].
      * assert (E1 : nth (s + 1) mm' [] = nth (s + 1) mm1 []).
        { apply nth_of_nth_error. apply I3. lia. }
        rewrite E1. eapply setitem_row_slice_outside; eauto.
      * rewrite I4 by lia. f_equal. apply nth_of_nth_error.
        eapply setitem_row_slice_other; eauto. lia.
    + rewrite I5, Hcalls, length_app. simpl. lia.
Qed.

End SpecificLoop.

(* ================================================================== *)
(** ** [extract_mixing_matrix], step by step *)

Lemma make_inr m idx cols df :
  Pd.make m idx cols = inr df ->
  df = mkDataFrame idx cols m
  /\ length m = length idx
  /\ Forall (fun row => length row = length cols) m.
Proof.
  unfold Pd.make.
  destruct (_ && _) eqn:E; [|discriminate].
  intros E'. inversion E'. apply andb_true_iff in E. destruct E as (E1 & E2).
  apply Nat.eqb_eq in E1. split; [reflexivity|]. split; [assumption|].
  rewrite forallb_forall in E2. apply Forall_forall.
  intros row Hin. apply Nat.eqb_eq. auto.
Qed.

Lemma map_result_inr {A C} (f : A -> result C) (d : C) l l' :
  map_result f l = inr l' ->
  l' = map (fun a => match f a with inr c => c | inl _ => d end) l.
Proof.
  revert l'. induction l as [|a l IH]; intros l' E; simpl in E.
  - inversion E. reflexivity.
  - apply rbind_inr in E. destruct E as (b & Eb & E).
    apply rbind_inr in E. destruct E as (bs & Ebs & E).
    inversion E. simpl. rewrite Eb. f_equal. auto.
Qed.

Lemma zeros_shape r c : has_shape (zeros r c) r c.
Proof. apply Reference.const_matrix_shape. Qed.

Lemma zeros_nth r c k j : nth j (nth k (zeros r c) []) 0%R = 0%R.
Proof.
  unfold zeros.
  destruct (Nat.lt_ge_cases k r) as [Hk | Hk].
  - rewrite nth_repeat_lt by assumption.
    destruct (Nat.lt_ge_cases j c) as [Hj | Hj].
    + now apply nth_repeat_lt.
    + apply nth_overflow. now rewrite repeat_length.
  - rewrite (nth_overflow (repeat _ r)) by now rewrite repeat_length.
    now destruct j.
Qed.

Section MixingMatrixSteps.
Context {G : Type} {B : Backend G}.

Lemma extract_mixing_matrix_inv data_df conds counts aW aH t n seed w mm w' :
  extract_mixing_matrix data_df conds counts aW aH t n seed w = (inr mm, w') ->
  mixing_run data_df conds counts aW aH t n seed w mm w'.
Proof.
  unfold extract_mixing_matrix. intros H.
  apply bind_lift_inr in H. destruct H as (train & Htrain & H).
  apply bind_lift_inr in H. destruct H as (c0 & Hc0 & H).
  destruct conds as [|c0' rest]; [discriminate|].
  simpl in Hc0. inversion Hc0; subst c0'.
  apply bind_inr in H. destruct H as ((Wu, Hu) & w1 & Hcall1 & H).
  apply bind_inr in H. destruct H as ((Wt, Ht) & w2 & Hcall2 & H).
  apply bind_lift_inr in H. destruct H as (S & HS & H).
  apply bind_lift_inr in H. destruct H as (n_replicates & Hn & H).
  apply bind_lift_inr in H. destruct H as (n0 & Hn0 & H).
  destruct n_replicates as [|n0' hist]; [discriminate|].
  simpl in Hn0. inversion Hn0; subst n0'.
  apply bind_lift_inr in H. destruct H as (mm0 & Hmm0 & H).
  apply bind_inr in H. destruct H as (mm1 & w3 & Hloop & H).
  apply lift_inr in H. destruct H as (Hmk & ->).
  econstructor; eauto.
Qed.

End MixingMatrixSteps.

Section MixingMatrixShape.
Context {G : Type} {B : Backend G}.

Lemma select_train_data_columns data_df conds t n seed train :
  select_train_data data_df conds t n seed = inr train ->
  columns train = columns data_df.
Proof.
  unfold select_train_data, select_dsel. intros H.
  apply rbind_inr in H. destruct H as (dsel & Hd & H).
  apply rbind_inr in Hd. destruct Hd as (c0 & _ & Hd).
  inversion Hd; subst dsel. clear Hd.
  unfold sample in H.
  destruct (_ <? _); [discriminate|]. inversion H. reflexivity.
Qed.

(** Shape and support of a returned mixing matrix. *)
Lemma mixing_matrix_shape_support data_df conds counts aW aH t n seed w mm w' :
  extract_mixing_matrix data_df conds counts aW aH t n seed w = (inr mm, w') ->
  length (values mm) = length conds
  /\ length (index mm) = length conds
  /\ columns mm = columns data_df
  /\ Forall (fun row => length row = length (columns data_df)) (values mm)
  /\ Np.sum (replicate_counts counts conds) = length (columns data_df)
  /\ (forall i j,
        i < length conds - 1 ->
        j < slice_start counts conds i \/ slice_stop counts conds i <= j ->
        nth j (nth (i + 1) (values mm) []) 0%R = 0%R).
Proof.
  intros Hrun. apply extract_mixing_matrix_inv in Hrun.
  destruct Hrun as [c0 rest train Wu Hu w1 Wt Ht w2 Sp n0 hist mm0 mm1
                      ctrl treat coefs total
                      Hconds Htrain Hcall1 Hcall2 HS Hcounts Hrow0 Hloop Hmk].
  pose proof (select_train_data_columns _ _ _ _ _ Htrain) as Hcols.
  pose proof (map_result_inr _ 0 _ Hcounts) as Hrc.
  fold (replicate_counts counts conds) in Hrc.
  apply make_inr in Hmk. destruct Hmk as (-> & Hlen & Hrows). simpl.
  assert (Hshape0 : has_shape mm0 (length conds) total).
  { eapply setitem_row_slice_shape; eauto. apply zeros_shape. }
  unfold enumerate in Hloop.
  replace n0 with (n0 + Np.sum (firstn 0 hist)) in Hloop by (simpl; lia).
  destruct (specific_loop_inv _ _ _ _ _ _ _ _ Hloop Hshape0)
    as ((Hr1 & Hc1) & _ & Hsame & Hsupp & _).
  assert (Hlc : length conds = S (length rest)) by (subst conds; reflexivity).
  split; [congruence|]. split; [simpl; congruence|].
  split; [congruence|]. split; [now rewrite <- Hcols|].
  split.
  - rewrite <- Hrc. fold total. rewrite <- Hcols.
    destruct mm1 as [|row mm1]; [simpl in Hr1; lia|].
    inversion Hrows; subst. inversion Hc1; subst. congruence.
  - intros i j Hi Hj. unfold slice_start, slice_stop in Hj.
    rewrite <- Hrc in Hj. cbn [firstn Np.sum fold_right] in Hj.
    rewrite Hsupp.
    + assert (E : nth (i + 1) mm0 [] = nth (i + 1) (zeros (length conds) total) []).
      { apply nth_of_nth_error. eapply setitem_row_slice_other; eauto. lia. }
      rewrite E. apply zeros_nth.
    + lia.
    + exact Hj.
Qed.

End MixingMatrixShape.

(* ================================================================== *)
(** ** Shapes *)

Lemma has_shape_dims m r c :
  has_shape m r c -> 1 <= r -> nrows m = r /\ ncols m = c.
Proof.
  intros (Hr & Hc) Hpos. split; [exact Hr|].
  destruct m as [|row m]; simpl in *; [lia|]. now inversion Hc.
Qed.

Lemma nonneg_nth (row : list R) j : nonneg_row row -> (0 <= nth j row 0)%R.
Proof.
  intros H. destruct (Nat.lt_ge_cases j (length row)) as [Hj | Hj].
  - unfold nonneg_row in H. rewrite Forall_forall in H. apply H. now apply nth_In.
  - rewrite nth_overflow by assumption. lra.
Qed.

Lemma positions_count cols name :
  length (positions cols name) = count_occ string_dec cols name.
Proof.
  unfold positions, enumerate. rewrite length_map. generalize 0.
  induction cols as [|c cols IH]; intros s; simpl; [reflexivity|].
  destruct (String.eqb_spec name c) as [E | E];
    destruct (string_dec c name) as [E' | E']; try congruence;
    simpl; now rewrite IH.
Qed.

Lemma positions_unique cols name :
  NoDup cols -> In name cols -> length (positions cols name) = 1.
Proof.
  intros Hnd Hin. rewrite positions_count.
  pose proof (proj1 (NoDup_count_occ string_dec cols) Hnd name).
  pose proof (proj1 (count_occ_In string_dec cols name) Hin). lia.
Qed.

Lemma selected_positions_length cols (f : string -> bool) :
  NoDup cols ->
  length (flat_map (positions cols) (filter f cols)) = length (filter f cols).
Proof.
  intros Hnd.
  rewrite flat_map_constant_length with (c := 1); [lia|].
  intros x Hx. apply filter_In in Hx. apply positions_unique; tauto.
Qed.

Lemma loc_cols_shape df names :
  has_shape (values (loc_cols df names)) (length (values df))
            (length (flat_map (positions (columns df)) names)).
Proof.
  unfold loc_cols, has_shape. simpl. split.
  - apply length_map.
  - apply Forall_forall. intros row Hin.
    apply in_map_iff in Hin. destruct Hin as (r & <- & _). apply length_map.
Qed.

Lemma loc_cols_nonneg df names :
  nonneg (values df) -> nonneg (values (loc_cols df names)).
Proof.
  unfold loc_cols, nonneg. simpl. intros H.
  rewrite Forall_forall in H. apply Forall_forall. intros row Hin.
  apply in_map_iff in Hin. destruct Hin as (r & <- & Hr).
  apply Forall_forall. intros x Hx.
  apply in_map_iff in Hx. destruct Hx as (p & <- & _).
  apply nonneg_nth. auto.
Qed.

Lemma transpose_shape m r c :
  has_shape m r c -> 1 <= r -> has_shape (transpose m) c r.
Proof.
  intros Hs Hr. destruct (has_shape_dims Hs Hr) as (_ & Hc).
  unfold transpose. rewrite Hc. split.
  - now rewrite length_map, length_seq.
  - apply Forall_forall. intros row Hin.
    apply in_map_iff in Hin. destruct Hin as (j & <- & _).
    rewrite length_map. apply Hs.
Qed.

Lemma transpose_nonneg m : nonneg m -> nonneg (transpose m).
Proof.
  unfold transpose, nonneg. intros H. rewrite Forall_forall in H.
  apply Forall_forall. intros row Hin.
  apply in_map_iff in Hin. destruct Hin as (j & <- & _).
  apply Forall_forall. intros x Hx.
  apply in_map_iff in Hx. destruct Hx as (r & <- & Hr).
  apply nonneg_nth. auto.
Qed.

Lemma concat_nonneg (m : matrix) : nonneg m -> nonneg_row (concat m).
Proof. unfold nonneg, nonneg_row. intros H. now apply Forall_concat. Qed.

Lemma reshape_1_positive (m : matrix) : has_positive m -> has_positive (reshape_1 m).
Proof.
  unfold has_positive, reshape_1. intros H. apply Exists_cons_hd.
  apply Exists_exists in H. destruct H as (row & Hrow & Hx).
  apply Exists_exists in Hx. destruct Hx as (x & Hx & Hpos).
  apply Exists_exists. exists x. split; [|exact Hpos].
  apply in_concat. eauto.
Qed.

Lemma col_slice_shape m r c a b :
  has_shape m r c -> a <= b -> b <= c -> has_shape (col_slice m a b) r (b - a).
Proof.
  intros (Hr & Hc) Hab Hbc. unfold col_slice. split.
  - now rewrite length_map.
  - rewrite Forall_forall in Hc. apply Forall_forall. intros row Hin.
    apply in_map_iff in Hin. destruct Hin as (x & <- & Hx).
    rewrite slice_length, (Hc x Hx). lia.
Qed.

Lemma slice_nonneg (row : list R) a b : nonneg_row row -> nonneg_row (slice row a b).
Proof.
  unfold nonneg_row, slice. intros H. rewrite Forall_forall in H.
  apply Forall_forall. intros x Hx. apply H.
  rewrite <- (firstn_skipn b row). apply in_or_app. left.
  rewrite <- (firstn_skipn a (firstn b row)). apply in_or_app. now right.
Qed.

Lemma col_slice_nonneg m a b : nonneg m -> nonneg (col_slice m a b).
Proof.
  unfold nonneg, col_slice. intros H. rewrite Forall_forall in H.
  apply Forall_forall. intros row Hin.
  apply in_map_iff in Hin. destruct Hin as (x & <- & Hx).
  apply slice_nonneg. auto.
Qed.

Lemma maximum_0_shape m r c : has_shape m r c -> has_shape (maximum_0 m) r c.
Proof.
  intros (Hr & Hc). unfold maximum_0. split.
  - now rewrite length_map.
  - rewrite Forall_forall in Hc. apply Forall_forall. intros row Hin.
    apply in_map_iff in Hin. destruct Hin as (x & <- & Hx).
    rewrite length_map. auto.
Qed.

(** The training data minus the unspecific contribution is never negative. *)
Lemma maximum_0_nonneg m : nonneg (maximum_0 m).
Proof.
  unfold maximum_0, nonneg. apply Forall_forall. intros row Hin.
  apply in_map_iff in Hin. destruct Hin as (x & <- & _).
  apply Forall_forall. intros y Hy.
  apply in_map_iff in Hy. destruct Hy as (z & <- & _). apply Rmax_r.
Qed.

(* ================================================================== *)
(** ** The residual of the training data *)

Lemma bget_nth {A} (d : A) (l : list A) i :
  i < length l -> bget d l i = nth i l d.
Proof.
  intros Hi. unfold bget. destruct (length l =? 1) eqn:E; [|reflexivity].
  apply Nat.eqb_eq in E. now replace i with 0 by lia.
Qed.

Lemma bdim_same n : bdim n n = Some n.
Proof. unfold bdim. now rewrite Nat.eqb_refl. Qed.

Lemma nth_map_seq {A} (f : nat -> A) (d : A) n i :
  i < n -> nth i (map f (seq 0 n)) d = f i.
Proof.
  intros Hi. rewrite (nth_indep _ d (f 0)) by now rewrite length_map, length_seq.
  rewrite map_nth. f_equal. now rewrite seq_nth.
Qed.

(** An elementwise operation on two arrays of one shape. *)
Lemma binop_same_shape f a b n m :
  has_shape a n m -> has_shape b n m -> 1 <= n ->
  exists r,
    binop f a b = inr r
    /\ has_shape r n m
    /\ (forall i j, i < n -> j < m ->
                    nth j (nth i r []) 0%R
                    = f (nth j (nth i a []) 0%R) (nth j (nth i b []) 0%R)).
Proof.
  intros Ha Hb Hn.
  destruct (has_shape_dims Ha Hn) as (Har & Hac).
  destruct (has_shape_dims Hb Hn) as (Hbr & Hbc).
  unfold binop. rewrite Har, Hbr, Hac, Hbc, !bdim_same.
  eexists. split; [reflexivity|]. split; [split|].
  - now rewrite length_map, length_seq.
  - apply Forall_forall. intros row Hin.
    apply in_map_iff in Hin. destruct Hin as (i & <- & _).
    now rewrite length_map, length_seq.
  - intros i j Hi Hj.
    rewrite (nth_map_seq _ [] Hi), (nth_map_seq _ 0%R Hj).
    destruct Ha as (Hal & Hacols), Hb as (Hbl & Hbcols).
    rewrite Forall_forall in Hacols, Hbcols.
    rewrite !(bget_nth []) by lia.
    rewrite !(bget_nth 0%R); [reflexivity | |].
    + rewrite Hbcols; [lia|]. apply nth_In. lia.
    + rewrite Hacols; [lia|]. apply nth_In. lia.
Qed.

Lemma dot_row_single w h :
  dot_row [w] [h] (length h) = map (fun x => (w * x + 0)%R) h.
Proof.
  simpl.
  assert (H : forall (l : list R) k, length l <= k ->
              map (fun p => (w * fst p + snd p)%R) (combine l (repeat 0%R k))
              = map (fun x => (w * x + 0)%R) l).
  { induction l as [|x l IH]; intros [|k] Hk; simpl in *; try reflexivity; try lia.
    f_equal. apply IH. lia. }
  now apply H.
Qed.

(** The product of a column vector and a row vector (the outer product). *)
Lemma dot_outer (W : matrix) (h : list R) n :
  has_shape W n 1 ->
  exists outer,
    dot W [h] = inr outer
    /\ has_shape outer n (length h)
    /\ (forall i j, i < n -> j < length h ->
                    nth j (nth i outer []) 0%R
                    = (nth 0 (nth i W []) 0 * nth j h 0)%R).
Proof.
  intros (Hn & Hc). unfold dot.
  assert (Hall : forallb (fun row => length row =? length [h]) W = true).
  { apply forallb_forall. intros row Hin. rewrite Forall_forall in Hc.
    apply Nat.eqb_eq. simpl. auto. }
  rewrite Hall. eexists. split; [reflexivity|].
  assert (Hrow : forall row, In row W ->
            dot_row row [h] (ncols [h]) = map (fun x => (nth 0 row 0 * x + 0)%R) h).
  { intros row Hin. rewrite Forall_forall in Hc. specialize (Hc row Hin).
    destruct row as [|w [|? ?]]; try discriminate.
    simpl ncols. now rewrite dot_row_single. }
  split; [split|].
  - now rewrite length_map.
  - apply Forall_forall. intros row Hin.
    apply in_map_iff in Hin. destruct Hin as (r & <- & Hr).
    rewrite (Hrow r Hr). apply length_map.
  - intros i j Hi Hj.
    rewrite (nth_indep _ [] (dot_row [] [h] (ncols [h]))) by (rewrite length_map; lia).
    rewrite (map_nth (fun row => dot_row row [h] (ncols [h]))).
    rewrite Hrow by (apply nth_In; lia).
    rewrite (nth_indep _ 0%R ((fun x => (nth 0 (nth i W []) 0 * x + 0)%R) 0%R))
      by (rewrite length_map; lia).
    rewrite (map_nth (fun x => (nth 0 (nth i W []) 0 * x + 0)%R)). lra.
Qed.

(** Lines 51-52 on matching shapes: entry [(i, j)] of the residual is the
    training value minus the product of the background value of bin [i] and
    the background coefficient of sample [j], capped at zero from below. *)
Lemma specific_data_spec (train W : matrix) (h : list R) n :
  has_shape train n (length h) -> has_shape W n 1 -> 1 <= n ->
  exists sp,
    specific_data train W h = inr sp
    /\ has_shape sp n (length h)
    /\ nonneg sp
    /\ (forall i j, i < n -> j < length h ->
          nth j (nth i sp []) 0%R
          = (Rmax (nth j (nth i train []) 0 - nth 0 (nth i W []) 0 * nth j h 0) 0)%R).
Proof.
  intros Ht HW Hn.
  destruct (dot_outer h HW) as (outer & Hdot & Hshape & Hentry).
  destruct (binop_same_shape Rminus Ht Hshape Hn) as (diff & Hsub & Hds & Hde).
  exists (maximum_0 diff). unfold specific_data, sub. rewrite Hdot. simpl.
  rewrite Hsub. simpl. split; [reflexivity|].
  split; [now apply maximum_0_shape|]. split; [apply maximum_0_nonneg|].
  intros i j Hi Hj. unfold maximum_0.
  destruct Hds as (Hdl & Hdc). rewrite Forall_forall in Hdc.
  rewrite (nth_indep _ [] (map (fun x => Rmax x 0) [])) by (rewrite length_map; lia).
  rewrite (map_nth (map (fun x => Rmax x 0))).
  rewrite (nth_indep _ 0%R ((fun x => Rmax x 0) 0%R)).
  - rewrite (map_nth (fun x => Rmax x 0)). rewrite Hde, Hentry by assumption.
    reflexivity.
  - rewrite length_map, Hdc; [lia|]. apply nth_In. lia.
Qed.

Lemma specific_data_nonneg train W h sp :
  specific_data train W h = inr sp -> nonneg sp.
Proof.
  unfold specific_data. intros H.
  apply rbind_inr in H. destruct H as (outer & _ & H).
  apply rbind_inr in H. destruct H as (diff & _ & H).
  inversion H. apply maximum_0_nonneg.
Qed.

(* ================================================================== *)
(** ** Every iteration of the loop succeeds *)

Section SpecificLoopTotal.
Context {G : Type} {B : Backend G}.
Variables (alpha_W alpha_H : R) (specific_data_mat : matrix).
Variables (histone_n_replicates : list nat) (n_control_replicates : nat).
Variables (n total rows : nat).
Hypothesis alpha_W_nonneg : (0 <= alpha_W)%R.
Hypothesis alpha_H_nonneg : (0 <= alpha_H)%R.
Hypothesis specific_shape : has_shape specific_data_mat n total.
Hypothesis specific_nonneg : nonneg specific_data_mat.
Hypothesis n_pos : 1 <= n.
Hypothesis counts_pos : Forall (fun k => 1 <= k) histone_n_replicates.

Let start (i : nat) : nat :=
  n_control_replicates + Np.sum (firstn i histone_n_replicates).

(** With slices that lie inside the matrix, every iteration succeeds. *)
Lemma specific_loop_total (l : list string) :
  forall s mm (w : world G),
    has_shape mm rows total ->
    s + length l <= length histone_n_replicates ->
    s + length l < rows ->
    start (s + length l) <= total ->
    exists mm' w',
      specific_loop alpha_W alpha_H specific_data_mat histone_n_replicates
                    (combine (seq s (length l)) l) (start s) mm w = (inr mm', w').
Proof.
  induction l as [|a l IH]; intros s mm w Hshape Hlen Hrows Htotal.
  - simpl. unfold ret. eauto.
  - cbn [length] in *.
    cbn [seq combine specific_loop].
    destruct (nth_error histone_n_replicates s) as [c|] eqn:Hc;
      [|apply nth_error_None in Hc; lia].
    assert (Hcpos : 1 <= c).
    { rewrite Forall_forall in counts_pos. apply counts_pos.
      eapply nth_error_In; eauto. }
    assert (Hstart : start s + c = start (S s)).
    { unfold start. rewrite (sum_firstn_succ _ _ Hc). lia. }
    assert (Hmono : start (S s) <= start (s + S (length l))).
    { unfold start. apply Nat.add_le_mono_l, sum_firstn_mono. lia. }
    assert (Hslice : has_shape (col_slice specific_data_mat (start s) (start s + c)) n c).
    { replace c with (start s + c - start s) at 2 by lia.
      apply col_slice_shape with (c := total); trivial; lia. }
    destruct (has_shape_dims Hslice n_pos) as (Hsr & Hsc).
    set (call := {| nnf_X := col_slice specific_data_mat (start s) (start s + c);
                    nnf_W := None; nnf_H := None;
                    nnf_n_components := 1; nnf_init := None;
                    nnf_update_H := true; nnf_solver := mu;
                    nnf_beta_loss := beta_number 1;
                    nnf_alpha_W := alpha_W; nnf_alpha_H := Some alpha_H;
                    nnf_max_iter := 200; nnf_random_state := None |}).
    assert (Hvalid : nnf_valid call).
    { unfold nnf_valid, nnf_array. subst call. cbn [nnf_X nnf_W nnf_H
        nnf_n_components nnf_init nnf_update_H nnf_alpha_W nnf_alpha_H].
      rewrite Hsr, Hsc.
      split; [lia|]. split; [lia|].
      split; [split; [exact Hslice | now apply col_slice_nonneg]|].
      split; [lia|]. split; [assumption|].
      split; [intros x Hx; inversion Hx; now subst | discriminate]. }
    destruct (call_nnf_total w Hvalid) as (W_spec & H_spec & w1 & Hcall).
    destruct (call_nnf_inr _ _ Hcall) as (_ & _ & (HHr & HHc) & _).
    subst call. cbn [nnf_X nnf_n_components] in HHr, HHc. rewrite Hsc in HHc.
    destruct H_spec as [|v [|? ?]]; try discriminate.
    inversion HHc; subst.
    destruct Hshape as (Hmr & Hmc).
    destruct (nth_error mm (s + 1)) as [row|] eqn:Hrow;
      [|apply nth_error_None in Hrow; lia].
    assert (Hrl : length row = total).
    { rewrite Forall_forall in Hmc. apply Hmc. eapply nth_error_In; eauto. }
    assert (Hset : exists mm1,
               setitem_row_slice mm (s + 1) (start s) (start s + length v) v = inr mm1).
    { unfold setitem_row_slice. rewrite Hrow. unfold setitem_slice.
      rewrite slice_length, Hrl.
      replace (Nat.min (start s + length v) total - start s) with (length v) by lia.
      rewrite Nat.eqb_refl. simpl. eauto. }
    destruct Hset as (mm1 & Hset).
    assert (Hshape1 : has_shape mm1 rows total).
    { eapply setitem_row_slice_shape; eauto. now split. }
    rewrite Hstart in Hset.
    destruct (IH (S s) mm1 w1 Hshape1) as (mm' & w' & Hloop); try lia.
    { replace (S s + length l) with (s + S (length l)) by lia. exact Htotal. }
    exists mm', w'.
    unfold bind at 1. unfold lift at 1. unfold getitem. rewrite Hc.
    unfold ok. unfold bind at 1. rewrite Hcall.
    unfold bind at 1. unfold lift at 1. cbn [as_1d]. unfold ok, rbind.
    rewrite Hstart, Hset. exact Hloop.
Qed.

End SpecificLoopTotal.

Lemma concat_shape_length (m : matrix) r c :
  has_shape m r c -> length (concat m) = r * c.
Proof.
  intros (Hr & Hc). subst r.
  induction m as [|row m IH]; simpl; [reflexivity|].
  inversion Hc; subst. rewrite length_app, IH by assumption. reflexivity.
Qed.

Lemma map_result_total {A C} (f : A -> result C) (P : C -> Prop) l :
  Forall (fun a => exists c, f a = inr c /\ P c) l ->
  exists l', map_result f l = inr l' /\ Forall P l'.
Proof.
  induction 1 as [|a l (c & Hc & HP) _ (l' & IH & HPl)]; simpl.
  - exists []. split; [reflexivity | constructor].
  - exists (c :: l'). rewrite Hc, IH. simpl. split; [reflexivity|].
    now constructor.
Qed.

Lemma str_in_spec x l : str_in x l = true <-> In x l.
Proof.
  unfold str_in. rewrite existsb_exists. split.
  - intros (y & Hy & E). apply String.eqb_eq in E. now subst.
  - intros H. exists x. split; [assumption | apply String.eqb_refl].
Qed.

(** The treatment columns are the columns that do not start with the
    control label. *)
Lemma treatment_cols_filter cols c0 :
  filter (fun c => negb (str_in c (filter (fun c => startswith c c0) cols))) cols
  = filter (fun c => negb (startswith c c0)) cols.
Proof.
  apply filter_ext_in. intros c Hc. f_equal.
  destruct (startswith c c0) eqn:E.
  - apply str_in_spec. apply filter_In. auto.
  - destruct (str_in c _) eqn:E'; [|reflexivity].
    apply str_in_spec, filter_In in E'. destruct E' as (_ & E'). congruence.
Qed.

Lemma filter_nonempty {A} (f : A -> bool) l x :
  In x l -> f x = true -> 1 <= length (filter f l).
Proof.
  intros Hin Hf.
  assert (H : In x (filter f l)) by (apply filter_In; auto).
  destruct (filter f l); [contradiction | simpl; lia].
Qed.

Lemma sum_firstn_all (l : list nat) : Np.sum (firstn (length l) l) = Np.sum l.
Proof. now rewrite firstn_all. Qed.

(* ================================================================== *)
(** ** The background factorization on usable data *)

Section Background.
Context {G : Type} {B : Backend G}.

Lemma background_total data_df conds aW aH t n seed (w : world G) :
  usable_data data_df conds aW aH t n ->
  background data_df conds aW aH t n seed w.
Proof.
  intros [Hwf Hnn Hnd (c0 & rest & -> & (cc & Hcc & Hccp) & (ct & Hct & Hctp) & Hn1 & Hn2)
            Ht0 (HaW & HaH)].
  destruct (select_train_data_spec c0 rest t seed Hwf Hn2)
    as (train & Htrain & Htl & _ & Htc & Htrows).
  set (cols := columns data_df) in *.
  set (m := length cols).
  assert (Hrows_data : forall row, In row (values train) -> In row (values data_df)).
  { intros row Hin. apply Htrows in Hin. unfold qualifying_bins in Hin.
    apply filter_In in Hin. tauto. }
  assert (Htshape : has_shape (values train) n m).
  { split; [exact Htl|]. apply Forall_forall. intros row Hin.
    destruct Hwf as (_ & Hw). rewrite Forall_forall in Hw. auto. }
  assert (Htnn : nonneg (values train)).
  { unfold nonneg in *. rewrite Forall_forall in Hnn. apply Forall_forall. auto. }
  set (control_cols := filter (fun c => startswith c c0) cols).
  set (treatment_cols := filter (fun c => negb (str_in c control_cols)) cols).
  assert (Htreat : treatment_cols = filter (fun c => negb (startswith c c0)) cols)
    by apply treatment_cols_filter.
  set (kc := length (flat_map (positions (columns train)) control_cols)).
  set (kt := length (flat_map (positions (columns train)) treatment_cols)).
  assert (Hkc : kc = length control_cols).
  { unfold kc. rewrite Htc. now apply selected_positions_length. }
  assert (Hkt : kt = length treatment_cols).
  { unfold kt. rewrite Htc, Htreat. now apply selected_positions_length. }
  assert (Hkc1 : 1 <= kc).
  { rewrite Hkc. unfold control_cols.
    apply filter_nonempty with (x := cc); trivial. }
  assert (Hkt1 : 1 <= kt).
  { rewrite Hkt, Htreat. apply filter_nonempty with (x := ct); trivial.
    now rewrite Hctp. }
  assert (Hsum : kc + kt = m).
  { rewrite Hkc, Hkt, Htreat. apply filter_length. }
  (* first call *)
  pose proof (loc_cols_shape train control_cols) as HX1. rewrite Htl in HX1.
  fold kc in HX1.
  destruct (has_shape_dims HX1 Hn1) as (HX1r & HX1c).
  assert (Hv1 : nnf_valid
            {| nnf_X := values (loc_cols train control_cols);
               nnf_W := None; nnf_H := None;
               nnf_n_components := 1; nnf_init := Some init_random;
               nnf_update_H := true; nnf_solver := mu;
               nnf_beta_loss := beta_number 1;
               nnf_alpha_W := aW; nnf_alpha_H := Some aH;
               nnf_max_iter := 200; nnf_random_state := Some 0%Z |}).
  { unfold nnf_valid, nnf_array. cbn [nnf_X nnf_W nnf_H nnf_n_components
      nnf_init nnf_update_H nnf_alpha_W nnf_alpha_H]. rewrite HX1r, HX1c.
    split; [lia|]. split; [lia|].
    split; [split; [exact HX1 | now apply loc_cols_nonneg]|].
    split; [lia|]. split; [assumption|].
    split; [intros x Hx; inversion Hx; now subst | discriminate]. }
  destruct (call_nnf_total w Hv1) as (Wu & Hu & w1 & Hcall1).
  destruct (call_nnf_inr _ _ Hcall1) as (Hcalls1 & HWu & HHu & HWunn & HHunn).
  assert (HX1pos : has_positive (values (loc_cols train control_cols))).
  { destruct (values train) as [|row trows] eqn:Hvt; [simpl in Htl; lia|].
    assert (Hrow : In row (row :: trows)) by now left.
    pose proof (Htrows row Hrow) as Hq. unfold qualifying_bins in Hq.
    apply filter_In in Hq. destruct Hq as (Hin & Hq).
    destruct Hwf as (_ & Hw). rewrite Forall_forall in Hw.
    rewrite <- (@control_mask_qualifies (columns data_df) c0 t row (Hw row Hin)) in Hq.
    apply existsb_exists in Hq. destruct Hq as (x & Hx & Hgt).
    apply Rgtb_spec in Hgt.
    unfold has_positive, loc_cols. cbn [values]. rewrite Hvt. cbn [map].
    apply Exists_cons_hd. apply Exists_exists. exists x.
    split; [|lra]. unfold control_cols, cols in *. now rewrite Htc. }
  destruct (call_nnf_positive _ _ Hcall1 HX1pos) as (HWupos & _).
  cbn [nnf_X nnf_n_components] in HWu, HHu. rewrite HX1r in HWu. rewrite HX1c in HHu.
  (* second call *)
  pose proof (loc_cols_shape train treatment_cols) as HX2. rewrite Htl in HX2.
  fold kt in HX2.
  pose proof (transpose_shape HX2 Hn1) as HX2T.
  destruct (has_shape_dims HX2T Hkt1) as (HX2r & HX2c).
  assert (HWul : length (concat Wu) = n).
  { rewrite (concat_shape_length HWu). lia. }
  assert (Hv2 : nnf_valid
            {| nnf_X := transpose (values (loc_cols train treatment_cols));
               nnf_W := None; nnf_H := Some (reshape_1 Wu);
               nnf_n_components := 1; nnf_init := Some init_custom;
               nnf_update_H := false; nnf_solver := mu;
               nnf_beta_loss := beta_number 1;
               nnf_alpha_W := aW; nnf_alpha_H := None;
               nnf_max_iter := 200; nnf_random_state := None |}).
  { unfold nnf_valid, nnf_array. cbn [nnf_X nnf_W nnf_H nnf_n_components
      nnf_init nnf_update_H nnf_alpha_W nnf_alpha_H]. rewrite HX2r, HX2c.
    split; [lia|]. split; [lia|].
    split; [split; [exact HX2T | now apply transpose_nonneg, loc_cols_nonneg]|].
    split; [lia|]. split; [assumption|].
    split; [discriminate|]. intros _.
    split; [|split; [discriminate | discriminate]].
    exists (reshape_1 Wu). split; [reflexivity|]. unfold reshape_1. split.
    - split.
      + split; [reflexivity|]. constructor; [assumption | constructor].
      + constructor; [now apply concat_nonneg | constructor].
    - now apply reshape_1_positive. }
  destruct (call_nnf_total w1 Hv2) as (Wt & Ht & w2 & Hcall2).
  destruct (call_nnf_inr _ _ Hcall2) as (Hcalls2 & HWt & _ & HWtnn & _).
  cbn [nnf_X nnf_n_components] in HWt. rewrite HX2r in HWt.
  (* coefficients and residual *)
  set (coefs := flatten Hu ++ flatten (transpose Wt)).
  assert (Hcl : length coefs = m).
  { unfold coefs, flatten. rewrite length_app.
    rewrite (concat_shape_length HHu).
    rewrite (concat_shape_length (transpose_shape HWt Hkt1)). lia. }
  assert (Hcnn : nonneg_row coefs).
  { unfold coefs, flatten, nonneg_row. apply Forall_app. split.
    - now apply concat_nonneg.
    - now apply concat_nonneg, transpose_nonneg. }
  rewrite <- Hcl in Htshape.
  destruct (@specific_data_spec (values train) Wu coefs n Htshape HWu Hn1)
    as (sp & Hsp & Hsps & Hspnn & _).
  rewrite Hcl in Hsps.
  eapply background_intro with (train_data := train); eauto.
  - rewrite Hcalls2, Hcalls1, !length_app. simpl. lia.
  - change (2 <= m). lia.
Qed.

End Background.

(* ================================================================== *)
(** ** Running the monads forward *)

Lemma bind_run {G A C} (m : M G A) (k : A -> M G C) w a w1 :
  m w = (inr a, w1) -> bind m k w = k a w1.
Proof. intros E. unfold bind. now rewrite E. Qed.

Lemma bind_lift_run {G A C} (r : result A) (k : A -> M G C) (w : world G) a :
  r = inr a -> bind (lift r) k w = k a w.
Proof. intros ->. reflexivity. Qed.

Lemma bind_lift_fail {G A C} (r : result A) (k : A -> M G C) (w : world G) e :
  r = inl e -> bind (lift r) k w = (inl e, w).
Proof. intros ->. reflexivity. Qed.

Lemma make_total m idx cols :
  length m = length idx ->
  Forall (fun row => length row = length cols) m ->
  Pd.make m idx cols = inr (mkDataFrame idx cols m).
Proof.
  intros Hl Hc. unfold Pd.make.
  rewrite (proj2 (Nat.eqb_eq _ _) Hl).
  assert (E : forallb (fun row => length row =? length cols) m = true).
  { apply forallb_forall. intros row Hin. rewrite Forall_forall in Hc.
    apply Nat.eqb_eq. auto. }
  now rewrite E.
Qed.

Lemma setitem_row0_full r c v :
  1 <= r -> length v = c ->
  exists mm0, setitem_row_slice (zeros r c) 0 0 c v = inr mm0.
Proof.
  intros Hr Hv. destruct r as [|r]; [lia|].
  unfold setitem_row_slice, zeros. cbn [repeat nth_error].
  unfold setitem_slice. rewrite slice_length, repeat_length, Nat.min_id, Nat.sub_0_r.
  rewrite (proj2 (Nat.eqb_eq _ _) Hv). simpl. eauto.
Qed.

Lemma setitem_row0_mismatch r c v :
  1 <= r -> length v <> c -> 2 <= length v ->
  setitem_row_slice (zeros r c) 0 0 c v = inl ValueError.
Proof.
  intros Hr Hv Hv2. destruct r as [|r]; [lia|].
  unfold setitem_row_slice, zeros. cbn [repeat nth_error].
  unfold setitem_slice. rewrite slice_length, repeat_length, Nat.min_id, Nat.sub_0_r.
  rewrite (proj2 (Nat.eqb_neq _ _) Hv).
  assert (E : (length v =? 1) = false) by (apply Nat.eqb_neq; lia).
  now rewrite E.
Qed.

Section MixingMatrixTotal.
Context {G : Type} {B : Backend G}.

(** On a valid input [extract_mixing_matrix] returns a mixing matrix. *)
Lemma extract_mixing_matrix_total data_df conds counts aW aH t n seed (w : world G) :
  valid_input data_df conds counts aW aH t n ->
  exists mm w',
    extract_mixing_matrix data_df conds counts aW aH t n seed w = (inr mm, w').
Proof.
  intros [Hdata Hcounts Htotal].
  pose proof (ud_alpha Hdata) as (HaW & HaH).
  destruct (background_total seed w Hdata)
    as [c0 rest train Wu Hu w1 Wt Ht w2 sp ctrl treat coefs
          Hconds Htrain Htc Hcall1 Hcall2 Hcalls Hcl Hm2 Hcnn Hsp Hsps Hspnn].
  destruct (map_result_total _ (fun k => 1 <= k) Hcounts) as (nrep & Hnrep & Hpos).
  pose proof (map_result_inr _ 0 _ Hnrep) as Hrc.
  fold (replicate_counts counts conds) in Hrc. rewrite <- Hrc in Htotal.
  assert (Hlen : length nrep = length conds).
  { rewrite Hrc. unfold replicate_counts. apply length_map. }
  destruct nrep as [|n0 hist]; [subst conds; discriminate|].
  assert (Hlh : length hist = length rest).
  { subst conds. simpl in Hlen. lia. }
  assert (Hlc : length conds = S (length rest)) by (subst conds; reflexivity).
  destruct (@setitem_row0_full (length conds) (Np.sum (n0 :: hist)) coefs)
    as (mm0 & Hmm0); [lia | congruence |].
  assert (Hshape0 : has_shape mm0 (length conds) (Np.sum (n0 :: hist))).
  { eapply setitem_row_slice_shape; eauto. apply zeros_shape. }
  rewrite <- Htotal in Hsps.
  destruct (@specific_loop_total G B aW aH sp hist n0 n (Np.sum (n0 :: hist))
              (length conds) HaW HaH Hsps Hspnn
              ltac:(destruct (ud_control Hdata) as (? & ? & ? & ? & ? & ?); lia)
              ltac:(now inversion Hpos) rest 0 mm0 w2 Hshape0)
    as (mm1 & w' & Hloop); try (simpl; lia).
  { rewrite Nat.add_0_l, <- Hlh, sum_firstn_all. simpl. lia. }
  assert (Hshape1 : has_shape mm1 (length conds) (Np.sum (n0 :: hist))).
  { eapply specific_loop_inv; eauto. }
  exists (mkDataFrame ("unspecific"%string :: rest) (columns train) mm1), w'.
  unfold extract_mixing_matrix.
  rewrite (bind_lift_run _ _ Htrain). subst conds.
  rewrite (bind_lift_run _ _ (a := c0) eq_refl).
  rewrite (@bind_run _ _ _ _ _ _ _ _ Hcall1). cbv beta iota.
  rewrite (@bind_run _ _ _ _ _ _ _ _ Hcall2). cbv beta iota.
  rewrite (bind_lift_run _ _ Hsp).
  rewrite (bind_lift_run _ _ Hnrep).
  rewrite (bind_lift_run _ _ (a := n0) eq_refl).
  rewrite (bind_lift_run _ _ Hmm0).
  simpl in Hloop.
  replace (n0 + 0) with n0 in Hloop by lia.
  unfold enumerate. cbn [skipn].
  rewrite (@bind_run _ _ _ _ _ _ _ _ Hloop).
  unfold lift. f_equal. apply make_total.
  - destruct Hshape1 as (-> & _). reflexivity.
  - destruct Hshape1 as (_ & Hc). rewrite Htc, <- Htotal. exact Hc.
Qed.

End MixingMatrixTotal.

(* ================================================================== *)
(** ** Chunks *)

Lemma chunks_from_fuel cs (m : matrix) :
  1 <= cs ->
  forall f f', length m <= f -> length m <= f' ->
               chunks_from f cs m = chunks_from f' cs m.
Proof.
  intros Hcs f. revert m.
  induction f as [|f IH]; intros m f' Hf Hf'.
  - destruct m; [|simpl in Hf; lia]. now destruct f'.
  - destruct m as [|row m]; [now destruct f'|].
    destruct f' as [|f']; [simpl in Hf'; lia|].
    cbn [chunks_from]. f_equal.
    apply IH; rewrite length_skipn; cbn [length] in *; lia.
Qed.

Lemma chunks_from_concat cs (m : matrix) f :
  1 <= cs -> length m <= f -> concat (chunks_from f cs m) = m.
Proof.
  intros Hcs. revert m. induction f as [|f IH]; intros m Hf.
  - destruct m; [reflexivity | simpl in Hf; lia].
  - destruct m as [|row m]; [reflexivity|].
    cbn [chunks_from concat]. rewrite IH.
    + apply firstn_skipn.
    + rewrite length_skipn. cbn [length] in *. lia.
Qed.

Lemma chunks_from_bounds cs (m : matrix) f :
  1 <= cs ->
  Forall (fun ck => 1 <= length ck <= cs /\ incl ck m) (chunks_from f cs m).
Proof.
  intros Hcs. revert m. induction f as [|f IH]; intros m; [constructor|].
  destruct m as [|row m]; [constructor|].
  cbn [chunks_from]. constructor.
  - rewrite length_firstn. cbn [length]. split; [lia|].
    intros x Hx. rewrite <- (firstn_skipn cs (row :: m)). apply in_or_app. now left.
  - eapply Forall_impl; [|apply IH].
    intros ck (Hb & Hincl). split; [exact Hb|].
    intros x Hx. apply Hincl in Hx.
    rewrite <- (firstn_skipn cs (row :: m)). apply in_or_app. now right.
Qed.

(** With a row count that is a multiple of the chunk size there are exactly
    [rows / cs] chunks, each of [cs] rows. *)
Lemma chunks_from_multiple cs q :
  1 <= cs ->
  forall (m : matrix) f,
    length m = q * cs -> length m <= f ->
    length (chunks_from f cs m) = q
    /\ Forall (fun ck => length ck = cs) (chunks_from f cs m).
Proof.
  intros Hcs. induction q as [|q IH]; intros m f Hm Hf.
  - destruct m; [|discriminate]. destruct f; simpl; auto.
  - destruct m as [|row m]; [simpl in Hm; lia|].
    destruct f as [|f]; [simpl in Hf; lia|].
    cbn [chunks_from length].
    destruct (IH (skipn cs (row :: m)) f) as (H1 & H2).
    + rewrite length_skipn, Hm. cbn [Nat.mul]. lia.
    + rewrite length_skipn. cbn [length] in *. lia.
    + split; [now rewrite H1|]. constructor; [|exact H2].
      rewrite length_firstn, Hm. cbn [Nat.mul]. lia.
Qed.

Lemma slice_as_firstn {A} (l : list A) a n :
  slice l a (a + n) = firstn n (skipn a l).
Proof. unfold slice. now rewrite firstn_skipn_comm. Qed.

(** [np.split] at the multiples of the chunk size: the chunks, and one
    empty block after the last split point. *)
Lemma split_from_chunks cs (m : matrix) :
  1 <= cs ->
  forall fuel prev,
    length m <= fuel + prev ->
    split_from m prev (range_from fuel (prev + cs) (length m + cs) cs)
    = chunks_from fuel cs (skipn prev m) ++ [[]].
Proof.
  intros Hcs. induction fuel as [|fuel IH]; intros prev Hfuel.
  - simpl. unfold slice. rewrite skipn_all2; [reflexivity|].
    rewrite length_firstn. lia.
  - cbn [range_from].
    destruct (prev + cs <? length m + cs) eqn:E.
    + apply Nat.ltb_lt in E.
      cbn [split_from]. rewrite IH by lia.
      destruct (skipn prev m) as [|row rest] eqn:Hs.
      { apply (f_equal (@length _)) in Hs. rewrite length_skipn in Hs.
        simpl in Hs. lia. }
      cbn [chunks_from]. rewrite <- Hs.
      rewrite slice_as_firstn, skipn_skipn.
      replace (cs + prev) with (prev + cs) by lia. reflexivity.
    + apply Nat.ltb_ge in E.
      cbn [split_from]. unfold slice.
      rewrite !skipn_all2; [reflexivity | lia |].
      rewrite length_firstn. lia.
Qed.

Lemma split_chunks cs (m : matrix) split_points :
  1 <= cs ->
  range cs (length m + cs) cs = inr split_points ->
  split m split_points = chunks cs m ++ [[]].
Proof.
  intros Hcs. unfold range.
  destruct (cs =? 0) eqn:E; [apply Nat.eqb_eq in E; lia|].
  intros H. inversion H; subst. unfold split, chunks.
  pose proof (split_from_chunks m Hcs (length m + cs) 0) as E'.
  rewrite Nat.add_0_l in E'. rewrite E' by lia.
  simpl skipn. f_equal. apply chunks_from_fuel; lia.
Qed.

(* ================================================================== *)
(** ** [extract_signal] *)

Section ExtractSignal.
Context {G : Type} {B : Backend G}.

Lemma np_random_uniform_inv lo hi r c (w : world G) :
  exists W w',
    np_random_uniform lo hi r c w = (inr W, w')
    /\ nmf_calls w' = nmf_calls w
    /\ has_shape W r c
    /\ Forall (Forall (fun x => (lo <= x)%R)) W.
Proof.
  unfold np_random_uniform.
  pose proof (random_uniform_shape lo hi r c (np_random w)) as Hs.
  pose proof (random_uniform_range lo hi r c (np_random w)) as Hr.
  destruct (random_uniform lo hi r c (np_random w)) as [W g'].
  simpl in *. eauto 10.
Qed.

(** The loop consumes the chunks up to the first empty one; every result
    of a factorization has the rows of its chunk and no negative entry. *)
Lemma chunk_loop_inv mmatrix aW seed chunks :
  forall acc (w : world G) out w',
    chunk_loop mmatrix aW seed chunks acc w = (inr out, w') ->
    Forall nonneg acc -> Forall nonneg out.
Proof.
  induction chunks as [|ck chunks IH]; intros acc w out w' Hrun Hacc.
  - simpl in Hrun. inversion Hrun. now subst.
  - cbn [chunk_loop] in Hrun.
    destruct (length ck <? 1).
    + inversion Hrun. now subst.
    + apply bind_inr in Hrun. destruct Hrun as (W & w1 & _ & Hrun).
      apply bind_inr in Hrun. destruct Hrun as ((ck_W, H) & w2 & Hcall & Hrun).
      apply call_nnf_inr in Hcall. destruct Hcall as (_ & _ & _ & Hnn & _).
      eapply IH; [exact Hrun|].
      apply Forall_app. split; [assumption | now constructor].
Qed.

Lemma chunk_loop_total mmatrix aW seed (k m : nat) :
  has_shape (values mmatrix) k m ->
  nonneg (values mmatrix) ->
  has_positive (values mmatrix) ->
  length (index mmatrix) = k ->
  1 <= k -> 1 <= m -> (0 <= aW)%R ->
  forall cks acc (w : world G),
    Forall (fun ck => 1 <= length ck /\ has_shape ck (length ck) m /\ nonneg ck) cks ->
    exists Ws calls w',
      chunk_loop mmatrix aW seed (cks ++ [[]]) acc w = (inr (acc ++ Ws), w')
      /\ Forall2 (fun ck W => has_shape W (length ck) k /\ nonneg W) cks Ws
      /\ nmf_calls w' = nmf_calls w ++ calls
      /\ map nnf_X calls = cks.
Proof.
  intros Hmm Hmmnn Hmmpos Hk Hk1 Hm1 HaW.
  induction cks as [|ck cks IH]; intros acc w Hcks.
  - exists [], [], w. simpl. unfold ret. rewrite !app_nil_r. auto.
  - apply Forall_cons_iff in Hcks. destruct Hcks as ((Hl & Hshape & Hnn) & Hrest).
    cbn [app chunk_loop].
    assert (E : (length ck <? 1) = false) by (apply Nat.ltb_ge; lia).
    rewrite E.
    destruct (np_random_uniform_inv 0 (1 / 10) (length ck) (length (index mmatrix)) w)
      as (W & w1 & HW & Hc1 & HWs & HWr).
    destruct (has_shape_dims Hshape Hl) as (Hckr & Hckc).
    set (call := {| nnf_X := ck; nnf_W := Some W; nnf_H := Some (values mmatrix);
                    nnf_n_components := length (index mmatrix);
                    nnf_init := Some init_custom;
                    nnf_update_H := false; nnf_solver := mu;
                    nnf_beta_loss := kullback_leibler;
                    nnf_alpha_W := aW; nnf_alpha_H := None;
                    nnf_max_iter := 500; nnf_random_state := Some seed |}).
    assert (Hvalid : nnf_valid call).
    { unfold nnf_valid, nnf_array, call. cbn [nnf_X nnf_W nnf_H
        nnf_n_components nnf_init nnf_update_H nnf_alpha_W nnf_alpha_H].
      rewrite Hckr, Hckc, Hk.
      split; [lia|]. split; [lia|]. split; [split; assumption|].
      split; [lia|]. split; [assumption|]. split; [discriminate|]. intros _.
      split; [eauto|]. split; [discriminate|].
      intros W' HW'. inversion HW'; subst W'. rewrite <- Hk. split; [exact HWs|].
      exact HWr. }
    destruct (call_nnf_total w1 Hvalid) as (ck_W & H & w2 & Hcall).
    destruct (call_nnf_inr _ _ Hcall) as (Hc2 & HckW & _ & HckWnn & _).
    unfold call in HckW. cbn [nnf_X nnf_n_components] in HckW.
    rewrite Hckr, Hk in HckW.
    destruct (IH (acc ++ [ck_W]) w2 Hrest) as (Ws & calls & w' & Hloop & HF & Hc3 & Hx).
    exists (ck_W :: Ws), (call :: calls), w'.
    rewrite (@bind_run _ _ _ _ _ _ _ _ HW).
    rewrite (@bind_run _ _ _ _ _ _ _ _ Hcall). cbv beta iota.
    rewrite Hloop, <- app_assoc. split; [reflexivity|].
    split; [constructor; auto|]. split.
    + rewrite Hc3, Hc2, Hc1, <- app_assoc. reflexivity.
    + simpl. now rewrite Hx.
Qed.

End ExtractSignal.

Lemma vstack_total (Ws : list matrix) k :
  Ws <> [] ->
  Forall (fun W => 1 <= length W /\ Forall (fun row => length row = k) W) Ws ->
  vstack Ws = inr (concat Ws).
Proof.
  intros Hne Hall. unfold vstack.
  destruct Ws as [|W1 Ws']; [congruence|].
  assert (Hk : ncols W1 = k).
  { inversion Hall as [|? ? (Hl & Hc) _]; subst.
    destruct W1 as [|row W1]; [simpl in Hl; lia|]. now inversion Hc. }
  rewrite Hk.
  assert (E : forallb (fun b' => forallb (fun row => length row =? k) b') (W1 :: Ws')
              = true).
  { apply forallb_forall. intros W HW. apply forallb_forall. intros row Hrow.
    rewrite Forall_forall in Hall. destruct (Hall W HW) as (_ & Hc).
    rewrite Forall_forall in Hc. apply Nat.eqb_eq. auto. }
  now rewrite E.
Qed.

Lemma vstack_inr (Ws : list matrix) out : vstack Ws = inr out -> out = concat Ws.
Proof.
  unfold vstack. destruct Ws as [|W1 Ws']; [discriminate|].
  destruct (forallb _ _); [|discriminate]. intros E. now inversion E.
Qed.

Lemma concat_length_Forall2 (cks Ws : list matrix) :
  Forall2 (fun ck W => length W = length ck) cks Ws ->
  length (concat Ws) = length (concat cks).
Proof.
  induction 1 as [|ck W cks Ws H _ IH]; simpl; [reflexivity|].
  rewrite !length_app. congruence.
Qed.

Section ExtractSignalTotal.
Context {G : Type} {B : Backend G}.

(** On a coverage matrix with at least one bin, [extract_signal] returns;
    the result is the stack, in chunk order, of one factorization result
    per non-empty chunk. *)
Lemma extract_signal_total data_df mmatrix conds cs aW seed (w : world G) :
  signal_input data_df mmatrix conds cs aW ->
  1 <= length (values data_df) ->
  exists out w' Ws calls,
    extract_signal data_df mmatrix conds cs aW seed w = (inr out, w')
    /\ out = mkDataFrame (index data_df) conds (concat Ws)
    /\ Forall2 (fun ck W => has_shape W (length ck) (length conds) /\ nonneg W)
               (chunks cs (values data_df)) Ws
    /\ nmf_calls w' = nmf_calls w ++ calls
    /\ map nnf_X calls = chunks cs (values data_df).
Proof.
  intros [Hwf Hnn Hm1 Hmwf Hmnn Hmpos Hmc Hmr Hc1 Hcs HaW] Hrows.
  destruct Hwf as (Hix & Hcols). destruct Hmwf as (Hmix & Hmcols).
  unfold extract_signal. rewrite Hix.
  destruct (range cs (length (values data_df) + cs) cs) as [e|pts] eqn:Hrange.
  { unfold range in Hrange. destruct (cs =? 0) eqn:E; [|discriminate].
    apply Nat.eqb_eq in E. lia. }
  rewrite (bind_lift_run _ _ eq_refl).
  rewrite (split_chunks _ Hcs Hrange).
  pose proof (@chunks_from_bounds cs (values data_df) (length (values data_df)) Hcs)
    as Hb. fold (chunks cs (values data_df)) in Hb.
  assert (Hcks : Forall (fun ck => 1 <= length ck
                                   /\ has_shape ck (length ck) (length (columns data_df))
                                   /\ nonneg ck)
                        (chunks cs (values data_df))).
  { eapply Forall_impl; [|exact Hb]. intros ck ((Hl & _) & Hincl).
    split; [exact Hl|]. split; [split; [reflexivity|]|].
    - rewrite Forall_forall in Hcols. apply Forall_forall. auto.
    - unfold nonneg in *. rewrite Forall_forall in Hnn. apply Forall_forall. auto. }
  assert (Hmshape : has_shape (values mmatrix) (length conds) (length (columns data_df))).
  { split; [congruence|]. now rewrite <- Hmc. }
  destruct (@chunk_loop_total G B mmatrix aW seed (length conds) (length (columns data_df))
              Hmshape Hmnn Hmpos Hmr Hc1 Hm1 HaW _ [] w Hcks)
    as (Ws & calls & w' & Hloop & HF & Hcalls & Hx).
  simpl app in Hloop.
  rewrite (@bind_run _ _ _ _ _ _ _ _ Hloop).
  assert (Hne : Ws <> []).
  { intros ->. inversion HF as [E|]; subst.
    pose proof (chunks_from_concat (values data_df) Hcs (Nat.le_refl _)) as Hcat.
    fold (chunks cs (values data_df)) in Hcat. rewrite <- E in Hcat.
    simpl in Hcat. rewrite <- Hcat in Hrows. simpl in Hrows. lia. }
  assert (Hstack : vstack Ws = inr (concat Ws)).
  { apply vstack_total with (k := length conds); [exact Hne|].
    clear - HF Hcks. induction HF as [|ck W cks Ws' (Hs & _) _ IH]; [constructor|].
    apply Forall_cons_iff in Hcks. destruct Hcks as ((Hl & _) & Hcks).
    constructor; [|auto]. destruct Hs as (Hr & Hc). split; [lia | exact Hc]. }
  rewrite (bind_lift_run _ _ Hstack).
  assert (Hlen : length (concat Ws) = length (values data_df)).
  { rewrite (@concat_length_Forall2 (chunks cs (values data_df)) Ws).
    - unfold chunks. now rewrite chunks_from_concat.
    - eapply Forall2_impl; [|exact HF]. intros ck W ((Hr & _) & _). exact Hr. }
  exists (mkDataFrame (index data_df) conds (concat Ws)), w', Ws, calls.
  split.
  - unfold lift. f_equal. apply make_total; [congruence|].
    apply Forall_concat. clear - HF.
    induction HF as [|ck W cks Ws' ((_ & Hc) & _) _ IH]; constructor; auto.
  - auto.
Qed.

(** The signal matrix has no negative entry. *)
Lemma extract_signal_nonneg data_df mmatrix conds cs aW seed (w : world G) out w' :
  extract_signal data_df mmatrix conds cs aW seed w = (inr out, w') ->
  nonneg (values out).
Proof.
  unfold extract_signal. intros H.
  apply bind_lift_inr in H. destruct H as (pts & _ & H).
  apply bind_inr in H. destruct H as (Ws & w1 & Hloop & H).
  apply bind_lift_inr in H. destruct H as (st & Hst & H).
  apply lift_inr in H. destruct H as (Hmk & _).
  apply make_inr in Hmk. destruct Hmk as (-> & _). simpl.
  apply vstack_inr in Hst. subst st.
  apply chunk_loop_inv in Hloop; [|constructor].
  unfold nonneg. now apply Forall_concat.
Qed.

End ExtractSignalTotal.

(* ================================================================== *)
(** ** Inputs that are not checked *)

Section Unchecked.
Context {G : Type} {B : Backend G}.

(** Counts that do not add up to the number of samples are noticed only at
    the assignment of the background row, after the two background
    factorizations. *)
Lemma count_mismatch_late data_df conds counts aW aH t n seed (w : world G) :
  usable_data data_df conds aW aH t n ->
  Forall (fun c => exists k, dict_getitem counts c = inr k) conds ->
  Np.sum (replicate_counts counts conds) <> length (columns data_df) ->
  exists w',
    extract_mixing_matrix data_df conds counts aW aH t n seed w
    = (inl ValueError, w')
    /\ length (nmf_calls w') = length (nmf_calls w) + 2.
Proof.
  intros Hdata Hcounts Hsum.
  destruct (background_total seed w Hdata)
    as [c0 rest train Wu Hu w1 Wt Ht w2 sp ctrl treat coefs
          Hconds Htrain Htc Hcall1 Hcall2 Hcalls Hcl Hm2 Hcnn Hsp Hsps Hspnn].
  assert (Hcounts' : Forall (fun c => exists k, dict_getitem counts c = inr k /\ True)
                            conds).
  { eapply Forall_impl; [|exact Hcounts]. intros c (k & Hk). eauto. }
  destruct (map_result_total _ (fun _ => True) Hcounts') as (nrep & Hnrep & _).
  pose proof (map_result_inr _ 0 _ Hnrep) as Hrc.
  fold (replicate_counts counts conds) in Hrc. rewrite <- Hrc in Hsum.
  assert (Hlen : length nrep = length conds).
  { rewrite Hrc. unfold replicate_counts. apply length_map. }
  destruct nrep as [|n0 hist]; [subst conds; discriminate|].
  exists w2. split; [|exact Hcalls].
  unfold extract_mixing_matrix.
  rewrite (bind_lift_run _ _ Htrain). subst conds.
  rewrite (bind_lift_run _ _ (a := c0) eq_refl).
  rewrite (@bind_run _ _ _ _ _ _ _ _ Hcall1). cbv beta iota.
  rewrite (@bind_run _ _ _ _ _ _ _ _ Hcall2). cbv beta iota.
  rewrite (bind_lift_run _ _ Hsp).
  rewrite (bind_lift_run _ _ Hnrep).
  rewrite (bind_lift_run _ _ (a := n0) eq_refl).
  apply bind_lift_fail.
  apply setitem_row0_mismatch; [simpl; lia | | ].
  - fold coefs. rewrite Hcl. auto.
  - fold coefs. rewrite Hcl. exact Hm2.
Qed.

End Unchecked.

(* ================================================================== *)
(** ** Columns of a DataFrame *)

Lemma combine_seq_app_one {A} (l : list A) (c : A) s :
  combine (seq s (length (l ++ [c]))) (l ++ [c])
  = combine (seq s (length l)) l ++ [(s + length l, c)].
Proof.
  revert s. induction l as [|a l IH]; intros s; simpl.
  - now rewrite Nat.add_0_r.
  - rewrite IH. now rewrite Nat.add_succ_r.
Qed.

Lemma positions_app_one cols c name :
  positions (cols ++ [c]) name
  = positions cols name ++ (if String.eqb name c then [length cols] else []).
Proof.
  unfold positions, enumerate.
  rewrite combine_seq_app_one, filter_app, map_app. simpl.
  now destruct (String.eqb name c).
Qed.

Lemma positions_lt cols name p :
  In p (positions cols name) -> p < length cols.
Proof.
  intros H. apply positions_spec in H. apply nth_error_Some. congruence.
Qed.

Lemma map_fst_combine {A C D} (g : A -> D) (l : list A) (l' : list C) :
  length l = length l' ->
  map (fun pr => g (fst pr)) (combine l l') = map g l.
Proof.
  revert l'. induction l as [|a l IH]; intros [|c l'] H; simpl in *;
    try reflexivity; try discriminate.
  f_equal. apply IH. lia.
Qed.

Lemma map_snd_combine {A C D} (g : C -> D) (l : list A) (l' : list C) :
  length l = length l' ->
  map (fun pr => g (snd pr)) (combine l l') = map g l'.
Proof.
  revert l'. induction l as [|a l IH]; intros [|c l'] H; simpl in *;
    try reflexivity; try discriminate.
  f_equal. apply IH. lia.
Qed.

Lemma nth_replace_nth p row x q :
  p < length row ->
  nth q (replace_nth p row x) 0%R = if q =? p then x else nth q row 0%R.
Proof.
  intros Hp. unfold replace_nth.
  apply nth_error_nth'
    with (d := 0%R) in Hp as Hn.
  pose proof (@nth_error_replace R row p x q ltac:(lia)) as E.
  destruct (q =? p) eqn:Eq.
  - now apply nth_error_nth.
  - apply nth_of_nth_error. exact E.
Qed.

Lemma setitem_col_inv df name v df' :
  setitem_col df name v = inr df' ->
  length v = length (index df)
  /\ index df' = index df
  /\ ((positions (columns df) name = []
       /\ columns df' = columns df ++ [name]
       /\ values df' = map (fun p => fst p ++ [snd p]) (combine (values df) v))
      \/ (exists p rest,
             positions (columns df) name = p :: rest
             /\ columns df' = columns df
             /\ values df' = map (fun pr => replace_nth p (fst pr) (snd pr))
                                 (combine (values df) v))).
Proof.
  unfold setitem_col.
  destruct (length v =? length (index df)) eqn:E; [|discriminate].
  apply Nat.eqb_eq in E.
  destruct (positions (columns df) name) as [|p rest] eqn:Hp;
    intros H; inversion H; subst; simpl.
  - split; [assumption|]. split; [reflexivity|]. left. auto.
  - split; [assumption|]. split; [reflexivity|]. right. eauto.
Qed.

Lemma setitem_col_wf df name v df' :
  wf df -> setitem_col df name v = inr df' -> wf df'.
Proof.
  intros (Hix & Hrows) H. apply setitem_col_inv in H.
  destruct H as (Hv & Hidx & [(Hp & Hc & Hvals) | (p & rest & Hp & Hc & Hvals)]);
    unfold wf; rewrite Hidx, Hc, Hvals, length_map, length_combine.
  - split; [lia|].
    rewrite Forall_forall in Hrows. apply Forall_forall. intros row Hin.
    apply in_map_iff in Hin. destruct Hin as ((r, x) & <- & Hin).
    apply in_combine_l in Hin. simpl. rewrite !length_app, (Hrows r Hin). reflexivity.
  - split; [lia|].
    rewrite Forall_forall in Hrows. apply Forall_forall. intros row Hin.
    apply in_map_iff in Hin. destruct Hin as ((r, x) & <- & Hin).
    apply in_combine_l in Hin. simpl.
    assert (Hlt : p < length r).
    { rewrite (Hrows r Hin). apply positions_lt with (name := name).
      rewrite Hp. now left. }
    unfold replace_nth. rewrite length_app. cbn [length].
    rewrite length_firstn, length_skipn. rewrite <- (Hrows r Hin). lia.
Qed.

(** After [df[name] = v], the column [name] is [v]. *)
Lemma loc_col_setitem_same df name v df' :
  wf df -> setitem_col df name v = inr df' -> loc_col df' name = inr v.
Proof.
  intros (Hix & Hrows) H. apply setitem_col_inv in H.
  destruct H as (Hv & Hidx & [(Hp & Hc & Hvals) | (p & rest & Hp & Hc & Hvals)]);
    unfold loc_col; rewrite Hc, Hvals.
  - rewrite positions_app_one, Hp, String.eqb_refl. simpl.
    unfold ok. f_equal. rewrite map_map.
    rewrite <- (map_id v) at 2. rewrite <- (map_snd_combine (fun x => x) (values df) v)
      by lia.
    apply map_ext_in. intros (r, x) Hin. simpl.
    apply in_combine_l in Hin. rewrite Forall_forall in Hrows.
    rewrite app_nth2 by (rewrite (Hrows r Hin); lia).
    rewrite (Hrows r Hin), Nat.sub_diag. reflexivity.
  - rewrite Hp. unfold ok. f_equal. rewrite map_map.
    rewrite <- (map_id v) at 2. rewrite <- (map_snd_combine (fun x => x) (values df) v)
      by lia.
    apply map_ext_in. intros (r, x) Hin. simpl.
    apply in_combine_l in Hin. rewrite Forall_forall in Hrows.
    rewrite nth_replace_nth, Nat.eqb_refl; [reflexivity|].
    rewrite (Hrows r Hin). apply positions_lt with (name := name).
    rewrite Hp. now left.
Qed.

(** [df[name] = v] leaves every other column as it was. *)
Lemma loc_col_setitem_other df name v df' name' :
  wf df -> setitem_col df name v = inr df' -> name' <> name ->
  loc_col df' name' = loc_col df name'.
Proof.
  intros (Hix & Hrows) H Hne. apply setitem_col_inv in H.
  destruct H as (Hv & Hidx & [(Hp & Hc & Hvals) | (p & rest & Hp & Hc & Hvals)]);
    unfold loc_col; rewrite Hc, Hvals.
  - rewrite positions_app_one.
    assert (E : String.eqb name' name = false) by now apply String.eqb_neq.
    rewrite E, app_nil_r.
    destruct (positions (columns df) name') as [|q rest'] eqn:Hq; [reflexivity|].
    unfold ok. f_equal. rewrite map_map.
    rewrite <- (map_fst_combine (fun row => nth q row 0%R) (values df) v) by lia.
    apply map_ext_in. intros (r, x) Hin. simpl.
    apply in_combine_l in Hin. rewrite Forall_forall in Hrows.
    apply app_nth1. rewrite (Hrows r Hin). apply positions_lt with (name := name').
    rewrite Hq. now left.
  - destruct (positions (columns df) name') as [|q rest'] eqn:Hq; [reflexivity|].
    unfold ok. f_equal. rewrite map_map.
    rewrite <- (map_fst_combine (fun row => nth q row 0%R) (values df) v) by lia.
    apply map_ext_in. intros (r, x) Hin. simpl.
    apply in_combine_l in Hin. rewrite Forall_forall in Hrows.
    assert (Hpq : q <> p).
    { intros ->.
      assert (Hp' : In p (positions (columns df) name)) by (rewrite Hp; now left).
      assert (Hq' : In p (positions (columns df) name')) by (rewrite Hq; now left).
      apply positions_spec in Hp', Hq'. congruence. }
    rewrite nth_replace_nth.
    + apply Nat.eqb_neq in Hpq. now rewrite Hpq.
    + rewrite (Hrows r Hin). apply positions_lt with (name := name).
      rewrite Hp. now left.
Qed.

(** A property of all the values of [df] and of [v] holds of all the values
    after [df[name] = v]. *)
Lemma setitem_col_Forall (P : R -> Prop) df name v df' :
  setitem_col df name v = inr df' ->
  Forall (Forall P) (values df) -> Forall P v ->
  Forall (Forall P) (values df').
Proof.
  intros H Hdf Hv. apply setitem_col_inv in H.
  destruct H as (_ & _ & [(_ & _ & Hvals) | (p & rest & _ & _ & Hvals)]);
    rewrite Hvals; apply Forall_forall; intros row Hin;
    apply in_map_iff in Hin; destruct Hin as ((r, x) & <- & Hin);
    pose proof (in_combine_l _ _ _ _ Hin) as Hr;
    pose proof (in_combine_r _ _ _ _ Hin) as Hx;
    rewrite Forall_forall in Hdf, Hv; specialize (Hdf r Hr); specialize (Hv x Hx);
    simpl.
  - apply Forall_app. split; [assumption | now constructor].
  - unfold replace_nth. apply Forall_app. split.
    + rewrite Forall_forall in *. intros y Hy. apply Hdf.
      rewrite <- (firstn_skipn p r). apply in_or_app. now left.
    + constructor; [assumption|].
      rewrite Forall_forall in *. intros y Hy. apply Hdf.
      rewrite <- (firstn_skipn (S p) r). apply in_or_app. now right.
Qed.

(* ================================================================== *)
(** ** Column labels of the HSR table *)

Lemma list_ascii_of_string_append a s :
  list_ascii_of_string (a ++ s)
  = (list_ascii_of_string a ++ list_ascii_of_string s)%list.
Proof. induction a as [|c a IH]; simpl; [reflexivity | now rewrite IH]. Qed.

Lemma append_inj_l a b s : (a ++ s)%string = (b ++ s)%string -> a = b.
Proof.
  intros E. apply (f_equal list_ascii_of_string) in E.
  rewrite !list_ascii_of_string_append in E. apply app_inv_tail in E.
  apply (f_equal string_of_list_ascii) in E.
  now rewrite !string_of_list_ascii_of_string in E.
Qed.

Lemma fit_label_not_value_label a b :
  (a ++ " fit")%string <> (b ++ " HSR Value")%string.
Proof.
  intros E. apply (f_equal list_ascii_of_string) in E.
  rewrite !list_ascii_of_string_append in E.
  apply (f_equal (@rev ascii)) in E. rewrite !rev_app_distr in E.
  simpl in E. discriminate.
Qed.

(* ================================================================== *)
(** ** The HSR loops *)

Section HsrLoop.
Context {G : Type} {B : Backend G}.
Context {X : Type} (label : X -> string) (body : X -> result hsr_locals).

Lemma hsr_store_inv out_df name st out' :
  hsr_store out_df name st = inr out' ->
  exists out1,
    setitem_col out_df (name ++ " HSR Value")%string (track st) = inr out1
    /\ setitem_col out1 (name ++ " fit")%string (pred st) = inr out'.
Proof.
  unfold hsr_store. intros H. apply rbind_inr in H. exact H.
Qed.

(** The two columns of an item after its iteration. *)
Lemma hsr_store_columns out_df name st out' :
  wf out_df ->
  hsr_store out_df name st = inr out' ->
  wf out'
  /\ index out' = index out_df
  /\ loc_col out' (name ++ " fit")%string = inr (pred st)
  /\ loc_col out' (name ++ " HSR Value")%string = inr (track st)
  /\ (forall name', name' <> (name ++ " fit")%string ->
                    name' <> (name ++ " HSR Value")%string ->
                    loc_col out' name' = loc_col out_df name').
Proof.
  intros Hwf H. apply hsr_store_inv in H. destruct H as (out1 & H1 & H2).
  assert (Hwf1 : wf out1) by (eapply setitem_col_wf; eauto).
  split; [eapply setitem_col_wf; eauto|]. split.
  - apply setitem_col_inv in H1, H2.
    destruct H1 as (_ & E1 & _), H2 as (_ & E2 & _). congruence.
  - split; [apply (loc_col_setitem_same _ _ Hwf1 H2)|]. split.
    + rewrite (loc_col_setitem_other _ Hwf1 H2).
      * apply (loc_col_setitem_same _ _ Hwf H1).
      * intros E. symmetry in E. revert E. apply fit_label_not_value_label.
    + intros name' Hn1 Hn2.
      rewrite (loc_col_setitem_other _ Hwf1 H2 Hn1).
      apply (loc_col_setitem_other _ Hwf H1 Hn2).
Qed.

(** Every iteration of a loop that returns has succeeded, and the columns
    of every item hold the baseline and the track of an iteration with that
    label. *)
Lemma hsr_loop_columns items :
  forall out_df out,
    wf out_df ->
    hsr_loop label body items out_df = inr out ->
    wf out
    /\ index out = index out_df
    /\ (forall x, In x items -> exists st, body x = inr st)
    /\ (forall name,
          (forall x, In x items -> name <> (label x ++ " fit")%string
                                   /\ name <> (label x ++ " HSR Value")%string) ->
          loc_col out name = loc_col out_df name)
    /\ (forall x, In x items ->
          exists y st,
            In y items /\ label y = label x /\ body y = inr st
            /\ loc_col out (label x ++ " fit")%string = inr (pred st)
            /\ loc_col out (label x ++ " HSR Value")%string = inr (track st)).
Proof.
  induction items as [|x items IH]; intros out_df out Hwf Hrun.
  - simpl in Hrun. inversion Hrun; subst.
    split; [exact Hwf|]. split; [reflexivity|].
    split; [intros x []|]. split; [reflexivity | intros x []].
  - cbn [hsr_loop] in Hrun.
    apply rbind_inr in Hrun. destruct Hrun as (st & Hst & Hrun).
    apply rbind_inr in Hrun. destruct Hrun as (out1 & Hstore & Hrun).
    destruct (@hsr_store_columns _ _ _ _ Hwf Hstore)
      as (Hwf1 & Hix1 & Hfit & Hval & Hframe).
    destruct (IH _ _ Hwf1 Hrun) as (Hwf' & Hix' & Hall & Hother & Hcols).
    split; [exact Hwf'|]. split; [congruence|]. split; [|split].
    + intros z [<- | Hz]; eauto.
    + intros name Hname.
      rewrite Hother by (intros z Hz; apply Hname; now right).
      destruct (Hname x (or_introl eq_refl)) as (Hn1 & Hn2).
      now apply Hframe.
    + intros z Hz.
      destruct (in_dec string_dec (label z) (map label items)) as [Hin | Hnin].
      * apply in_map_iff in Hin. destruct Hin as (z' & Hlz & Hz').
        destruct (Hcols z' Hz') as (y & sty & Hy & Hly & Hby & Hc1 & Hc2).
        exists y, sty. rewrite <- Hlz. repeat split; trivial; try congruence.
        now right.
      * assert (Hlabel : label z = label x).
        { destruct Hz as [<- | Hz]; [reflexivity|].
          exfalso. apply Hnin. now apply in_map. }
        exists x, st. rewrite Hlabel.
        assert (Hfresh : forall (sfx sfx' : string) y,
                   In y items ->
                   (label x ++ sfx)%string <> (label y ++ sfx)%string).
        { intros sfx _ y Hy E. apply append_inj_l in E.
          apply Hnin. rewrite Hlabel, E. now apply in_map. }
        split; [now left|]. split; [reflexivity|]. split; [exact Hst|]. split.
        -- rewrite Hother; [exact Hfit|].
           intros y Hy. split; [now apply (Hfresh " fit" " fit")%string|].
           apply fit_label_not_value_label.
        -- rewrite Hother; [exact Hval|].
           intros y Hy. split.
           ++ intros E. symmetry in E. revert E. apply fit_label_not_value_label.
           ++ now apply (Hfresh " HSR Value" " fit")%string.
Qed.

(** Every value stored by a loop that starts from a table of positive
    values is positive when the baselines and tracks are. *)
Lemma hsr_loop_Forall (P : R -> Prop) items :
  (forall x st, In x items -> body x = inr st ->
                Forall P (pred st) /\ Forall P (track st)) ->
  forall out_df out,
    hsr_loop label body items out_df = inr out ->
    Forall (Forall P) (values out_df) -> Forall (Forall P) (values out).
Proof.
  induction items as [|x items IH]; intros Hbody out_df out Hrun Hdf.
  - simpl in Hrun. inversion Hrun. now subst.
  - cbn [hsr_loop] in Hrun.
    apply rbind_inr in Hrun. destruct Hrun as (st & Hst & Hrun).
    apply rbind_inr in Hrun. destruct Hrun as (out1 & Hstore & Hrun).
    apply hsr_store_inv in Hstore. destruct Hstore as (out0 & H1 & H2).
    destruct (Hbody x st (or_introl eq_refl) Hst) as (Hp & Ht).
    eapply IH; [| exact Hrun |].
    + intros y sty Hy. apply Hbody. now right.
    + eapply setitem_col_Forall; [exact H2 | | exact Hp].
      eapply setitem_col_Forall; [exact H1 | exact Hdf | exact Ht].
Qed.

End HsrLoop.

(* ================================================================== *)
(** ** The regression step *)

Lemma combine_map_l {A C D} (f : A -> D) (l : list A) (l' : list C) :
  combine (map f l) l' = map (fun p => (f (fst p), snd p)) (combine l l').
Proof.
  revert l'. induction l as [|a l IH]; intros [|c l']; simpl; try reflexivity.
  now rewrite IH.
Qed.

Lemma exp_half_le x : (ln (1 / 2) <= x)%R -> (1 / 2 <= exp x)%R.
Proof.
  intros H. rewrite <- (exp_ln (1 / 2)) at 1 by lra.
  destruct H as [H | <-]; [left; now apply exp_increasing | right; reflexivity].
Qed.

Lemma Rmax_floor eps x :
  (0 < eps)%R ->
  (0 < Rmax eps x)%R /\ (eps <= Rmax eps x)%R /\ ((x < eps)%R -> Rmax eps x = eps).
Proof.
  intros Heps. pose proof (Rmax_l eps x). split; [lra|]. split; [assumption|].
  intros Hx. apply Rmax_left. lra.
Qed.

Section Regress.
Context {G : Type} {B : Backend G}.

Lemma hsr_regress_inv control_transf treatment bl_mask st :
  hsr_regress control_transf treatment bl_mask = inr st ->
  treatment_transf st = treatment
  /\ hsr_fit control_transf treatment bl_mask = inr (fit_ixs st, reg_coef st)
  /\ log_pred st = map (fun c => Rmax (reg_coef st * c) (ln (1 / 2))) control_transf
  /\ pred st = map exp (log_pred st)
  /\ track st = map (fun p => exp (fst p - snd p)) (combine treatment (log_pred st)).
Proof.
  unfold hsr_regress. intros H.
  apply rbind_inr in H. destruct H as ((ixs, coef) & Hfit & H).
  inversion H; subst. simpl. auto.
Qed.

(** The prediction is floored at [log(0.5)], the baseline at [0.5]; baseline
    and track are positive. *)
Lemma hsr_regress_bounds control_transf treatment bl_mask st :
  hsr_regress control_transf treatment bl_mask = inr st ->
  Forall (fun lp => (ln (1 / 2) <= lp)%R) (log_pred st)
  /\ Forall (fun p => (1 / 2 <= p)%R) (pred st)
  /\ Forall (fun x => (0 < x)%R) (track st).
Proof.
  intros H. apply hsr_regress_inv in H.
  destruct H as (_ & _ & Hlp & Hp & Ht).
  assert (H1 : Forall (fun lp => (ln (1 / 2) <= lp)%R) (log_pred st)).
  { rewrite Hlp. apply Forall_forall. intros x Hx.
    apply in_map_iff in Hx. destruct Hx as (c & <- & _). apply Rmax_r. }
  split; [exact H1|]. split.
  - rewrite Hp. rewrite Forall_forall in H1. apply Forall_forall. intros x Hx.
    apply in_map_iff in Hx. destruct Hx as (lp & <- & Hlp'). apply exp_half_le. auto.
  - rewrite Ht. apply Forall_forall. intros x Hx.
    apply in_map_iff in Hx. destruct Hx as (p & <- & _). apply exp_pos.
Qed.

Lemma hsr_regress_nonneg control_transf treatment bl_mask st :
  hsr_regress control_transf treatment bl_mask = inr st ->
  Forall (fun x => (0 <= x)%R) (pred st) /\ Forall (fun x => (0 <= x)%R) (track st).
Proof.
  intros H. apply hsr_regress_bounds in H. destruct H as (_ & Hp & Ht). split.
  - eapply Forall_impl; [|exact Hp]. intros x Hx. simpl in Hx. lra.
  - eapply Forall_impl; [|exact Ht]. intros x Hx. simpl in Hx. lra.
Qed.

(** The track is the floored treatment value over the fitted baseline. *)
Lemma track_as_ratio eps (treatment_col lp : list R) :
  (0 < eps)%R ->
  map (fun p => exp (fst p - snd p)) (combine (log_transform eps treatment_col) lp)
  = map (fun p => (Rmax eps (fst p) / exp (snd p))%R) (combine treatment_col lp).
Proof.
  intros Heps. unfold log_transform. rewrite map_map, combine_map_l, map_map.
  apply map_ext. intros (x, y). simpl.
  unfold Rminus, Rdiv. rewrite exp_plus, exp_Ropp, exp_ln; [reflexivity|].
  now apply Rmax_floor.
Qed.

Lemma hsr_loop_bodies {X} (label : X -> string) (body : X -> result hsr_locals) items :
  forall out_df out,
    hsr_loop label body items out_df = inr out ->
    forall x, In x items -> exists st, body x = inr st.
Proof.
  induction items as [|x items IH]; intros out_df out Hrun z Hz; [destruct Hz|].
  cbn [hsr_loop] in Hrun.
  apply rbind_inr in Hrun. destruct Hrun as (st & Hst & Hrun).
  apply rbind_inr in Hrun. destruct Hrun as (out1 & _ & Hrun).
  destruct Hz as [<- | Hz]; [eauto | eapply IH; eauto].
Qed.

Lemma loc_no_cols_wf wmat : wf wmat -> wf (loc_no_cols wmat).
Proof.
  intros (Hix & _). unfold wf, loc_no_cols. simpl. rewrite length_map.
  split; [assumption|]. apply Forall_forall. intros row Hin.
  apply in_map_iff in Hin. destruct Hin as (r & <- & _). reflexivity.
Qed.

Lemma loc_no_cols_Forall (P : R -> Prop) wmat :
  Forall (Forall P) (values (loc_no_cols wmat)).
Proof.
  unfold loc_no_cols. simpl. apply Forall_forall. intros row Hin.
  apply in_map_iff in Hin. destruct Hin as (r & <- & _). constructor.
Qed.

End Regress.

(* ================================================================== *)
(** ** Floors and signs of the HSR tables *)

Section Floors.
Context {G : Type} {B : Backend G}.

Lemma floored_intro eps col : (0 < eps)%R -> floored eps col.
Proof.
  intros Heps. split.
  - unfold log_transform. apply map_map.
  - apply Forall_forall. intros x _.
    destruct (Rmax_floor x Heps) as (H1 & _ & H3). auto.
Qed.

Lemma run_HSR_floors wmat bl_mask conds eps out :
  (0 < eps)%R -> wf wmat ->
  run_HSR wmat bl_mask conds eps = inr out ->
  hsr_floors wmat bl_mask conds eps out.
Proof.
  intros Heps Hwf Hrun. unfold run_HSR in Hrun.
  apply rbind_inr in Hrun. destruct Hrun as (c0 & Hc0 & Hrun).
  apply rbind_inr in Hrun. destruct Hrun as (control_col & Hcc & Hrun).
  apply getitem_inr in Hc0.
  destruct (hsr_loop_columns _ _ _ (loc_no_cols_wf Hwf) Hrun)
    as (_ & Hix & _ & _ & Hcols).
  exists c0, control_col.
  split; [exact Hc0|]. split; [exact Hcc|]. split; [now apply floored_intro|].
  split; [exact Hix|].
  intros t Ht. destruct (Hcols t Ht) as (y & st & _ & -> & Hst & Hfit & Hval).
  unfold run_HSR_step in Hst.
  apply rbind_inr in Hst. destruct Hst as (treatment_col & Htc & Hreg).
  exists treatment_col, st.
  destruct (hsr_regress_inv _ _ _ Hreg) as (Htt & _ & Hlp & Hp & Htr).
  destruct (hsr_regress_bounds _ _ _ Hreg) as (Hb1 & Hb2 & _).
  split; [exact Htc|]. split; [unfold run_HSR_step; now rewrite Htc|].
  split; [exact Htt|]. split; [now apply floored_intro|].
  split; [exact Hlp|]. split; [exact Hb1|].
  split; [now rewrite <- Hp|]. split; [now rewrite <- Hp|].
  rewrite Hval, Htr. f_equal. now apply track_as_ratio.
Qed.

(** The tables of the two HSR variants have no negative entry. *)
Lemma run_HSR_nonneg wmat bl_mask conds eps out :
  run_HSR wmat bl_mask conds eps = inr out -> nonneg (values out).
Proof.
  intros Hrun. unfold run_HSR in Hrun.
  apply rbind_inr in Hrun. destruct Hrun as (c0 & _ & Hrun).
  apply rbind_inr in Hrun. destruct Hrun as (control_col & _ & Hrun).
  eapply hsr_loop_Forall with (P := fun x => (0 <= x)%R); [| exact Hrun |].
  - intros t st _ Hst. unfold run_HSR_step in Hst.
    apply rbind_inr in Hst. destruct Hst as (treatment_col & _ & Hreg).
    eapply hsr_regress_nonneg; eauto.
  - apply loc_no_cols_Forall.
Qed.

Lemma run_HSR_replicates_nonneg replicates wmat mmat bl_mask conds counts eps out :
  run_HSR_replicates replicates wmat mmat bl_mask conds counts eps = inr out ->
  nonneg (values out).
Proof.
  intros Hrun. unfold run_HSR_replicates in Hrun.
  apply rbind_inr in Hrun. destruct Hrun as (c0 & _ & Hrun).
  apply rbind_inr in Hrun. destruct Hrun as (n_control & _ & Hrun).
  apply rbind_inr in Hrun. destruct Hrun as (control_col & _ & Hrun).
  apply rbind_inr in Hrun. destruct Hrun as (tissue_signal & _ & Hrun).
  eapply hsr_loop_Forall with (P := fun x => (0 <= x)%R); [| exact Hrun |].
  - intros t st _ Hst. unfold run_HSR_replicates_step in Hst.
    apply rbind_inr in Hst. destruct Hst as (sample_data & _ & Hst).
    apply rbind_inr in Hst. destruct Hst as (tissue_coef & _ & Hreg).
    eapply hsr_regress_nonneg; eauto.
  - apply loc_no_cols_Forall.
Qed.

End Floors.

Section MixingMatrixNonneg.
Context {G : Type} {B : Backend G}.

(** A returned mixing matrix has no negative entry. *)
Lemma extract_mixing_matrix_nonneg data_df conds counts aW aH t n seed
      (w : world G) mm w' :
  extract_mixing_matrix data_df conds counts aW aH t n seed w = (inr mm, w') ->
  nonneg (values mm).
Proof.
  intros Hrun. apply extract_mixing_matrix_inv in Hrun.
  destruct Hrun as [c0 rest train Wu Hu w1 Wt Ht w2 sp n0 hist mm0 mm1
                      ctrl treat coefs total
                      Hconds Htrain Hcall1 Hcall2 HS Hcounts Hrow0 Hloop Hmk].
  unfold NMF_fit_transform in Hcall1.
  apply call_nnf_inr in Hcall1. destruct Hcall1 as (_ & _ & _ & _ & HHu).
  apply call_nnf_inr in Hcall2. destruct Hcall2 as (_ & _ & _ & HWt & _).
  assert (Hcoefs : nonneg_row coefs).
  { unfold coefs, flatten, nonneg_row. apply Forall_app. split.
    - now apply concat_nonneg.
    - now apply concat_nonneg, transpose_nonneg. }
  assert (Hz : nonneg (zeros (length conds) total)).
  { apply Reference.const_matrix_bound. lra. }
  assert (Hmm0 : nonneg mm0) by (eapply setitem_row_slice_nonneg; eauto).
  assert (Hshape0 : has_shape mm0 (length conds) total).
  { eapply setitem_row_slice_shape; eauto. apply zeros_shape. }
  unfold enumerate in Hloop.
  replace n0 with (n0 + Np.sum (firstn 0 hist)) in Hloop by (simpl; lia).
  destruct (specific_loop_inv _ _ _ _ _ _ _ _ Hloop Hshape0) as (_ & Hnn & _).
  apply make_inr in Hmk. destruct Hmk as (-> & _). simpl. auto.
Qed.

End MixingMatrixNonneg.

(* ================================================================== *)
(** ** The per-replicate signal *)

Lemma filter_none {A} (f : A -> bool) l :
  Forall (fun x => f x = false) l -> filter f l = [].
Proof.
  induction 1 as [|x l Hx _ IH]; simpl; [reflexivity|]. now rewrite Hx.
Qed.

Lemma filter_all {A} (f : A -> bool) l :
  Forall (fun x => f x = true) l -> filter f l = l.
Proof.
  induction 1 as [|x l Hx _ IH]; simpl; [reflexivity|]. now rewrite Hx, IH.
Qed.

Section Replicates.
Context {G : Type} {B : Backend G}.

Lemma run_HSR_replicates_signals replicates wmat mmat bl_mask conds counts eps out :
  run_HSR_replicates replicates wmat mmat bl_mask conds counts eps = inr out ->
  replicate_signals replicates wmat mmat bl_mask conds counts eps.
Proof.
  intros Hrun. unfold run_HSR_replicates in Hrun.
  apply rbind_inr in Hrun. destruct Hrun as (c0 & Hc0 & Hrun).
  apply rbind_inr in Hrun. destruct Hrun as (n_control & Hn & Hrun).
  apply rbind_inr in Hrun. destruct Hrun as (control_col & Hcc & Hrun).
  apply rbind_inr in Hrun. destruct Hrun as (tissue_signal & Hts & Hrun).
  assert (control_col = tissue_signal) by congruence. subst control_col.
  apply getitem_inr in Hc0.
  exists c0, n_control, tissue_signal.
  split; [exact Hc0|]. split; [exact Hn|]. split; [exact Hts|].
  intros i s His.
  destruct (hsr_loop_bodies _ _ _ _ Hrun (i, s)) as (st & Hst);
    [now apply enumerate_In|].
  simpl in Hst. pose proof Hst as Hstep. unfold run_HSR_replicates_step in Hst.
  apply rbind_inr in Hst. destruct Hst as (sample_data & Hsd & Hst).
  apply rbind_inr in Hst. destruct Hst as (tissue_coef & Hcoef & Hreg).
  unfold iloc in Hcoef.
  apply rbind_inr in Hcoef. destruct Hcoef as (row0 & Hrow0 & Hcoef).
  apply getitem_inr in Hrow0, Hcoef.
  destruct (hsr_regress_inv _ _ _ Hreg) as (Htt & Hfit & _).
  exists sample_data, row0, tissue_coef, st.
  split; [exact Hsd|]. split; [exact Hrow0|]. split; [exact Hcoef|].
  split; [exact Hstep|]. split.
  { rewrite Htt. unfold sample_specific_signal. apply map_map. }
  split.
  { apply Forall_forall. intros p _. apply Rmax_r. }
  split.
  { rewrite Htt. exact Hfit. }
  intros ctrl treat Hcols Hctrl Htreat Hlen.
  rewrite Hcols in His |- *. rewrite filter_app in His.
  rewrite filter_none in His.
  - rewrite filter_all in His.
    + rewrite nth_error_app2 by lia. rewrite <- Hlen.
      now replace (i + length ctrl - length ctrl) with i by lia.
    + eapply Forall_impl; [|exact Htreat]. intros c Hc. simpl in Hc. now rewrite Hc.
  - eapply Forall_impl; [|exact Hctrl]. intros c Hc. simpl in Hc. now rewrite Hc.
Qed.

End Replicates.

(* ================================================================== *)
(** ** Masked-out bins *)

Lemma agree_on_rec mask a b : agree_on mask a b -> agree_rec mask a b.
Proof.
  revert mask b. induction a as [|x a IH]; intros mask [|y b] (Hlen & Hnth);
    simpl in *; try discriminate; [exact I|].
  split.
  - intros Hm. apply (Hnth 0). now destruct mask.
  - apply IH. split; [lia|]. intros i Hi. apply (Hnth (S i)).
    destruct mask; [now destruct i | exact Hi].
Qed.

Lemma agree_rec_on mask a b : agree_rec mask a b -> agree_on mask a b.
Proof.
  revert mask b. induction a as [|x a IH]; intros mask [|y b] H;
    simpl in H; try contradiction.
  - split; [reflexivity | intros; reflexivity].
  - destruct H as (Hx & H). apply IH in H. destruct H as (Hlen & Hnth).
    split; [simpl; lia|]. intros [|i] Hi.
    + apply Hx. now destruct mask.
    + simpl. apply Hnth. destruct mask; [now destruct i | exact Hi].
Qed.

Lemma agree_rec_mask_select mask a b :
  agree_rec mask a b -> mask_select mask a = mask_select mask b.
Proof.
  revert mask b. induction a as [|x a IH]; intros mask [|y b] H;
    simpl in H; try contradiction.
  - now destruct mask.
  - destruct H as (Hx & H). destruct mask as [|m mask]; [reflexivity|].
    simpl in *. rewrite (IH _ _ H). destruct m; [|reflexivity].
    now rewrite Hx.
Qed.

Lemma agree_rec_length mask a b : agree_rec mask a b -> length a = length b.
Proof. intros H. apply agree_rec_on in H. apply H. Qed.

Lemma agree_rec_map (f : R -> R) mask a b :
  agree_rec mask a b -> agree_rec mask (map f a) (map f b).
Proof.
  revert mask b. induction a as [|x a IH]; intros mask [|y b] H;
    simpl in *; try contradiction; [exact I|].
  destruct H as (Hx & H). split; [|now apply IH].
  intros Hm. now rewrite Hx.
Qed.

Lemma agree_rec_map2 (g : R * R -> R) mask a a' t t' :
  agree_rec mask a a' -> agree_rec mask t t' ->
  agree_rec mask (map g (combine a t)) (map g (combine a' t')).
Proof.
  revert mask a' t t'. induction a as [|x a IH]; intros mask [|x' a'] t t' Ha Ht;
    simpl in Ha; try contradiction.
  - exact I.
  - destruct t as [|y t], t' as [|y' t']; simpl in Ht; try contradiction; [exact I|].
    destruct Ha as (Hx & Ha), Ht as (Hy & Ht). simpl. split.
    + intros Hm. now rewrite Hx, Hy.
    + now apply IH.
Qed.

Lemma bool_index_agree mask a b :
  agree_rec mask a b -> bool_index mask a = bool_index mask b.
Proof.
  intros H. unfold bool_index.
  now rewrite (agree_rec_length _ _ _ H), (agree_rec_mask_select _ _ _ H).
Qed.

Lemma loc_col_agree mask df df' name :
  frames_agree_on mask df df' ->
  (forall col, loc_col df name = inr col ->
               exists col', loc_col df' name = inr col' /\ agree_rec mask col col')
  /\ (forall e, loc_col df name = inl e -> loc_col df' name = inl e).
Proof.
  intros (Hcols & Hlen & Hrows). unfold loc_col. rewrite <- Hcols.
  destruct (positions (columns df) name) as [|p rest].
  - split; [discriminate | auto].
  - split; [|discriminate]. intros col Hcol. inversion Hcol; subst. clear Hcol.
    eexists. split; [reflexivity|]. apply agree_on_rec. split.
    + now rewrite !length_map.
    + intros i Hi.
      destruct (Nat.lt_ge_cases i (length (values df))) as [Hlt | Hge].
      * rewrite (nth_indep _ 0%R (nth p [] 0%R)) by now rewrite length_map.
        rewrite (nth_indep (map _ (values df')) 0%R (nth p [] 0%R))
          by (rewrite length_map; lia).
        rewrite !(map_nth (fun row => nth p row 0%R)). now rewrite Hrows.
      * rewrite !nth_overflow; [reflexivity | |]; rewrite length_map; lia.
Qed.

Section Masking.
Context {G : Type} {B : Backend G}.

(** The fit sees the two series only through the bins the mask keeps. *)
Lemma hsr_fit_agree mask c c' t t' :
  agree_rec mask c c' -> agree_rec mask t t' ->
  hsr_fit c t mask = hsr_fit c' t' mask.
Proof.
  intros Hc Ht. unfold hsr_fit.
  now rewrite (bool_index_agree _ _ _ Hc), (bool_index_agree _ _ _ Ht).
Qed.

Lemma fit_of_regress c t mask :
  fit_of (hsr_regress c t mask) = hsr_fit c t mask.
Proof.
  unfold fit_of, hsr_regress.
  destruct (hsr_fit c t mask) as [e|(ixs, coef)]; reflexivity.
Qed.

Lemma fit_of_bind {A} (r : result A) (k : A -> result hsr_locals) :
  fit_of (rbind r k) = rbind r (fun a => fit_of (k a)).
Proof. destruct r; reflexivity. Qed.

Lemma run_HSR_step_agree mask wmat wmat' eps control_col control_col' t :
  frames_agree_on mask wmat wmat' ->
  agree_rec mask control_col control_col' ->
  fit_of (run_HSR_step wmat mask eps (log_transform eps control_col) t)
  = fit_of (run_HSR_step wmat' mask eps (log_transform eps control_col') t).
Proof.
  intros Hw Hc. unfold run_HSR_step. rewrite !fit_of_bind.
  destruct (loc_col_agree t Hw) as (Hok & Herr).
  destruct (loc_col wmat t) as [e|col].
  - now rewrite (Herr e eq_refl).
  - destruct (Hok col eq_refl) as (col' & -> & Hcol). simpl.
    rewrite !fit_of_regress. unfold log_transform.
    apply hsr_fit_agree; now repeat apply agree_rec_map.
Qed.

Lemma run_HSR_replicates_step_agree mask replicates replicates' mmat eps n
      control_col control_col' i s :
  frames_agree_on mask replicates replicates' ->
  agree_rec mask control_col control_col' ->
  fit_of (run_HSR_replicates_step replicates mmat mask eps n
            (log_transform eps control_col) control_col i s)
  = fit_of (run_HSR_replicates_step replicates' mmat mask eps n
              (log_transform eps control_col') control_col' i s).
Proof.
  intros Hr Hc. unfold run_HSR_replicates_step. rewrite !fit_of_bind.
  destruct (loc_col_agree s Hr) as (Hok & Herr).
  destruct (loc_col replicates s) as [e|col].
  - now rewrite (Herr e eq_refl).
  - destruct (Hok col eq_refl) as (col' & -> & Hcol). simpl.
    rewrite !fit_of_bind. destruct (iloc mmat 0 (i + n)) as [e|coef]; [reflexivity|].
    simpl. rewrite !fit_of_regress. unfold log_transform, sample_specific_signal.
    apply hsr_fit_agree.
    + now repeat apply agree_rec_map.
    + apply agree_rec_map. now apply agree_rec_map2.
Qed.

End Masking.

(* ================================================================== *)
(** ** The experiment is a valid input *)

Ltac Rgtb_eval :=
  repeat match goal with
         | |- context [Rgtb ?x ?y] =>
             first [ rewrite (@Rgtb_true x y) by lra
                   | rewrite (@Rgtb_false x y) by lra ]
         end.

Lemma example_qualifying :
  qualifying_bins Example.data_df "control" 1 = [[2; 1; 3]; [4; 0; 5]]%R.
Proof.
  unfold qualifying_bins, qualifies. simpl. Rgtb_eval. simpl. Rgtb_eval. reflexivity.
Qed.

Lemma example_wf : wf Example.data_df.
Proof. split; [reflexivity | repeat constructor]. Qed.

Lemma example_usable :
  usable_data Example.data_df Example.conditions_list
              Example.alpha_W Example.alpha_H 1 2.
Proof.
  constructor.
  - exact example_wf.
  - unfold nonneg, nonneg_row. simpl. repeat constructor; lra.
  - simpl. repeat constructor; simpl; intuition discriminate.
  - exists "control"%string, ["A"; "B"]%string. split; [reflexivity|].
    split; [exists "control_1"%string; simpl; auto|].
    split; [exists "A_1"%string; simpl; auto|].
    rewrite example_qualifying. simpl. lia.
  - lra.
  - unfold Example.alpha_W, Example.alpha_H. lra.
Qed.

Lemma example_valid :
  valid_input Example.data_df Example.conditions_list Example.conditions_counts_ref
              Example.alpha_W Example.alpha_H 1 2.
Proof.
  constructor.
  - exact example_usable.
  - simpl. repeat constructor; eexists; (split; [reflexivity | lia]).
  - reflexivity.
Qed.

Lemma example_signal_input (data_df : DataFrame) :
  wf data_df -> nonneg (values data_df) ->
  columns data_df = columns Example.data_df ->
  signal_input data_df Example.mmatrix Example.conditions_list 1 Example.alpha_W.
Proof.
  intros Hwf Hnn Hcols. constructor.
  - exact Hwf.
  - exact Hnn.
  - rewrite Hcols. simpl. lia.
  - split; [reflexivity | repeat constructor].
  - unfold nonneg, nonneg_row. simpl. repeat constructor; lra.
  - unfold has_positive. simpl. apply Exists_cons_hd, Exists_cons_hd. lra.
  - now rewrite Hcols.
  - reflexivity.
  - simpl. lia.
  - lia.
  - unfold Example.alpha_W. lra.
Qed.

Lemma misordered_valid :
  valid_input Example.misordered_df Example.conditions_list
              Example.conditions_counts_ref Example.alpha_W Example.alpha_H 1 2.
Proof.
  constructor.
  - constructor.
    + split; [reflexivity | repeat constructor].
    + unfold nonneg, nonneg_row. simpl. repeat constructor; lra.
    + simpl. repeat constructor; simpl; intuition discriminate.
    + exists "control"%string, ["A"; "B"]%string. split; [reflexivity|].
      split; [exists "control_1"%string; simpl; auto|].
      split; [exists "A_1"%string; simpl; auto|].
      unfold qualifying_bins, qualifies. simpl. Rgtb_eval. simpl. Rgtb_eval.
      simpl. lia.
    + lra.
    + unfold Example.alpha_W, Example.alpha_H. lra.
  - simpl. repeat constructor; eexists; (split; [reflexivity | lia]).
  - reflexivity.
Qed.

Lemma example_wmat_wf : wf Example.wmat.
Proof. split; [reflexivity | repeat constructor]. Qed.

Lemma example_frames_agree (df df' : DataFrame) r0 r1 r2 r2' :
  columns df = columns df' ->
  values df = [r0; r1; r2] -> values df' = [r0; r1; r2'] ->
  frames_agree_on Example.bl_mask df df'.
Proof.
  intros Hc Hv Hv'. split; [exact Hc|]. rewrite Hv, Hv'. split; [reflexivity|].
  intros [|[|[|i]]] Hi; simpl in *; try discriminate; try reflexivity;
    destruct i; discriminate.
Qed.

(** With two bins kept by the mask, the second above the first in both
    columns, the fit uses the second bin and the reference regression
    returns. *)
Lemma gt_median_pair (a b : R) : (a < b)%R -> gt_median [a; b] = [false; true].
Proof.
  intros Hab. unfold gt_median, median, sort. cbn [fold_right insert_sorted].
  unfold Rleb. destruct (Rle_dec a b) as [_|Hn]; [|lra].
  cbn. rewrite (@Rgtb_false a), (@Rgtb_true b) by lra. reflexivity.
Qed.

Lemma example_hsr_regress (l1 l2 c3 m1 m2 t3 : R) :
  (l1 < l2)%R -> (m1 < m2)%R ->
  exists coef,
    hsr_regress (B := Reference.backend) [l1; l2; c3] [m1; m2; t3] Example.bl_mask
    = inr (let log_pred := map (fun c => Rmax (coef * c) (ln (1 / 2))) [l1; l2; c3] in
           mk_hsr_locals [m1; m2; t3] [1] coef log_pred (map exp log_pred)
             (map (fun p => exp (fst p - snd p)) (combine [m1; m2; t3] log_pred))).
Proof.
  intros Hl Hm. eexists. unfold hsr_regress, hsr_fit. cbn.
  rewrite !gt_median_pair by assumption. cbn. reflexivity.
Qed.

Lemma example_eps : (0 < Example.eps < 1)%R.
Proof. unfold Example.eps. lra. Qed.

Lemma ln_floor_lt (eps x y : R) :
  (0 < eps)%R -> (x <= eps)%R -> (eps < y)%R ->
  (ln (Rmax eps x) < ln (Rmax eps y))%R
  /\ (ln (Rmax x eps) < ln (Rmax y eps))%R.
Proof.
  intros He Hx Hy.
  rewrite (Rmax_left eps x), (Rmax_right eps y), (Rmax_right x eps), (Rmax_left y eps)
    by lra.
  split; apply ln_increasing; lra.
Qed.

Lemma example_run_HSR :
  exists out,
    run_HSR (B := Reference.backend) Example.wmat Example.bl_mask
            Example.conditions_list Example.eps = inr out.
Proof.
  pose proof example_eps as He.
  destruct (run_HSR (B := Reference.backend) Example.wmat Example.bl_mask
                    Example.conditions_list Example.eps) as [e|out] eqn:Hrun; [|eauto].
  exfalso. cbn in Hrun.
  destruct (@example_hsr_regress
              (ln (Rmax Example.eps 0)) (ln (Rmax Example.eps 2)) (ln (Rmax Example.eps 5))
              (ln (Rmax Example.eps 0)) (ln (Rmax Example.eps 2)) (ln (Rmax Example.eps 9)))
    as (cA & HA); try (apply ln_floor_lt; lra).
  destruct (@example_hsr_regress
              (ln (Rmax Example.eps 0)) (ln (Rmax Example.eps 2)) (ln (Rmax Example.eps 5))
              (ln (Rmax Example.eps 0)) (ln (Rmax Example.eps 3)) (ln (Rmax Example.eps 4)))
    as (cB & HB); try (apply ln_floor_lt; lra).
  rewrite HA in Hrun. cbn in Hrun. rewrite HB in Hrun. cbn in Hrun. discriminate.
Qed.

Lemma example_run_HSR_replicates :
  exists out,
    run_HSR_replicates (B := Reference.backend) Example.replicates Example.wmat
      Example.mmatrix Example.bl_mask Example.conditions_list
      Example.conditions_counts_ref Example.eps = inr out.
Proof.
  pose proof example_eps as He.
  destruct (run_HSR_replicates (B := Reference.backend) Example.replicates Example.wmat
              Example.mmatrix Example.bl_mask Example.conditions_list
              Example.conditions_counts_ref Example.eps) as [e|out] eqn:Hrun; [|eauto].
  exfalso. cbn in Hrun.
  destruct (@example_hsr_regress
              (ln (Rmax Example.eps 0)) (ln (Rmax Example.eps 2)) (ln (Rmax Example.eps 5))
              (ln (Rmax (0 - 1 * 0) Example.eps)) (ln (Rmax (4 - 1 * 2) Example.eps))
              (ln (Rmax (1 - 1 * 5) Example.eps)))
    as (cA & HA); try (apply ln_floor_lt; lra).
  destruct (@example_hsr_regress
              (ln (Rmax Example.eps 0)) (ln (Rmax Example.eps 2)) (ln (Rmax Example.eps 5))
              (ln (Rmax (0 - 1 * 0) Example.eps)) (ln (Rmax (5 - 1 * 2) Example.eps))
              (ln (Rmax (6 - 1 * 5) Example.eps)))
    as (cB & HB); try (apply ln_floor_lt; lra).
  rewrite HA in Hrun. cbn in Hrun. rewrite HB in Hrun. cbn in Hrun. discriminate.
Qed.

(* ================================================================== *)
(** ** Outcomes that do not depend on the global generator *)

Lemma arguments_used_fields c c' :
  arguments_used c = arguments_used c' ->
  nnf_X c = nnf_X c' /\ nnf_n_components c = nnf_n_components c'
  /\ draws_from_global c = draws_from_global c'.
Proof.
  unfold arguments_used, draws_from_global. destruct c, c'. cbn.
  destruct nnf_update_H0, nnf_update_H1; intros E; inversion E; subst; auto.
Qed.

Lemma reference_seed_reproducible : seed_reproducible Reference.backend.
Proof.
  intros c c' g g' Hd E.
  destruct (arguments_used_fields _ _ E) as (HX & Hk & Hd').
  rewrite Hd in Hd'. cbn. unfold Reference.ref_nnf.
  rewrite <- HX, <- Hk, Hd, <- Hd'.
  destruct ((nrows (nnf_X c) =? 0) || (ncols (nnf_X c) =? 0)
            || (nnf_n_components c =? 0)); reflexivity.
Qed.

Lemma same_outcome_bind {G A C} (m m' : M G A) (k k' : A -> M G C) (w w' : world G) :
  fst (m w) = fst (m' w') ->
  (forall a w1 w2, fst (k a w1) = fst (k' a w2)) ->
  fst (bind m k w) = fst (bind m' k' w').
Proof.
  intros Hm Hk. unfold bind.
  destruct (m w) as [[e|a] w1], (m' w') as [[e'|a'] w1'];
    simpl in Hm; inversion Hm; subst; auto.
Qed.

Section SameOutcome.
Context {G : Type} {B : Backend G}.
Hypothesis backend_reproducible : seed_reproducible B.

Lemma same_outcome_call c c' (w w' : world G) :
  draws_from_global c = false ->
  arguments_used c = arguments_used c' ->
  fst (call_nnf c w) = fst (call_nnf c' w').
Proof.
  intros Hd E. unfold call_nnf.
  pose proof (backend_reproducible c c' (np_random w) (np_random w') Hd E) as H.
  destruct (non_negative_factorization c (np_random w)),
           (non_negative_factorization c' (np_random w')).
  exact H.
Qed.

Lemma one_component_no_draw k : (1 <=? k) && (k <? 1) = false.
Proof. destruct k; reflexivity. Qed.

Lemma specific_loop_same_outcome aW aH sp hist items :
  forall ix mm (w1 w2 : world G),
    fst (specific_loop aW aH sp hist items ix mm w1)
    = fst (specific_loop aW aH sp hist items ix mm w2).
Proof.
  induction items as [|(i, modif) items IH]; intros ix mm w1 w2; [reflexivity|].
  cbn [specific_loop]. apply same_outcome_bind; [reflexivity|].
  intros c w w'. apply same_outcome_bind.
  - apply same_outcome_call; [|reflexivity].
    unfold draws_from_global.
    cbn [nnf_update_H nnf_random_state nnf_init nnf_X nnf_n_components andb].
    apply one_component_no_draw.
  - intros (W_spec, H_spec) wa wb. apply same_outcome_bind; [reflexivity|].
    intros mm' wc wd. apply IH.
Qed.

Lemma extract_mixing_matrix_same_outcome data_df conds counts aW aH t n seed
      (w1 w2 : world G) :
  fst (extract_mixing_matrix data_df conds counts aW aH t n seed w1)
  = fst (extract_mixing_matrix data_df conds counts aW aH t n seed w2).
Proof.
  unfold extract_mixing_matrix.
  apply same_outcome_bind; [reflexivity|]. intros train wa wb.
  apply same_outcome_bind; [reflexivity|]. intros c0 wc wd.
  apply same_outcome_bind.
  { unfold NMF_fit_transform. apply same_outcome_call; reflexivity. }
  intros (W_unspec, H_unspec) we wf.
  apply same_outcome_bind.
  { apply same_outcome_call; reflexivity. }
  intros (W_treat_uns, H_treat_uns) wg wh.
  apply same_outcome_bind; [reflexivity|]. intros sp wi wj.
  apply same_outcome_bind; [reflexivity|]. intros n_replicates wk wl.
  apply same_outcome_bind; [reflexivity|]. intros n0 wm wn.
  apply same_outcome_bind; [reflexivity|]. intros mm0 wo wp.
  apply same_outcome_bind; [apply specific_loop_same_outcome|].
  intros mm1 wq wr. reflexivity.
Qed.

Lemma chunk_loop_same_outcome mmatrix aW seed chunks :
  forall processed_W (w1 w2 : world G),
    fst (chunk_loop mmatrix aW seed chunks processed_W w1)
    = fst (chunk_loop mmatrix aW seed chunks processed_W w2).
Proof.
  induction chunks as [|ck chunks IH]; intros processed_W w1 w2; [reflexivity|].
  cbn [chunk_loop]. destruct (length ck <? 1); [reflexivity|].
  unfold bind at 1 3. unfold np_random_uniform.
  destruct (random_uniform 0 (1 / 10) (length ck) (length (index mmatrix))
                           (np_random w1)) as (W1, g1).
  destruct (random_uniform 0 (1 / 10) (length ck) (length (index mmatrix))
                           (np_random w2)) as (W2, g2).
  apply same_outcome_bind.
  - apply same_outcome_call; reflexivity.
  - intros (ck_W, H) wa wb. apply IH.
Qed.

Lemma extract_signal_same_outcome data_df mmatrix conds cs aW seed (w1 w2 : world G) :
  fst (extract_signal data_df mmatrix conds cs aW seed w1)
  = fst (extract_signal data_df mmatrix conds cs aW seed w2).
Proof.
  unfold extract_signal.
  apply same_outcome_bind; [reflexivity|]. intros split_points wa wb.
  apply same_outcome_bind; [apply chunk_loop_same_outcome|].
  intros processed_W wc wd.
  apply same_outcome_bind; [reflexivity|]. intros stacked we wf.
  reflexivity.
Qed.

End SameOutcome.

(* ================================================================== *)
(** ** The properties of the specification *)

(** C1.  For every valid input (coverage matrix, conditions list with the
    control first, matching replicate counts), [extract_mixing_matrix]
    returns a mixing matrix with [len(conditions_list)] rows and one column
    per sample, and for every treatment condition [i] every entry of row
    [i + 1] outside the contiguous column slice of that condition is
    exactly zero. *)
Theorem C1_mixing_matrix_shape_and_support
        {G : Type} {B : Backend G}
        data_df conds counts aW aH t n seed (w : world G) :
  valid_input data_df conds counts aW aH t n ->
  exists mm w',
    extract_mixing_matrix data_df conds counts aW aH t n seed w = (inr mm, w')
    /\ length (values mm) = length conds
    /\ Forall (fun row => length row = length (columns data_df)) (values mm)
    /\ length (columns data_df) = Np.sum (replicate_counts counts conds)
    /\ columns mm = columns data_df
    /\ (forall i j,
          i < length conds - 1 ->
          j < slice_start counts conds i \/ slice_stop counts conds i <= j ->
          nth j (nth (i + 1) (values mm) []) 0%R = 0%R).
Proof.
  intros Hvalid.
  destruct (extract_mixing_matrix_total seed w Hvalid) as (mm & w' & Hrun).
  exists mm, w'. split; [exact Hrun|].
  destruct (mixing_matrix_shape_support _ _ _ _ _ _ _ _ _ Hrun)
    as (H1 & _ & H3 & H4 & H5 & H6).
  auto.
Qed.

Lemma C1_witness :
  valid_input Example.data_df Example.conditions_list Example.conditions_counts_ref
              Example.alpha_W Example.alpha_H 1 2
  /\ exists mm w',
      extract_mixing_matrix (B := Reference.backend)
        Example.data_df Example.conditions_list Example.conditions_counts_ref
        Example.alpha_W Example.alpha_H 1 2 42 Example.w0 = (inr mm, w')
      /\ length (values mm) = 3
      /\ Forall (fun row => length row = 3) (values mm)
      /\ 3 = Np.sum (replicate_counts Example.conditions_counts_ref
                                      Example.conditions_list)
      /\ columns mm = columns Example.data_df
      /\ (forall i j,
            i < 2 ->
            j < slice_start Example.conditions_counts_ref Example.conditions_list i
            \/ slice_stop Example.conditions_counts_ref Example.conditions_list i <= j ->
            nth j (nth (i + 1) (values mm) []) 0%R = 0%R).
Proof.
  split; [exact example_valid|].
  exact (C1_mixing_matrix_shape_and_support 42 Example.w0 example_valid).
Defined.

(** C2 (amended).  For every coverage matrix with at least one bin and
    every chunk size of at least one, [extract_signal] returns a signal
    matrix with the row labels of the input, the conditions as column
    labels and as many rows as the input.  Its rows are the stacked results
    of one factorization per chunk, in chunk order, each result with the row
    count of its chunk; the chunks are non-empty, so no call and no block
    corresponds to the empty trailing chunk, and a row count of [q] times
    the chunk size gives exactly [q] calls on [cs] rows each. *)
Theorem C2_signal_matrix_rows
        {G : Type} {B : Backend G}
        data_df mmatrix conds cs aW seed (w : world G) :
  signal_input data_df mmatrix conds cs aW ->
  1 <= length (values data_df) ->
  exists out w' Ws calls,
    extract_signal data_df mmatrix conds cs aW seed w = (inr out, w')
    /\ index out = index data_df
    /\ columns out = conds
    /\ length (values out) = length (values data_df)
    /\ values out = concat Ws
    /\ Forall2 (fun ck W => length W = length ck) (chunks cs (values data_df)) Ws
    /\ concat (chunks cs (values data_df)) = values data_df
    /\ Forall (fun ck => 1 <= length ck <= cs) (chunks cs (values data_df))
    /\ nmf_calls w' = nmf_calls w ++ calls
    /\ map nnf_X calls = chunks cs (values data_df)
    /\ (forall q, length (values data_df) = q * cs ->
                  length calls = q
                  /\ Forall (fun ck => length ck = cs) (chunks cs (values data_df))).
Proof.
  intros Hin Hrows.
  pose proof (si_chunk Hin) as Hcs.
  destruct (extract_signal_total seed w Hin Hrows)
    as (out & w' & Ws & calls & Hrun & -> & HF & Hcalls & Hx).
  exists (mkDataFrame (index data_df) conds (concat Ws)), w', Ws, calls.
  split; [exact Hrun|]. simpl.
  assert (HF' : Forall2 (fun ck W => length W = length ck)
                        (chunks cs (values data_df)) Ws).
  { eapply Forall2_impl; [|exact HF]. intros ck W ((Hr & _) & _). exact Hr. }
  assert (Hcat : concat (chunks cs (values data_df)) = values data_df).
  { unfold chunks. now apply chunks_from_concat. }
  repeat split; trivial.
  - rewrite (concat_length_Forall2 HF'). now rewrite Hcat.
  - eapply Forall_impl; [|apply chunks_from_bounds; assumption]. intros ck H. apply H.
  - rewrite <- (length_map nnf_X), Hx.
    now apply chunks_from_multiple.
  - now apply (@chunks_from_multiple cs q Hcs (values data_df) (length (values data_df))).
Qed.

Lemma C2_witness :
  signal_input Example.data_df Example.mmatrix Example.conditions_list 1 Example.alpha_W
  /\ 1 <= length (values Example.data_df)
  /\ exists out w' Ws calls,
      extract_signal (B := Reference.backend) Example.data_df Example.mmatrix
                     Example.conditions_list 1 Example.alpha_W 42 Example.w0
      = (inr out, w')
      /\ index out = index Example.data_df
      /\ columns out = Example.conditions_list
      /\ length (values out) = length (values Example.data_df)
      /\ values out = concat Ws
      /\ Forall2 (fun ck W => length W = length ck)
                 (chunks 1 (values Example.data_df)) Ws
      /\ concat (chunks 1 (values Example.data_df)) = values Example.data_df
      /\ Forall (fun ck => 1 <= length ck <= 1) (chunks 1 (values Example.data_df))
      /\ nmf_calls w' = nmf_calls Example.w0 ++ calls
      /\ map nnf_X calls = chunks 1 (values Example.data_df)
      /\ (forall q, length (values Example.data_df) = q * 1 ->
                    length calls = q
                    /\ Forall (fun ck => length ck = 1)
                              (chunks 1 (values Example.data_df))).
Proof.
  assert (Hin : signal_input Example.data_df Example.mmatrix
                             Example.conditions_list 1 Example.alpha_W).
  { apply example_signal_input; [exact example_wf | | reflexivity].
    exact (ud_nonneg example_usable). }
  split; [exact Hin|]. split; [simpl; lia|].
  apply (C2_signal_matrix_rows 42 Example.w0 Hin). simpl. lia.
Defined.

(** C2 as stated fails on a coverage matrix without bins: the loop ends at
    the first (empty) chunk, nothing is stacked, and [np.vstack] of an empty
    list raises ValueError, whatever the backend. *)
Lemma C2_counterexample :
  signal_input Example.empty_df Example.mmatrix Example.conditions_list 1 Example.alpha_W
  /\ forall (G : Type) (B : Backend G) (seed : Z) (w : world G),
      extract_signal Example.empty_df Example.mmatrix Example.conditions_list
                     1 Example.alpha_W seed w
      = (inl ValueError, w).
Proof.
  split.
  - apply example_signal_input; [|constructor | reflexivity].
    split; [reflexivity | constructor].
  - intros G B seed w. reflexivity.
Qed.

(** C3.  When fewer than [n_train_bins] bins qualify (some control sample
    strictly above the threshold), [extract_mixing_matrix] raises
    ValueError with the world unchanged, that is before any factorization
    call; when at least [n_train_bins] bins qualify, the sampled training
    matrix has exactly [n_train_bins] rows, each a qualifying bin with all
    its sample columns. *)
Theorem C3_training_subset
        {G : Type} {B : Backend G}
        data_df c0 rest counts aW aH t n seed (w : world G) :
  wf data_df ->
  (length (qualifying_bins data_df c0 t) < n ->
   extract_mixing_matrix data_df (c0 :: rest) counts aW aH t n seed w
   = (inl ValueError, w))
  /\ (n <= length (qualifying_bins data_df c0 t) ->
      exists train_data,
        select_train_data data_df (c0 :: rest) t n seed = inr train_data
        /\ length (values train_data) = n
        /\ length (index train_data) = n
        /\ columns train_data = columns data_df
        /\ Forall (fun row => length row = length (columns data_df)
                              /\ In row (qualifying_bins data_df c0 t))
                  (values train_data)).
Proof.
  intros Hwf. split.
  - intros Hfew. unfold extract_mixing_matrix.
    apply bind_lift_fail. now apply select_train_data_too_few.
  - intros Henough.
    destruct (select_train_data_spec c0 rest t seed Hwf Henough)
      as (train & Htrain & H1 & H2 & H3 & H4).
    exists train. repeat split; trivial.
    apply Forall_forall. intros row Hin. split; [|auto].
    apply H4 in Hin. unfold qualifying_bins in Hin. apply filter_In in Hin.
    destruct Hwf as (_ & Hrows). rewrite Forall_forall in Hrows. apply Hrows. tauto.
Qed.

Lemma C3_witness :
  wf Example.data_df
  /\ extract_mixing_matrix (B := Reference.backend)
       Example.data_df Example.conditions_list Example.conditions_counts_ref
       Example.alpha_W Example.alpha_H 1 3 42 Example.w0
     = (inl ValueError, Example.w0)
  /\ exists train_data,
      select_train_data (B := Reference.backend)
        Example.data_df Example.conditions_list 1 2 42 = inr train_data
      /\ length (values train_data) = 2
      /\ length (index train_data) = 2
      /\ columns train_data = columns Example.data_df
      /\ Forall (fun row => length row = length (columns Example.data_df)
                            /\ In row (qualifying_bins Example.data_df "control" 1))
                (values train_data).
Proof.
  split; [exact example_wf|].
  destruct (C3_training_subset (B := Reference.backend) "control" ["A"; "B"]%string
              Example.conditions_counts_ref Example.alpha_W Example.alpha_H
              1 3 42 Example.w0 example_wf) as (Hfew & _).
  destruct (C3_training_subset (B := Reference.backend) "control" ["A"; "B"]%string
              Example.conditions_counts_ref Example.alpha_W Example.alpha_H
              1 2 42 Example.w0 example_wf) as (_ & Henough).
  split.
  - apply Hfew. rewrite example_qualifying. simpl. lia.
  - apply Henough. rewrite example_qualifying. simpl. lia.
Defined.

(** C4.  In both HSR variants the fit (the bins selected by the
    double-median filter and the fitted slope) depends only on the bins
    where the blacklist mask is true: for two signal matrices (and two
    replicate matrices) that agree on every mask-true bin and differ
    arbitrarily elsewhere, every iteration of [run_HSR] and of
    [run_HSR_replicates] selects the same bins and fits the same slope, or
    fails with the same exception. *)
Theorem C4_fit_ignores_masked_bins
        {G : Type} {B : Backend G}
        wmat wmat' replicates replicates' mmat bl_mask eps control_condition n_control :
  frames_agree_on bl_mask wmat wmat' ->
  frames_agree_on bl_mask replicates replicates' ->
  forall control_col,
    loc_col wmat control_condition = inr control_col ->
    exists control_col',
      loc_col wmat' control_condition = inr control_col'
      /\ agree_on bl_mask control_col control_col'
      /\ (forall treatment_cond,
             fit_of (run_HSR_step wmat bl_mask eps
                       (log_transform eps control_col) treatment_cond)
             = fit_of (run_HSR_step wmat' bl_mask eps
                         (log_transform eps control_col') treatment_cond))
      /\ (forall i treatment_sample,
             fit_of (run_HSR_replicates_step replicates mmat bl_mask eps n_control
                       (log_transform eps control_col) control_col i treatment_sample)
             = fit_of (run_HSR_replicates_step replicates' mmat bl_mask eps
                         n_control (log_transform eps control_col') control_col'
                         i treatment_sample)).
Proof.
  intros Hw Hr control_col Hcc.
  destruct (loc_col_agree control_condition Hw) as (Hok & _).
  destruct (Hok control_col Hcc) as (control_col' & Hcc' & Hagree).
  exists control_col'. split; [exact Hcc'|]. split; [now apply agree_rec_on|]. split.
  - intros t. now apply run_HSR_step_agree.
  - intros i s. now apply run_HSR_replicates_step_agree.
Qed.

Lemma C4_witness :
  frames_agree_on Example.bl_mask Example.wmat Example.wmat'
  /\ frames_agree_on Example.bl_mask Example.replicates Example.replicates'
  /\ loc_col Example.wmat "control" = inr [0; 2; 5]%R
  /\ exists control_col',
      loc_col Example.wmat' "control" = inr control_col'
      /\ agree_on Example.bl_mask [0; 2; 5]%R control_col'
      /\ (forall treatment_cond,
             fit_of (run_HSR_step (B := Reference.backend) Example.wmat Example.bl_mask
                       Example.eps (log_transform Example.eps [0; 2; 5]%R) treatment_cond)
             = fit_of (run_HSR_step (B := Reference.backend) Example.wmat'
                         Example.bl_mask Example.eps
                         (log_transform Example.eps control_col') treatment_cond))
      /\ (forall i treatment_sample,
             fit_of (run_HSR_replicates_step (B := Reference.backend)
                       Example.replicates Example.mmatrix Example.bl_mask
                       Example.eps 1 (log_transform Example.eps [0; 2; 5]%R) [0; 2; 5]%R
                       i treatment_sample)
             = fit_of (run_HSR_replicates_step (B := Reference.backend)
                         Example.replicates' Example.mmatrix Example.bl_mask
                         Example.eps 1 (log_transform Example.eps control_col')
                         control_col' i treatment_sample)).
Proof.
  assert (Hw : frames_agree_on Example.bl_mask Example.wmat Example.wmat').
  { eapply example_frames_agree; reflexivity. }
  assert (Hr : frames_agree_on Example.bl_mask Example.replicates Example.replicates').
  { eapply example_frames_agree; reflexivity. }
  split; [exact Hw|]. split; [exact Hr|]. split; [reflexivity|].
  exact (@C4_fit_ignores_masked_bins nat Reference.backend _ _ _ _ Example.mmatrix _
           Example.eps "control"%string 1 Hw Hr [0; 2; 5]%R eq_refl).
Defined.

(** C5.  In [run_HSR] with a positive [eps], the log transform of the
    control column and of every treatment column takes the logarithm of
    [max(eps, x)], which is positive and is [eps] for a raw value below
    [eps]; the prediction of every bin is at least [log(0.5)]; the " fit"
    column of every treatment condition is the exponential of the
    prediction and is at least [0.5] everywhere; the " HSR Value" column is
    the floored treatment value divided by that baseline. *)
Theorem C5_floors_of_run_HSR
        {G : Type} {B : Backend G} wmat bl_mask conds eps out :
  (0 < eps)%R -> wf wmat ->
  run_HSR wmat bl_mask conds eps = inr out ->
  hsr_floors wmat bl_mask conds eps out.
Proof. apply run_HSR_floors. Qed.

Lemma C5_witness :
  (0 < Example.eps)%R
  /\ wf Example.wmat
  /\ exists out,
      run_HSR (B := Reference.backend) Example.wmat Example.bl_mask
              Example.conditions_list Example.eps = inr out
      /\ hsr_floors (B := Reference.backend) Example.wmat Example.bl_mask
                    Example.conditions_list Example.eps out.
Proof.
  assert (Heps : (0 < Example.eps)%R) by apply example_eps.
  split; [exact Heps|]. split; [exact example_wmat_wf|].
  destruct example_run_HSR as (out & Hrun).
  exists out. split; [exact Hrun|].
  exact (@C5_floors_of_run_HSR nat Reference.backend _ _ _ _ _
           Heps example_wmat_wf Hrun).
Defined.

(** C6.  No output of a stage has a negative entry: the mixing matrix, the
    residual used for the specific factorizations (the training data minus
    the outer product of the background vector and the background
    coefficients, capped at zero from below), the signal matrix, and the
    tables of both HSR variants. *)
Theorem C6_outputs_nonnegative {G : Type} {B : Backend G} :
  (forall data_df conds counts aW aH t n seed (w : world G) mm w',
      extract_mixing_matrix data_df conds counts aW aH t n seed w = (inr mm, w') ->
      nonneg (values mm))
  /\ (forall train W h,
         (forall sp, specific_data train W h = inr sp -> nonneg sp)
         /\ (forall n, has_shape train n (length h) -> has_shape W n 1 -> 1 <= n ->
                       exists sp,
                         specific_data train W h = inr sp
                         /\ forall i j, i < n -> j < length h ->
                              nth j (nth i sp []) 0%R
                              = (Rmax (nth j (nth i train []) 0
                                       - nth 0 (nth i W []) 0 * nth j h 0) 0)%R))
  /\ (forall data_df mmatrix conds cs aW seed (w : world G) out w',
         extract_signal data_df mmatrix conds cs aW seed w = (inr out, w') ->
         nonneg (values out))
  /\ (forall wmat bl_mask conds eps out,
         run_HSR wmat bl_mask conds eps = inr out -> nonneg (values out))
  /\ (forall replicates wmat mmat bl_mask conds counts eps out,
         run_HSR_replicates replicates wmat mmat bl_mask conds counts eps = inr out ->
         nonneg (values out)).
Proof.
  split; [intros; eapply extract_mixing_matrix_nonneg; eauto|].
  split.
  { intros train W h. split.
    - intros sp Hsp. eapply specific_data_nonneg; eauto.
    - intros n Ht HW Hn.
      destruct (@specific_data_spec train W h n Ht HW Hn) as (sp & Hsp & _ & _ & Hf).
      eauto. }
  split; [intros; eapply extract_signal_nonneg; eauto|].
  split; [intros; eapply run_HSR_nonneg; eauto|].
  intros; eapply run_HSR_replicates_nonneg; eauto.
Qed.

(** C7.  In [run_HSR_replicates], for every treatment replicate, the signal
    whose logarithm enters the regression is the replicate's coverage
    column minus the control signal column scaled by the replicate's
    background coefficient, taken from row 0 of the mixing matrix at the
    replicate's position offset by the number of control samples, and
    floored at [eps]. *)
Theorem C7_replicate_specific_signal
        {G : Type} {B : Backend G}
        replicates wmat mmat bl_mask conds counts eps out :
  run_HSR_replicates replicates wmat mmat bl_mask conds counts eps = inr out ->
  replicate_signals replicates wmat mmat bl_mask conds counts eps.
Proof. apply run_HSR_replicates_signals. Qed.

Lemma C7_witness :
  exists out,
    run_HSR_replicates (B := Reference.backend) Example.replicates Example.wmat
      Example.mmatrix Example.bl_mask Example.conditions_list
      Example.conditions_counts_ref Example.eps = inr out
    /\ replicate_signals (B := Reference.backend) Example.replicates Example.wmat
         Example.mmatrix Example.bl_mask Example.conditions_list
         Example.conditions_counts_ref Example.eps.
Proof.
  destruct example_run_HSR_replicates as (out & Hrun).
  exists out. split; [exact Hrun|].
  exact (@C7_replicate_specific_signal nat Reference.backend _ _ _ _ _ _ _ _ Hrun).
Defined.

(** C8 (amended).  [extract_mixing_matrix] makes no check of the conditions
    list, the counts or the column order before it factorizes.  When the
    counts do not add up to the number of columns of the coverage matrix, it
    fails with ValueError, at the assignment of the background row, after
    the two background factorization calls. *)
Theorem C8_count_mismatch_detected_late
        {G : Type} {B : Backend G}
        data_df conds counts aW aH t n seed (w : world G) :
  usable_data data_df conds aW aH t n ->
  Forall (fun c => exists k, dict_getitem counts c = inr k) conds ->
  Np.sum (replicate_counts counts conds) <> length (columns data_df) ->
  exists w',
    extract_mixing_matrix data_df conds counts aW aH t n seed w
    = (inl ValueError, w')
    /\ length (nmf_calls w') = length (nmf_calls w) + 2.
Proof. apply count_mismatch_late. Qed.

Lemma C8_witness :
  usable_data Example.data_df Example.conditions_list
              Example.alpha_W Example.alpha_H 1 2
  /\ Forall (fun c => exists k, dict_getitem Example.miscounted_ref c = inr k)
            Example.conditions_list
  /\ Np.sum (replicate_counts Example.miscounted_ref Example.conditions_list)
     <> length (columns Example.data_df)
  /\ exists w',
      extract_mixing_matrix (B := Reference.backend)
        Example.data_df Example.conditions_list Example.miscounted_ref
        Example.alpha_W Example.alpha_H 1 2 42 (Example.world_at 0)
      = (inl ValueError, w')
      /\ length (nmf_calls w') = length (nmf_calls (Example.world_at 0)) + 2.
Proof.
  assert (H1 : Forall (fun c => exists k, dict_getitem Example.miscounted_ref c = inr k)
                      Example.conditions_list).
  { simpl. repeat constructor; eexists; reflexivity. }
  assert (H2 : Np.sum (replicate_counts Example.miscounted_ref Example.conditions_list)
               <> length (columns Example.data_df)).
  { simpl. lia. }
  split; [exact example_usable|]. split; [exact H1|]. split; [exact H2|].
  exact (@C8_count_mismatch_detected_late nat Reference.backend _ _ _ _ _ _ _
           42%Z (Example.world_at 0) example_usable H1 H2).
Defined.

(** C8 as stated fails: with the samples of A and B in the other order than
    the conditions list (and counts that add up), nothing is detected and a
    mixing matrix is returned, whatever the backend. *)
Lemma C8_counterexample :
  layout_ok Example.misordered_df Example.conditions_list
            Example.conditions_counts_ref = false
  /\ forall (G : Type) (B : Backend G) (seed : Z) (w : world G),
      exists mm w',
        extract_mixing_matrix Example.misordered_df Example.conditions_list
          Example.conditions_counts_ref Example.alpha_W Example.alpha_H 1 2 seed w
        = (inr mm, w').
Proof.
  split; [reflexivity|].
  intros G B seed w. apply extract_mixing_matrix_total. exact misordered_valid.
Qed.



(** C10 (amended).  [extract_mixing_matrix_shared_unspecific] never returns
    a value: every call ends in an exception.  On usable data, where the bin
    selection and the control factorization succeed, the exception is the
    NameError of the unbound name [mm]. *)
Theorem C10_shared_unspecific_never_returns
        {G : Type} {B : Backend G}
        data_df conds counts aW aH t n seed (w : world G) :
  (exists e w',
      extract_mixing_matrix_shared_unspecific data_df conds counts aW aH t n seed w
      = (inl e, w'))
  /\ (usable_data data_df conds aW aH t n ->
      exists w',
        extract_mixing_matrix_shared_unspecific data_df conds counts aW aH t n seed w
        = (inl NameError, w')
        /\ length (nmf_calls w') = length (nmf_calls w) + 1).
Proof.
  split.
  - unfold extract_mixing_matrix_shared_unspecific.
    unfold bind at 1. unfold lift at 1.
    destruct (select_train_data data_df conds t n seed) as [e|train]; [eauto|].
    unfold bind at 1. unfold lift at 1.
    destruct (getitem conds 0) as [e|c0]; [eauto|].
    unfold bind at 1.
    destruct (NMF_fit_transform _ _ _ w) as [[e|(W, H)] w1]; [eauto|].
    unfold lift, raise. eauto.
  - intros Hdata.
    destruct (background_total seed w Hdata)
      as [c0 rest train Wu Hu w1 Wt Ht w2 sp ctrl treat coefs
            Hconds Htrain Htc Hcall1 Hcall2 Hcalls Hcl Hm2 Hcnn Hsp Hsps Hspnn].
    exists w1. unfold extract_mixing_matrix_shared_unspecific.
    rewrite (bind_lift_run _ _ Htrain). subst conds.
    rewrite (bind_lift_run _ _ (a := c0) eq_refl).
    rewrite (@bind_run _ _ _ _ _ _ _ _ Hcall1). cbv beta iota.
    split; [reflexivity|].
    unfold NMF_fit_transform in Hcall1. apply call_nnf_calls in Hcall1.
    rewrite Hcall1, length_app. reflexivity.
Qed.

(** C10 as stated fails: with fewer qualifying bins than requested, the
    exception is the ValueError of the sampler, not a NameError. *)
Lemma C10_counterexample :
  length (qualifying_bins Example.data_df "control" 1) < 3
  /\ forall (G : Type) (B : Backend G) (seed : Z) (w : world G),
      extract_mixing_matrix_shared_unspecific
        Example.data_df Example.conditions_list Example.conditions_counts_ref
        Example.alpha_W Example.alpha_H 1 3 seed w
      = (inl ValueError, w).
Proof.
  assert (Hfew : length (qualifying_bins Example.data_df "control" 1) < 3).
  { rewrite example_qualifying. simpl. lia. }
  split; [exact Hfew|].
  intros G B seed w. unfold extract_mixing_matrix_shared_unspecific.
  apply bind_lift_fail. apply select_train_data_too_few; [exact example_wf|].
  exact Hfew.
Qed.

(* ================================================================== *)
(** ** Further properties of the code *)

(* ================================================================== *)
(** ** Further properties of [extract_mixing_matrix] *)

Section SpecificLoopTrace.
Context {G : Type} {B : Backend G}.
Variables (alpha_W alpha_H : R) (specific_data_mat : matrix).
Variables (histone_n_replicates : list nat) (n_control_replicates : nat).

Let start (i : nat) : nat :=
  n_control_replicates + Np.sum (firstn i histone_n_replicates).

(** The calls of a loop that returns: one per condition, in order, each on
    the columns of its condition. *)
Lemma specific_loop_trace (l : list string) :
  forall s mm (w : world G) mm' w',
    specific_loop alpha_W alpha_H specific_data_mat histone_n_replicates
                  (combine (seq s (length l)) l) (start s) mm w = (inr mm', w') ->
    exists calls,
      nmf_calls w' = nmf_calls w ++ calls
      /\ length calls = length l
      /\ forall i c, nth_error calls i = Some c ->
           c = {| nnf_X := col_slice specific_data_mat
                                     (start (s + i)) (start (S (s + i)));
                  nnf_W := None; nnf_H := None;
                  nnf_n_components := 1; nnf_init := None;
                  nnf_update_H := true; nnf_solver := mu;
                  nnf_beta_loss := beta_number 1;
                  nnf_alpha_W := alpha_W; nnf_alpha_H := Some alpha_H;
                  nnf_max_iter := 200; nnf_random_state := None |}.
Proof.
  induction l as [|a l IH]; intros s mm w mm' w' Hrun.
  - simpl in Hrun. inversion Hrun; subst. exists []. rewrite app_nil_r.
    split; [reflexivity|]. split; [reflexivity|].
    intros [|i] c E; discriminate.
  - cbn [length seq combine specific_loop] in Hrun.
    apply bind_lift_inr in Hrun. destruct Hrun as (c & Hc & Hrun).
    apply getitem_inr in Hc.
    apply bind_inr in Hrun. destruct Hrun as ((W_spec, H_spec) & w1 & Hcall & Hrun).
    apply call_nnf_calls in Hcall.
    apply bind_lift_inr in Hrun. destruct Hrun as (mm1 & Hset & Hrun).
    assert (Hstart : start s + c = start (S s)).
    { unfold start. rewrite (sum_firstn_succ _ _ Hc). lia. }
    rewrite Hstart in Hrun, Hcall.
    destruct (IH _ _ _ _ _ Hrun) as (calls & Hc2 & Hlen & Hall).
    eexists (_ :: calls). split; [|split].
    + rewrite Hc2, Hcall, <- app_assoc. reflexivity.
    + simpl. now rewrite Hlen.
    + intros [|i] c' E.
      * simpl in E. inversion E; subst c'.
        rewrite Nat.add_0_r. reflexivity.
      * simpl in E. apply Hall in E.
        replace (s + S i) with (S s + i) by lia. exact E.
Qed.

End SpecificLoopTrace.

Lemma setitem_row0_value r c v :
  1 <= r -> length v = c ->
  exists mm0,
    setitem_row_slice (zeros r c) 0 0 c v = inr mm0 /\ nth_error mm0 0 = Some v.
Proof.
  intros Hr Hv. destruct r as [|r]; [lia|].
  unfold setitem_row_slice, zeros. cbn [repeat nth_error].
  unfold setitem_slice. rewrite slice_length, repeat_length, Nat.min_id, Nat.sub_0_r.
  rewrite (proj2 (Nat.eqb_eq _ _) Hv). cbn [rbind ok firstn app].
  eexists. split; [reflexivity|]. cbn [skipn nth_error].
  rewrite Nat.add_0_l, skipn_all2 by (rewrite repeat_length; lia).
  now rewrite app_nil_r.
Qed.

Lemma dict_getitem_fail {V} (d : dict V) k e :
  dict_getitem d k = inl e -> e = KeyError.
Proof.
  induction d as [|(k', v) d IH]; simpl.
  - intros E. now inversion E.
  - destruct (String.eqb k k'); [discriminate | exact IH].
Qed.

Lemma map_result_fail {A C} (f : A -> result C) (e : exn) l a :
  In a l -> f a = inl e ->
  (forall x e', f x = inl e' -> e' = e) ->
  map_result f l = inl e.
Proof.
  intros Hin Ha Hall. induction l as [|x l IH]; [contradiction|].
  simpl. destruct (f x) as [e'|b] eqn:Ex.
  - simpl. f_equal. eauto.
  - simpl. destruct Hin as [-> | Hin]; [congruence|].
    rewrite (IH Hin). reflexivity.
Qed.

Section BackgroundLayout.
Context {G : Type} {B : Backend G}.

(** The background coefficient row: one entry per control sample from the
    control factorization, then one entry per treatment sample. *)
Lemma background_coefficients data_df conds aW aH t n seed c0 train
      Wu Hu Wt Ht (w w1 w1' w2 : world G) :
  usable_data data_df conds aW aH t n ->
  nth_error conds 0 = Some c0 ->
  select_train_data data_df conds t n seed = inr train ->
  let control_cols := filter (fun c => startswith c c0) (columns data_df) in
  let treatment_cols :=
    filter (fun c => negb (str_in c control_cols)) (columns data_df) in
  NMF_fit_transform aW aH (values (loc_cols train control_cols)) w
  = (inr (Wu, Hu), w1) ->
  call_nnf {| nnf_X := transpose (values (loc_cols train treatment_cols));
              nnf_W := None; nnf_H := Some (reshape_1 Wu);
              nnf_n_components := 1; nnf_init := Some init_custom;
              nnf_update_H := false; nnf_solver := mu;
              nnf_beta_loss := beta_number 1;
              nnf_alpha_W := aW; nnf_alpha_H := None;
              nnf_max_iter := 200; nnf_random_state := None |} w1'
  = (inr (Wt, Ht), w2) ->
  length (flatten Hu) = length control_cols
  /\ length (flatten (transpose Wt)) = length treatment_cols.
Proof.
  intros [Hwf Hnn Hnd (c0' & rest & -> & (cc & Hcc & Hccp) & (ct & Hct & Hctp) & Hn1 & Hn2)
            Ht0 (HaW & HaH)] Hc0 Htrain control_cols treatment_cols Hcall1 Hcall2.
  simpl in Hc0. inversion Hc0; subst c0'.
  destruct (select_train_data_spec c0 rest t seed Hwf Hn2)
    as (train' & Htrain' & Htl & _ & Htc & _).
  rewrite Htrain in Htrain'. inversion Htrain'; subst train'.
  assert (Htreat : treatment_cols
                   = filter (fun c => negb (startswith c c0)) (columns data_df))
    by apply treatment_cols_filter.
  set (kc := length (flat_map (positions (columns train)) control_cols)).
  set (kt := length (flat_map (positions (columns train)) treatment_cols)).
  assert (Hkc : kc = length control_cols).
  { unfold kc. rewrite Htc. now apply selected_positions_length. }
  assert (Hkt : kt = length treatment_cols).
  { unfold kt. rewrite Htc, Htreat. now apply selected_positions_length. }
  assert (Hkt1 : 1 <= kt).
  { rewrite Hkt, Htreat. apply filter_nonempty with (x := ct); trivial.
    now rewrite Hctp. }
  pose proof (loc_cols_shape train control_cols) as HX1. rewrite Htl in HX1.
  fold kc in HX1.
  destruct (has_shape_dims HX1 Hn1) as (HX1r & HX1c).
  pose proof (loc_cols_shape train treatment_cols) as HX2. rewrite Htl in HX2.
  fold kt in HX2.
  pose proof (transpose_shape HX2 Hn1) as HX2T.
  destruct (has_shape_dims HX2T Hkt1) as (HX2r & HX2c).
  unfold NMF_fit_transform in Hcall1.
  apply call_nnf_inr in Hcall1. destruct Hcall1 as (_ & _ & HHu & _).
  apply call_nnf_inr in Hcall2. destruct Hcall2 as (_ & HWt & _).
  cbn [nnf_X nnf_n_components] in HHu, HWt.
  rewrite HX1c in HHu. rewrite HX2r in HWt.
  unfold flatten. split.
  - rewrite (concat_shape_length HHu). lia.
  - rewrite (concat_shape_length (transpose_shape HWt Hkt1)). lia.
Qed.

(** The control columns of the training data are not full of zeros: every
    training bin has a control value above the threshold. *)
Lemma control_data_positive data_df conds aW aH t n seed c0 train :
  usable_data data_df conds aW aH t n ->
  nth_error conds 0 = Some c0 ->
  select_train_data data_df conds t n seed = inr train ->
  has_positive
    (values (loc_cols train (filter (fun c => startswith c c0) (columns data_df)))).
Proof.
  intros [Hwf Hnn Hnd (c0' & rest & -> & _ & _ & Hn1 & Hn2) Ht0 _] Hc0 Htrain.
  simpl in Hc0. inversion Hc0; subst c0'.
  destruct (select_train_data_spec c0 rest t seed Hwf Hn2)
    as (train' & Htrain' & Htl & _ & Htc & Htrows).
  rewrite Htrain in Htrain'. inversion Htrain'; subst train'.
  destruct (values train) as [|row trows] eqn:Hvt; [simpl in Htl; lia|].
  assert (Hrow : In row (row :: trows)) by now left.
  pose proof (Htrows row Hrow) as Hq. unfold qualifying_bins in Hq.
  apply filter_In in Hq. destruct Hq as (Hin & Hq).
  destruct Hwf as (_ & Hw). rewrite Forall_forall in Hw.
  rewrite <- (@control_mask_qualifies (columns data_df) c0 t row (Hw row Hin)) in Hq.
  apply existsb_exists in Hq. destruct Hq as (x & Hx & Hgt).
  apply Rgtb_spec in Hgt.
  unfold has_positive, loc_cols. cbn [values]. rewrite Hvt. cbn [map].
  apply Exists_cons_hd. apply Exists_exists. exists x.
  split; [|lra]. now rewrite Htc.
Qed.

End BackgroundLayout.

(** On a valid input: the run, its two background factorizations and row 0
    of the result. *)
Lemma mixing_matrix_background_row
        {G : Type} {B : Backend G}
        data_df conds counts aW aH t n seed (w : world G) :
  valid_input data_df conds counts aW aH t n ->
  exists mm w' c0 train_data W_unspec H_unspec w1 W_treat_uns H_treat_uns w2,
    let control_cols := filter (fun c => startswith c c0) (columns data_df) in
    let treatment_cols :=
      filter (fun c => negb (str_in c control_cols)) (columns data_df) in
    extract_mixing_matrix data_df conds counts aW aH t n seed w = (inr mm, w')
    /\ nth_error conds 0 = Some c0
    /\ index mm = "unspecific"%string :: skipn 1 conds
    /\ select_train_data data_df conds t n seed = inr train_data
    /\ NMF_fit_transform aW aH (values (loc_cols train_data control_cols)) w
       = (inr (W_unspec, H_unspec), w1)
    /\ call_nnf {| nnf_X := transpose (values (loc_cols train_data treatment_cols));
                   nnf_W := None; nnf_H := Some (reshape_1 W_unspec);
                   nnf_n_components := 1; nnf_init := Some init_custom;
                   nnf_update_H := false; nnf_solver := mu;
                   nnf_beta_loss := beta_number 1;
                   nnf_alpha_W := aW; nnf_alpha_H := None;
                   nnf_max_iter := 200; nnf_random_state := None |} w1
       = (inr (W_treat_uns, H_treat_uns), w2)
    /\ length (flatten H_unspec) = length control_cols
    /\ length (flatten (transpose W_treat_uns)) = length treatment_cols
    /\ nth_error (values mm) 0
       = Some (flatten H_unspec ++ flatten (transpose W_treat_uns))%list
    /\ has_positive H_unspec.
Proof.
  intros [Hdata Hcounts Htotal].
  pose proof (ud_alpha Hdata) as (HaW & HaH).
  destruct (background_total seed w Hdata)
    as [c0 rest train Wu Hu w1 Wt Ht w2 sp ctrl treat coefs
          Hconds Htrain Htc Hcall1 Hcall2 Hcalls Hcl Hm2 Hcnn Hsp Hsps Hspnn].
  destruct (map_result_total _ (fun k => 1 <= k) Hcounts) as (nrep & Hnrep & Hpos).
  pose proof (map_result_inr _ 0 _ Hnrep) as Hrc.
  fold (replicate_counts counts conds) in Hrc. rewrite <- Hrc in Htotal.
  assert (Hlen : length nrep = length conds).
  { rewrite Hrc. unfold replicate_counts. apply length_map. }
  destruct nrep as [|n0 hist]; [subst conds; discriminate|].
  assert (Hlh : length hist = length rest).
  { subst conds. simpl in Hlen. lia. }
  assert (Hlc : length conds = S (length rest)) by (subst conds; reflexivity).
  destruct (@setitem_row0_value (length conds) (Np.sum (n0 :: hist)) coefs)
    as (mm0 & Hmm0 & Hrow0); [lia | congruence |].
  assert (Hshape0 : has_shape mm0 (length conds) (Np.sum (n0 :: hist))).
  { eapply setitem_row_slice_shape; eauto. apply zeros_shape. }
  rewrite <- Htotal in Hsps.
  destruct (@specific_loop_total G B aW aH sp hist n0 n (Np.sum (n0 :: hist))
              (length conds) HaW HaH Hsps Hspnn
              ltac:(destruct (ud_control Hdata) as (? & ? & ? & ? & ? & ?); lia)
              ltac:(now inversion Hpos) rest 0 mm0 w2 Hshape0)
    as (mm1 & w' & Hloop); try (simpl; lia).
  { rewrite Nat.add_0_l, <- Hlh, sum_firstn_all. simpl. lia. }
  destruct (specific_loop_inv _ _ _ _ _ _ _ _ Hloop Hshape0)
    as (Hshape1 & _ & Hkeep & _ & _).
  exists (mkDataFrame ("unspecific"%string :: rest) (columns train) mm1), w',
         c0, train, Wu, Hu, w1, Wt, Ht, w2.
  cbv zeta. fold ctrl. fold treat. fold coefs.
  split.
  { unfold extract_mixing_matrix.
    rewrite (bind_lift_run _ _ Htrain). subst conds.
    rewrite (bind_lift_run _ _ (a := c0) eq_refl).
    rewrite (@bind_run _ _ _ _ _ _ _ _ Hcall1). cbv beta iota.
    rewrite (@bind_run _ _ _ _ _ _ _ _ Hcall2). cbv beta iota.
    rewrite (bind_lift_run _ _ Hsp).
    rewrite (bind_lift_run _ _ Hnrep).
    rewrite (bind_lift_run _ _ (a := n0) eq_refl).
    rewrite (bind_lift_run _ _ Hmm0).
    simpl in Hloop.
    replace (n0 + 0) with n0 in Hloop by lia.
    unfold enumerate. cbn [skipn].
    rewrite (@bind_run _ _ _ _ _ _ _ _ Hloop).
    unfold lift. f_equal. apply make_total.
    - destruct Hshape1 as (-> & _). reflexivity.
    - destruct Hshape1 as (_ & Hc). rewrite Htc, <- Htotal. exact Hc. }
  subst conds. cbn [nth_error skipn index values].
  split; [reflexivity|]. split; [reflexivity|]. split; [exact Htrain|].
  split; [exact Hcall1|]. split; [exact Hcall2|].
  destruct (@background_coefficients G B data_df (c0 :: rest) aW aH t n seed c0 train
              Wu Hu Wt Ht w w1 w1 w2 Hdata eq_refl Htrain Hcall1 Hcall2) as (L1 & L2).
  split; [exact L1|]. split; [exact L2|]. split.
  - change (nth_error mm1 0 = Some coefs).
    rewrite (Hkeep 0 (le_n 0)). exact Hrow0.
  - pose proof (@control_data_positive G B data_df (c0 :: rest) aW aH t n seed c0 train
                  Hdata eq_refl Htrain) as HXpos.
    unfold NMF_fit_transform in Hcall1.
    exact (proj2 (call_nnf_positive _ _ Hcall1 HXpos)).
Qed.

(** X1.  On every valid input [extract_mixing_matrix] returns a mixing
    matrix whose rows are labelled ["unspecific"] followed by the treatment
    conditions, and whose row 0 is the background coefficient vector: the
    components of the control factorization (one per control sample)
    followed by the coefficients of the treatment samples from the second
    factorization, which holds the control signal fixed.  The loop over the
    treatment conditions leaves that row untouched. *)
Theorem X1_background_row
        {G : Type} {B : Backend G}
        data_df conds counts aW aH t n seed (w : world G) :
  valid_input data_df conds counts aW aH t n ->
  exists mm w' c0 train_data W_unspec H_unspec w1 W_treat_uns H_treat_uns w2,
    let control_cols := filter (fun c => startswith c c0) (columns data_df) in
    let treatment_cols :=
      filter (fun c => negb (str_in c control_cols)) (columns data_df) in
    extract_mixing_matrix data_df conds counts aW aH t n seed w = (inr mm, w')
    /\ nth_error conds 0 = Some c0
    /\ index mm = "unspecific"%string :: skipn 1 conds
    /\ select_train_data data_df conds t n seed = inr train_data
    /\ NMF_fit_transform aW aH (values (loc_cols train_data control_cols)) w
       = (inr (W_unspec, H_unspec), w1)
    /\ call_nnf {| nnf_X := transpose (values (loc_cols train_data treatment_cols));
                   nnf_W := None; nnf_H := Some (reshape_1 W_unspec);
                   nnf_n_components := 1; nnf_init := Some init_custom;
                   nnf_update_H := false; nnf_solver := mu;
                   nnf_beta_loss := beta_number 1;
                   nnf_alpha_W := aW; nnf_alpha_H := None;
                   nnf_max_iter := 200; nnf_random_state := None |} w1
       = (inr (W_treat_uns, H_treat_uns), w2)
    /\ length (flatten H_unspec) = length control_cols
    /\ length (flatten (transpose W_treat_uns)) = length treatment_cols
    /\ nth_error (values mm) 0
       = Some (flatten H_unspec ++ flatten (transpose W_treat_uns))%list.
Proof.
  intros Hvalid.
  destruct (mixing_matrix_background_row seed w Hvalid)
    as (mm & w' & c0 & train & Wu & Hu & w1 & Wt & Ht & w2
        & H1 & H2 & H3 & H4 & H5 & H6 & H7 & H8 & H9 & _).
  exists mm, w', c0, train, Wu, Hu, w1, Wt, Ht, w2. cbv zeta. auto 10.
Qed.

Lemma X1_witness :
  valid_input Example.data_df Example.conditions_list Example.conditions_counts_ref
              Example.alpha_W Example.alpha_H 1 2
  /\ exists mm w' row0,
      extract_mixing_matrix (B := Reference.backend)
        Example.data_df Example.conditions_list Example.conditions_counts_ref
        Example.alpha_W Example.alpha_H 1 2 42 Example.w0 = (inr mm, w')
      /\ index mm = ["unspecific"; "A"; "B"]%string
      /\ nth_error (values mm) 0 = Some row0
      /\ length row0 = 3.
Proof.
  split; [exact example_valid|].
  destruct (@X1_background_row nat Reference.backend _ _ _ _ _ _ _ 42%Z Example.w0
              example_valid)
    as (mm & w' & c0 & train & Wu & Hu & w1 & Wt & Ht & w2
        & Hrun & Hc0 & Hidx & _ & _ & _ & L1 & L2 & Hrow).
  exists mm, w', (flatten Hu ++ flatten (transpose Wt))%list.
  split; [exact Hrun|]. split; [exact Hidx|]. split; [exact Hrow|].
  rewrite length_app, L1, L2. inversion Hc0; subst c0. reflexivity.
Defined.

(** X2.  A run of [extract_mixing_matrix] that returns has made exactly
    [len(conditions_list) + 1] factorization calls, recorded in this order:
    the control factorization on the control columns of the training data,
    which returns [(W_unspec, H_unspec)]; the call on the transposed
    treatment columns with that [W_unspec] as the fixed [H]
    ([update_H=False]), which returns [W_treat_uns]; then one call per
    treatment condition, in list order, each with one component and neither
    [init] nor [random_state], on the column slice of that condition in the
    residual: the training data minus the outer product of [W_unspec] and
    the coefficients [H_unspec] followed by [W_treat_uns], capped at zero. *)
Theorem X2_factorization_calls
        {G : Type} {B : Backend G}
        data_df conds counts aW aH t n seed (w : world G) mm w' :
  extract_mixing_matrix data_df conds counts aW aH t n seed w = (inr mm, w') ->
  exists c0 train_data W_unspec H_unspec w1 W_treat_uns H_treat_uns w2 sp calls,
    let control_cols := filter (fun c => startswith c c0) (columns data_df) in
    let treatment_cols :=
      filter (fun c => negb (str_in c control_cols)) (columns data_df) in
    let c1 := {| nnf_X := values (loc_cols train_data control_cols);
                 nnf_W := None; nnf_H := None;
                 nnf_n_components := 1; nnf_init := Some init_random;
                 nnf_update_H := true; nnf_solver := mu;
                 nnf_beta_loss := beta_number 1;
                 nnf_alpha_W := aW; nnf_alpha_H := Some aH;
                 nnf_max_iter := 200; nnf_random_state := Some 0%Z |} in
    let c2 := {| nnf_X := transpose (values (loc_cols train_data treatment_cols));
                 nnf_W := None; nnf_H := Some (reshape_1 W_unspec);
                 nnf_n_components := 1; nnf_init := Some init_custom;
                 nnf_update_H := false; nnf_solver := mu;
                 nnf_beta_loss := beta_number 1;
                 nnf_alpha_W := aW; nnf_alpha_H := None;
                 nnf_max_iter := 200; nnf_random_state := None |} in
    nth_error conds 0 = Some c0
    /\ select_train_data data_df conds t n seed = inr train_data
    /\ call_nnf c1 w = (inr (W_unspec, H_unspec), w1)
    /\ call_nnf c2 w1 = (inr (W_treat_uns, H_treat_uns), w2)
    /\ specific_data (values train_data) W_unspec
                     (flatten H_unspec ++ flatten (transpose W_treat_uns))
       = inr sp
    /\ nmf_calls w' = nmf_calls w ++ c1 :: c2 :: calls
    /\ length calls = length conds - 1
    /\ forall i c, nth_error calls i = Some c ->
         c = {| nnf_X := col_slice sp (slice_start counts conds i)
                                   (slice_stop counts conds i);
                nnf_W := None; nnf_H := None;
                nnf_n_components := 1; nnf_init := None;
                nnf_update_H := true; nnf_solver := mu;
                nnf_beta_loss := beta_number 1;
                nnf_alpha_W := aW; nnf_alpha_H := Some aH;
                nnf_max_iter := 200; nnf_random_state := None |}.
Proof.
  intros Hrun. apply extract_mixing_matrix_inv in Hrun.
  destruct Hrun as [c0 rest train Wu Hu w1 Wt Ht w2 sp n0 hist mm0 mm1
                      ctrl treat coefs total
                      Hconds Htrain Hcall1 Hcall2 HS Hcounts Hrow0 Hloop Hmk].
  unfold NMF_fit_transform in Hcall1.
  pose proof (call_nnf_calls _ _ Hcall1) as Hc1.
  pose proof (call_nnf_calls _ _ Hcall2) as Hc2.
  unfold enumerate in Hloop.
  pose proof (@specific_loop_trace G B aW aH sp hist n0 rest 0 mm0 w2 mm1 w') as Htr.
  cbn [firstn Np.sum fold_right] in Htr. rewrite Nat.add_0_r in Htr.
  destruct (Htr Hloop) as (calls & Hc3 & Hlen & Hall).
  exists c0, train, Wu, Hu, w1, Wt, Ht, w2, sp, calls. cbv zeta.
  subst conds. split; [reflexivity|]. split; [exact Htrain|].
  split; [exact Hcall1|]. split; [exact Hcall2|]. split; [exact HS|].
  split.
  { rewrite Hc3, Hc2, Hc1, <- !app_assoc. reflexivity. }
  split; [simpl; lia|].
  intros i c E. rewrite (Hall i c E). unfold slice_start, slice_stop.
  pose proof (map_result_inr _ 0 _ Hcounts) as Hrc.
  fold (replicate_counts counts (c0 :: rest)) in Hrc. rewrite <- Hrc.
  reflexivity.
Qed.

Lemma X2_witness :
  exists mm w',
    extract_mixing_matrix (B := Reference.backend)
      Example.data_df Example.conditions_list Example.conditions_counts_ref
      Example.alpha_W Example.alpha_H 1 2 42 Example.w0 = (inr mm, w')
    /\ length (nmf_calls w') = 4.
Proof.
  destruct (@extract_mixing_matrix_total nat Reference.backend _ _ _ _ _ _ _ 42%Z
              Example.w0 example_valid) as (mm & w' & Hrun).
  exists mm, w'. split; [exact Hrun|].
  destruct (X2_factorization_calls _ _ _ _ _ _ _ _ _ Hrun)
    as (c0 & train & Wu & Hu & w1 & Wt & Ht & w2 & sp & calls
        & _ & _ & _ & _ & _ & Hcalls & Hlen & _).
  rewrite Hcalls. simpl. rewrite Hlen. reflexivity.
Defined.

(** X3.  On usable data, a condition without an entry in
    [conditions_counts_ref] makes [extract_mixing_matrix] raise KeyError,
    and only after the two background factorizations have run (the counts
    are looked up at line 56). *)
Theorem X3_missing_count_detected_late
        {G : Type} {B : Backend G}
        data_df conds counts aW aH t n seed (w : world G) c :
  usable_data data_df conds aW aH t n ->
  In c conds ->
  dict_getitem counts c = inl KeyError ->
  exists w',
    extract_mixing_matrix data_df conds counts aW aH t n seed w = (inl KeyError, w')
    /\ length (nmf_calls w') = length (nmf_calls w) + 2.
Proof.
  intros Hdata Hin Hc.
  destruct (background_total seed w Hdata)
    as [c0 rest train Wu Hu w1 Wt Ht w2 sp ctrl treat coefs
          Hconds Htrain Htc Hcall1 Hcall2 Hcalls Hcl Hm2 Hcnn Hsp Hsps Hspnn].
  exists w2. split; [|exact Hcalls].
  unfold extract_mixing_matrix.
  rewrite (bind_lift_run _ _ Htrain). subst conds.
  rewrite (bind_lift_run _ _ (a := c0) eq_refl).
  rewrite (@bind_run _ _ _ _ _ _ _ _ Hcall1). cbv beta iota.
  rewrite (@bind_run _ _ _ _ _ _ _ _ Hcall2). cbv beta iota.
  rewrite (bind_lift_run _ _ Hsp).
  apply bind_lift_fail.
  apply map_result_fail with (a := c); trivial.
  intros x e'. apply dict_getitem_fail.
Qed.

Lemma X3_witness :
  usable_data Example.data_df Example.conditions_list
              Example.alpha_W Example.alpha_H 1 2
  /\ In "B"%string Example.conditions_list
  /\ dict_getitem [("control", 1); ("A", 1)]%string "B" = inl KeyError
  /\ exists w',
      extract_mixing_matrix (B := Reference.backend)
        Example.data_df Example.conditions_list [("control", 1); ("A", 1)]%string
        Example.alpha_W Example.alpha_H 1 2 42 Example.w0 = (inl KeyError, w')
      /\ length (nmf_calls w') = length (nmf_calls Example.w0) + 2.
Proof.
  assert (Hin : In "B"%string Example.conditions_list) by (simpl; auto).
  split; [exact example_usable|]. split; [exact Hin|]. split; [reflexivity|].
  exact (@X3_missing_count_detected_late nat Reference.backend _ _
           [("control", 1); ("A", 1)]%string _ _ _ _ 42%Z
           Example.w0 "B"%string example_usable Hin eq_refl).
Defined.

(* ================================================================== *)
(** ** The specific rows of the mixing matrix *)

Section SpecificLoopBlocks.
Context {G : Type} {B : Backend G}.
Variables (alpha_W alpha_H : R) (specific_data_mat : matrix).
Variables (histone_n_replicates : list nat) (n_control_replicates : nat).

Let start (i : nat) : nat :=
  n_control_replicates + Np.sum (firstn i histone_n_replicates).

(** The worlds of a loop that returns, one before each iteration and the
    last after the loop: iteration [i] runs its factorization in world [i],
    assigns the components to the slice of row [i + 1], and no other
    iteration touches that row. *)
Lemma specific_loop_blocks (l : list string) :
  forall s mm (w : world G) mm' w' rows cols,
    specific_loop alpha_W alpha_H specific_data_mat histone_n_replicates
                  (combine (seq s (length l)) l) (start s) mm w = (inr mm', w') ->
    has_shape mm rows cols ->
    exists worlds,
      length worlds = S (length l)
      /\ nth_error worlds 0 = Some w
      /\ nth_error worlds (length l) = Some w'
      /\ forall i, i < length l ->
           exists W H_spec wa wb row row',
             nth_error worlds i = Some wa
             /\ nth_error worlds (S i) = Some wb
             /\ call_nnf {| nnf_X := col_slice specific_data_mat
                                                (start (s + i)) (start (S (s + i)));
                             nnf_W := None; nnf_H := None;
                             nnf_n_components := 1; nnf_init := None;
                             nnf_update_H := true; nnf_solver := mu;
                             nnf_beta_loss := beta_number 1;
                             nnf_alpha_W := alpha_W; nnf_alpha_H := Some alpha_H;
                             nnf_max_iter := 200; nnf_random_state := None |} wa
                = (inr (W, [H_spec]), wb)
             /\ nth_error mm (s + i + 1) = Some row
             /\ setitem_slice row (start (s + i)) (start (S (s + i))) H_spec = inr row'
             /\ nth_error mm' (s + i + 1) = Some row'.
Proof.
  induction l as [|a l IH]; intros s mm w mm' w' rows cols Hrun Hshape.
  - simpl in Hrun. inversion Hrun; subst. exists [w'].
    split; [reflexivity|]. split; [reflexivity|]. split; [reflexivity|].
    intros i Hi. simpl in Hi. lia.
  - cbn [length seq combine specific_loop] in Hrun.
    apply bind_lift_inr in Hrun. destruct Hrun as (c & Hc & Hrun).
    apply getitem_inr in Hc.
    apply bind_inr in Hrun. destruct Hrun as ((W_spec, H_spec) & w1 & Hcall & Hrun).
    apply bind_lift_inr in Hrun. destruct Hrun as (mm1 & Hset & Hrun).
    apply rbind_inr in Hset. destruct Hset as (v & Hv & Hset).
    apply as_1d_inr in Hv. subst H_spec.
    assert (Hstart : start s + c = start (S s)).
    { unfold start. rewrite (sum_firstn_succ _ _ Hc). lia. }
    rewrite Hstart in Hrun, Hset, Hcall.
    assert (Hshape1 : has_shape mm1 rows cols) by (eapply setitem_row_slice_shape; eauto).
    destruct (IH _ _ _ _ _ _ _ Hrun Hshape1) as (worlds & Hlen & Hfirst & Hlast & Hall).
    exists (w :: worlds).
    split; [simpl; now rewrite Hlen|]. split; [reflexivity|].
    split; [exact Hlast|].
    intros [|i] Hi.
    + pose proof Hset as Hset'.
      apply setitem_row_slice_inv in Hset'.
      destruct Hset' as (row & row' & Hrow & Hslice & Hmm1).
      destruct (specific_loop_inv _ _ _ _ _ _ _ _ Hrun Hshape1) as (_ & _ & Hkeep & _).
      exists W_spec, v, w, w1, row, row'. rewrite !Nat.add_0_r.
      split; [reflexivity|]. split; [exact Hfirst|]. split; [exact Hcall|].
      split; [exact Hrow|]. split; [exact Hslice|].
      rewrite Hkeep by lia. subst mm1.
      rewrite nth_error_replace by (apply nth_error_Some; congruence).
      now rewrite Nat.eqb_refl.
    + cbn [length] in Hi.
      destruct (Hall i ltac:(lia))
        as (W & H' & wa & wb & row & row' & H1 & H2 & H3 & H4 & H5 & H6).
      exists W, H', wa, wb, row, row'.
      replace (s + S i) with (S s + i) by lia.
      split; [exact H1|]. split; [exact H2|]. split; [exact H3|].
      split; [|auto].
      rewrite <- H4. symmetry. eapply setitem_row_slice_other; eauto. lia.
Qed.

End SpecificLoopBlocks.

Lemma slice_of_splice {A} (pre mid post : list A) a b :
  length pre = a -> length mid = b - a -> a <= b ->
  slice (pre ++ mid ++ post) a b = mid.
Proof.
  intros Hp Hm Hab. unfold slice.
  rewrite app_assoc, firstn_app, firstn_all2 by (rewrite length_app; lia).
  rewrite length_app. replace (b - (length pre + length mid)) with 0 by lia.
  cbn [firstn]. rewrite app_nil_r.
  rewrite skipn_app, skipn_all2 by lia.
  replace (a - length pre) with 0 by lia. reflexivity.
Qed.

Lemma zeros_row r c k : k < r -> nth_error (zeros r c) k = Some (repeat 0%R c).
Proof.
  intros Hk. unfold zeros.
  rewrite (nth_error_nth' _ (repeat 0%R c)) by (rewrite repeat_length; exact Hk).
  f_equal. apply nth_repeat.
Qed.

(** X4.  On every valid input [extract_mixing_matrix] returns, and its run
    goes through the worlds [w2 = worlds[0], ..., worlds[k] = w'] after the
    two background factorizations: for every treatment condition [i] the
    factorization of the column slice of that condition in the residual of
    the run (the training data minus the background, capped at zero) runs
    in world [i] and returns components [H_spec], one per replicate of the
    condition, and the entries of row [i + 1] of the returned mixing matrix
    inside that slice are exactly these components. *)
Theorem X4_specific_rows_hold_components
        {G : Type} {B : Backend G}
        data_df conds counts aW aH t n seed (w : world G) :
  valid_input data_df conds counts aW aH t n ->
  exists mm w' c0 train_data W_unspec H_unspec w1 W_treat_uns H_treat_uns w2
         sp worlds,
    let control_cols := filter (fun c => startswith c c0) (columns data_df) in
    let treatment_cols :=
      filter (fun c => negb (str_in c control_cols)) (columns data_df) in
    extract_mixing_matrix data_df conds counts aW aH t n seed w = (inr mm, w')
    /\ nth_error conds 0 = Some c0
    /\ select_train_data data_df conds t n seed = inr train_data
    /\ NMF_fit_transform aW aH (values (loc_cols train_data control_cols)) w
       = (inr (W_unspec, H_unspec), w1)
    /\ call_nnf {| nnf_X := transpose (values (loc_cols train_data treatment_cols));
                   nnf_W := None; nnf_H := Some (reshape_1 W_unspec);
                   nnf_n_components := 1; nnf_init := Some init_custom;
                   nnf_update_H := false; nnf_solver := mu;
                   nnf_beta_loss := beta_number 1;
                   nnf_alpha_W := aW; nnf_alpha_H := None;
                   nnf_max_iter := 200; nnf_random_state := None |} w1
       = (inr (W_treat_uns, H_treat_uns), w2)
    /\ specific_data (values train_data) W_unspec
                     (flatten H_unspec ++ flatten (transpose W_treat_uns))
       = inr sp
    /\ length worlds = length conds
    /\ nth_error worlds 0 = Some w2
    /\ nth_error worlds (length conds - 1) = Some w'
    /\ forall i, i < length conds - 1 ->
         exists W H_spec wa wb,
           nth_error worlds i = Some wa
           /\ nth_error worlds (S i) = Some wb
           /\ call_nnf {| nnf_X := col_slice sp (slice_start counts conds i)
                                              (slice_stop counts conds i);
                          nnf_W := None; nnf_H := None;
                          nnf_n_components := 1; nnf_init := None;
                          nnf_update_H := true; nnf_solver := mu;
                          nnf_beta_loss := beta_number 1;
                          nnf_alpha_W := aW; nnf_alpha_H := Some aH;
                          nnf_max_iter := 200; nnf_random_state := None |} wa
              = (inr (W, [H_spec]), wb)
           /\ length H_spec = slice_stop counts conds i - slice_start counts conds i
           /\ slice (nth (i + 1) (values mm) []) (slice_start counts conds i)
                    (slice_stop counts conds i) = H_spec.
Proof.
  intros Hvalid. pose proof Hvalid as [Hdata Hcounts Htotal].
  destruct (extract_mixing_matrix_total seed w Hvalid) as (mm & w' & Hrun).
  pose proof Hrun as Hinv. apply extract_mixing_matrix_inv in Hinv.
  destruct Hinv as [c0 rest train Wu Hu w1 Wt Ht w2 sp n0 hist mm0 mm1
                      ctrl treat coefs total
                      Hconds Htrain Hcall1 Hcall2 HS Hcnt Hrow0 Hloop Hmk].
  destruct (background_total seed w Hdata)
    as [c0' rest' train' Wu' Hu' w1' Wt' Ht' w2' sp' ctrl' treat' coefs'
          Hconds' Htrain' Htc Hcall1' Hcall2' Hcalls Hcl Hm2 Hcnn Hsp' Hsps Hspnn].
  rewrite Hconds in Hconds'. inversion Hconds'; subst c0' rest'.
  rewrite Htrain in Htrain'. inversion Htrain'; subst train'.
  assert (E1 : (inr (Wu, Hu), w1) = (inr (Wu', Hu'), w1') :> result (matrix * matrix) * world G)
    by (rewrite <- Hcall1, <- Hcall1'; reflexivity).
  inversion E1; subst Wu' Hu' w1'.
  assert (E2 : (inr (Wt, Ht), w2) = (inr (Wt', Ht'), w2') :> result (matrix * matrix) * world G)
    by (rewrite <- Hcall2, <- Hcall2'; reflexivity).
  inversion E2; subst Wt' Ht' w2'.
  assert (E3 : inr sp = inr sp' :> result matrix)
    by (rewrite <- HS, <- Hsp'; reflexivity).
  inversion E3; subst sp'.
  pose proof (map_result_inr _ 0 _ Hcnt) as Hrc.
  fold (replicate_counts counts conds) in Hrc.
  assert (Htot : total = length (columns data_df)).
  { unfold total. rewrite Hrc. exact Htotal. }
  assert (Hlen : length (n0 :: hist) = length conds).
  { rewrite Hrc. unfold replicate_counts. apply length_map. }
  assert (Hlh : length hist = length rest).
  { subst conds. simpl in Hlen. lia. }
  assert (Hlc : length conds = S (length rest)) by (subst conds; reflexivity).
  assert (Hshape0 : has_shape mm0 (length conds) total).
  { eapply setitem_row_slice_shape; eauto. apply zeros_shape. }
  apply make_inr in Hmk. destruct Hmk as (-> & _ & _).
  unfold enumerate in Hloop.
  pose proof (@specific_loop_blocks G B aW aH sp hist n0 rest 0 mm0 w2 mm1 w'
                (length conds) total) as Hblocks.
  assert (Hloop' : specific_loop aW aH sp hist (combine (seq 0 (length rest)) rest)
                     (n0 + Np.sum (firstn 0 hist)) mm0 w2 = (inr mm1, w')).
  { cbn [firstn Np.sum fold_right]. rewrite Nat.add_0_r. exact Hloop. }
  destruct (Hblocks Hloop' Hshape0) as (worlds & Hwl & Hw0 & Hwk & Hall).
  exists (mkDataFrame ("unspecific"%string :: rest) (columns train) mm1), w',
         c0, train, Wu, Hu, w1, Wt, Ht, w2, sp, worlds.
  cbv zeta. fold ctrl. fold treat. fold coefs.
  split; [exact Hrun|]. split; [subst conds; reflexivity|].
  split; [exact Htrain|]. split; [exact Hcall1|]. split; [exact Hcall2|].
  split; [exact HS|]. split; [congruence|]. split; [exact Hw0|].
  split; [rewrite Hlc; cbn [Nat.sub]; rewrite Nat.sub_0_r; exact Hwk|].
  intros i Hi.
  assert (Hi' : i < length rest) by lia.
  destruct (Hall i Hi')
    as (W & v & wa & wb & row & row' & Hwa & Hwb & Hcall & Hrow & Hset & Hrow').
  cbn [Nat.add] in Hcall, Hrow, Hset, Hrow'.
  set (a := n0 + Np.sum (firstn i hist)) in *.
  set (b := n0 + Np.sum (firstn (S i) hist)) in *.
  assert (Ha : slice_start counts conds i = a).
  { unfold slice_start. rewrite <- Hrc. reflexivity. }
  assert (Hb : slice_stop counts conds i = b).
  { unfold slice_stop. rewrite <- Hrc. reflexivity. }
  assert (Hab : a <= b).
  { unfold a, b. apply Nat.add_le_mono_l, sum_firstn_mono. lia. }
  assert (Hbt : b <= total).
  { unfold b, total. cbn [Np.sum fold_right]. apply Nat.add_le_mono_l.
    change (fold_right Nat.add 0 hist) with (Np.sum hist).
    rewrite <- (sum_firstn_all hist). apply sum_firstn_mono. lia. }
  assert (Hn1 : 1 <= n).
  { destruct (ud_control Hdata) as (? & ? & ? & ? & ? & ?). lia. }
  assert (Hv : length v = b - a).
  { pose proof Hcall as Hcall'.
    apply call_nnf_inr in Hcall'. destruct Hcall' as (_ & _ & (_ & HHc) & _).
    assert (Hslice : has_shape (col_slice sp a b) n (b - a)).
    { apply col_slice_shape with (c := total); trivial. now rewrite Htot. }
    destruct (has_shape_dims Hslice Hn1) as (_ & Hnc).
    inversion HHc as [|? ? Hlv _]. rewrite Hlv. exact Hnc. }
  assert (Hzero : row = repeat 0%R total).
  { rewrite (@setitem_row_slice_other _ _ _ _ _ _ (i + 1) Hrow0) in Hrow by lia.
    rewrite zeros_row in Hrow by lia.
    now inversion Hrow. }
  exists W, v, wa, wb. rewrite Ha, Hb.
  split; [exact Hwa|]. split; [exact Hwb|]. split; [exact Hcall|].
  split; [exact Hv|].
  cbn [values]. rewrite (nth_error_nth _ _ [] Hrow').
  unfold setitem_slice in Hset.
  rewrite slice_length, Hzero, repeat_length in Hset.
  replace (Nat.min b total - a) with (b - a) in Hset by lia.
  rewrite (proj2 (Nat.eqb_eq _ _) Hv) in Hset. inversion Hset.
  apply slice_of_splice; trivial.
  rewrite length_firstn, repeat_length. lia.
Qed.

Lemma X4_witness :
  valid_input Example.data_df Example.conditions_list Example.conditions_counts_ref
              Example.alpha_W Example.alpha_H 1 2
  /\ exists mm w' H_spec,
      extract_mixing_matrix (B := Reference.backend)
        Example.data_df Example.conditions_list Example.conditions_counts_ref
        Example.alpha_W Example.alpha_H 1 2 42 Example.w0 = (inr mm, w')
      /\ slice (nth 2 (values mm) []) 2 3 = H_spec
      /\ length H_spec = 1.
Proof.
  split; [exact example_valid|].
  destruct (@X4_specific_rows_hold_components nat Reference.backend _ _ _ _ _ _ _
              42%Z Example.w0 example_valid)
    as (mm & w' & c0 & train & Wu & Hu & w1 & Wt & Ht & w2 & sp & worlds
        & Hrun & _ & _ & _ & _ & _ & _ & _ & _ & Hall).
  destruct (Hall 1 ltac:(simpl; lia))
    as (W & H_spec & wa & wb & _ & _ & _ & Hlen & Hs).
  exists mm, w', H_spec. split; [exact Hrun|]. split; [exact Hs | exact Hlen].
Defined.

(* ================================================================== *)
(** ** The coverage threshold *)

Lemma mask_select_mono {A} (m1 m2 : list bool) (l : list A) :
  Forall2 (fun b2 b1 => b2 = true -> b1 = true) m2 m1 ->
  length (mask_select m2 l) <= length (mask_select m1 l).
Proof.
  intros H. revert l. induction H as [|b2 b1 m2 m1 Hb _ IH]; intros l; [simpl; lia|].
  destruct l as [|x l]; [simpl; lia|]. specialize (IH l).
  destruct b2; simpl.
  - rewrite (Hb eq_refl). simpl. lia.
  - destruct b1; simpl; lia.
Qed.

Lemma any_gt_mono df (t1 t2 : R) :
  (t1 <= t2)%R ->
  Forall2 (fun b2 b1 => b2 = true -> b1 = true) (any_gt df t2) (any_gt df t1).
Proof.
  intros Ht. unfold any_gt. induction (values df) as [|row rows IH]; simpl; constructor.
  - intros E. apply existsb_exists in E. destruct E as (x & Hx & Hgt).
    apply existsb_exists. exists x. split; [exact Hx|].
    apply Rgtb_spec in Hgt. apply Rgtb_true. lra.
  - exact IH.
Qed.

Section Threshold.
Context {G : Type} {B : Backend G}.

Lemma select_train_data_mono data_df conds (t1 t2 : R) n seed1 seed2 :
  (t1 <= t2)%R ->
  select_train_data data_df conds t1 n seed1 = inl ValueError ->
  select_train_data data_df conds t2 n seed2 = inl ValueError.
Proof.
  intros Ht. unfold select_train_data, select_dsel.
  destruct conds as [|c0 rest]; [discriminate|]. cbn [getitem nth_error rbind ok].
  intros H. apply sample_too_few.
  unfold sample in H.
  match type of H with
  | context [if ?b then _ else _] => destruct b eqn:E; [|discriminate]
  end.
  apply Nat.ltb_lt in E. cbn [filter_rows index] in *.
  eapply Nat.le_lt_trans; [|exact E].
  apply mask_select_mono, any_gt_mono, Ht.
Qed.

End Threshold.

(** X5.  Raising [control_cov_threshold] never enlarges the pool of
    training bins: when the sampling of the training bins fails with
    ValueError at one threshold, [extract_mixing_matrix] and
    [extract_mixing_matrix_shared_unspecific] fail with ValueError, before
    any factorization, at every higher threshold, whatever the seed. *)
Theorem X5_threshold_monotone
        {G : Type} {B : Backend G}
        data_df conds counts aW aH (t1 t2 : R) n seed1 seed2 (w : world G) :
  (t1 <= t2)%R ->
  select_train_data data_df conds t1 n seed1 = inl ValueError ->
  extract_mixing_matrix data_df conds counts aW aH t2 n seed2 w = (inl ValueError, w)
  /\ extract_mixing_matrix_shared_unspecific data_df conds counts aW aH t2 n seed2 w
     = (inl ValueError, w).
Proof.
  intros Ht H1.
  pose proof (@select_train_data_mono G B data_df conds t1 t2 n seed1 seed2 Ht H1) as H2.
  split.
  - unfold extract_mixing_matrix. now apply bind_lift_fail.
  - unfold extract_mixing_matrix_shared_unspecific. now apply bind_lift_fail.
Qed.

Lemma X5_witness :
  (3 <= 4)%R
  /\ select_train_data (B := Reference.backend) Example.data_df Example.conditions_list
       3 2 42 = inl ValueError
  /\ extract_mixing_matrix (B := Reference.backend) Example.data_df
       Example.conditions_list Example.conditions_counts_ref
       Example.alpha_W Example.alpha_H 4 2 7 Example.w0
     = (inl ValueError, Example.w0).
Proof.
  assert (Ht : (3 <= 4)%R) by lra.
  assert (H1 : select_train_data (B := Reference.backend) Example.data_df
                 Example.conditions_list 3 2 42 = inl ValueError).
  { unfold select_train_data, select_dsel. simpl. unfold any_gt. simpl.
    Rgtb_eval. reflexivity. }
  split; [exact Ht|]. split; [exact H1|].
  exact (proj1 (@X5_threshold_monotone nat Reference.backend _ _
                  Example.conditions_counts_ref Example.alpha_W Example.alpha_H
                  _ _ _ _ 7%Z Example.w0 Ht H1)).
Defined.

(* ================================================================== *)
(** ** The two factorization stages together *)

Lemma has_positive_row (m : matrix) row k :
  nth_error m k = Some row -> Exists (fun x => (0 < x)%R) row -> has_positive m.
Proof.
  intros Hk Hrow. unfold has_positive. apply Exists_exists.
  exists row. split; [eapply nth_error_In; eauto | exact Hrow].
Qed.

Lemma concat_positive (m : matrix) :
  has_positive m -> Exists (fun x => (0 < x)%R) (concat m).
Proof.
  unfold has_positive. intros H. apply Exists_exists in H.
  destruct H as (row & Hrow & Hx). apply Exists_exists in Hx.
  destruct Hx as (x & Hx & Hpos). apply Exists_exists. exists x.
  split; [|exact Hpos]. apply in_concat. eauto.
Qed.

Section TwoStages.
Context {G : Type} {B : Backend G}.

(** The mixing matrix of a valid input is an input [extract_signal]
    accepts. *)
Lemma mixing_matrix_feeds_signal data_df conds counts aW aH t n cs seed (w : world G) :
  valid_input data_df conds counts aW aH t n ->
  1 <= cs ->
  exists mm w1,
    extract_mixing_matrix data_df conds counts aW aH t n seed w = (inr mm, w1)
    /\ signal_input data_df mm conds cs aW
    /\ 1 <= length (values data_df).
Proof.
  intros Hvalid Hcs. pose proof (vi_data Hvalid) as Hdata.
  destruct (mixing_matrix_background_row seed w Hvalid)
    as (mm & w1 & c0 & train & Wu & Hu & w1' & Wt & Ht & w2
        & Hrun & Hc0 & _ & _ & _ & _ & _ & _ & Hrow0 & Hpos).
  destruct (mixing_matrix_shape_support _ _ _ _ _ _ _ _ _ Hrun)
    as (S1 & S2 & S3 & S4 & _ & _).
  exists mm, w1. split; [exact Hrun|].
  destruct Hdata as [Hwf Hnn Hnd (c0' & rest & Hconds & (cc & Hcc & _) & _ & Hn1 & Hn2)
                       Ht0 (HaW & HaH)].
  split.
  - constructor; trivial.
    + destruct (columns data_df); [contradiction | simpl; lia].
    + split; [congruence|]. now rewrite S3.
    + eapply extract_mixing_matrix_nonneg; eauto.
    + eapply has_positive_row; [exact Hrow0|].
      apply Exists_app. left. now apply concat_positive.
    + now rewrite S3.
    + subst conds. simpl. lia.
  - unfold qualifying_bins in Hn2.
    pose proof (filter_length_le (qualifies (columns data_df) c0' t) (values data_df)).
    lia.
Qed.

End TwoStages.

(** X6.  The two factorization stages compose: on every valid input and for
    every chunk size of at least one, the mixing matrix returned by
    [extract_mixing_matrix] is accepted by [extract_signal], which returns
    a non-negative signal matrix with the row labels of the coverage
    matrix, one row per bin and one column per condition. *)
Theorem X6_stages_compose
        {G : Type} {B : Backend G}
        data_df conds counts aW aH t n cs seed (w : world G) :
  valid_input data_df conds counts aW aH t n ->
  1 <= cs ->
  exists mm w1 out w2,
    extract_mixing_matrix data_df conds counts aW aH t n seed w = (inr mm, w1)
    /\ extract_signal data_df mm conds cs aW seed w1 = (inr out, w2)
    /\ index out = index data_df
    /\ columns out = conds
    /\ length (values out) = length (values data_df)
    /\ Forall (fun row => length row = length conds) (values out)
    /\ nonneg (values out).
Proof.
  intros Hvalid Hcs.
  destruct (@mixing_matrix_feeds_signal G B _ _ _ _ _ _ _ cs seed w Hvalid Hcs)
    as (mm & w1 & Hmm & Hin & Hrows).
  destruct (extract_signal_total seed w1 Hin Hrows)
    as (out & w2 & Ws & calls & Hrun & Hout & HF & _).
  exists mm, w1, out, w2. split; [exact Hmm|]. split; [exact Hrun|].
  pose proof (extract_signal_nonneg _ _ _ _ _ _ _ Hrun) as Hnn.
  subst out. cbn [index columns values] in *.
  split; [reflexivity|]. split; [reflexivity|]. split; [|split; [|exact Hnn]].
  - rewrite (@concat_length_Forall2 (chunks cs (values data_df)) Ws).
    + unfold chunks. apply f_equal. apply chunks_from_concat; [exact (si_chunk Hin) | lia].
    + eapply Forall2_impl; [|exact HF]. intros ck W ((Hr & _) & _). exact Hr.
  - apply Forall_concat. clear - HF.
    induction HF as [|ck W cks Ws' ((_ & Hc) & _) _ IH]; constructor; auto.
Qed.

Lemma X6_witness :
  valid_input Example.data_df Example.conditions_list Example.conditions_counts_ref
              Example.alpha_W Example.alpha_H 1 2
  /\ 1 <= 1
  /\ exists mm w1 out w2,
      extract_mixing_matrix (B := Reference.backend)
        Example.data_df Example.conditions_list Example.conditions_counts_ref
        Example.alpha_W Example.alpha_H 1 2 42 Example.w0 = (inr mm, w1)
      /\ extract_signal (B := Reference.backend) Example.data_df mm
           Example.conditions_list 1 Example.alpha_W 42 w1 = (inr out, w2)
      /\ length (values out) = 2.
Proof.
  split; [exact example_valid|]. split; [lia|].
  destruct (@X6_stages_compose nat Reference.backend _ _ _ _ _ _ _ 1 42%Z Example.w0
              example_valid (le_n 1))
    as (mm & w1 & out & w2 & H1 & H2 & _ & _ & H5 & _).
  exists mm, w1, out, w2. auto.
Defined.

(* ================================================================== *)
(** ** Further properties of [extract_signal] *)

Lemma chunks_from_length cs :
  1 <= cs ->
  forall f (m : matrix),
    length m <= f ->
    length (chunks_from f cs m) = (length m + cs - 1) / cs.
Proof.
  intros Hcs. induction f as [|f IH]; intros m Hf.
  - destruct m; [|simpl in Hf; lia]. simpl.
    symmetry. apply Nat.div_small. lia.
  - destruct m as [|row m].
    { simpl. symmetry. apply Nat.div_small. lia. }
    cbn [chunks_from length]. rewrite IH by (rewrite length_skipn; cbn [length] in *; lia).
    rewrite length_skipn. cbn [length].
    destruct (Nat.le_gt_cases cs (S (length m))) as [Hle|Hgt].
    + replace (S (length m) + cs - 1) with ((S (length m) - cs + cs - 1) + 1 * cs) by lia.
      rewrite Nat.div_add by lia. lia.
    + replace (S (length m) - cs) with 0 by lia.
      rewrite (Nat.div_small (0 + cs - 1)) by lia.
      apply Nat.div_unique with (r := length m); lia.
Qed.

Lemma chunks_from_full cs :
  1 <= cs ->
  forall f (m : matrix) i,
    S i < length (chunks_from f cs m) ->
    length (nth i (chunks_from f cs m) []) = cs.
Proof.
  intros Hcs. induction f as [|f IH]; intros m i Hi; [simpl in Hi; lia|].
  destruct m as [|row m]; [simpl in Hi; lia|].
  cbn [chunks_from length] in Hi |- *.
  destruct i as [|i].
  - cbn [nth]. rewrite length_firstn. cbn [length].
    destruct (skipn cs (row :: m)) as [|r' m'] eqn:Hs.
    { destruct f; simpl in Hi; lia. }
    apply (f_equal (@length _)) in Hs. rewrite length_skipn in Hs.
    cbn [length] in Hs. lia.
  - cbn [nth]. apply IH. lia.
Qed.

Section SignalTrace.
Context {G : Type} {B : Backend G}.

(** The blocks a chunk loop that returns has appended, and its calls. *)
Lemma chunk_loop_trace mmatrix aW seed chunks :
  forall acc (w : world G) out w',
    chunk_loop mmatrix aW seed chunks acc w = (inr out, w') ->
    exists Ws calls,
      out = (acc ++ Ws)%list
      /\ Forall (fun W => 1 <= length W
                          /\ Forall (fun row => length row = length (index mmatrix)) W)
                Ws
      /\ nmf_calls w' = nmf_calls w ++ calls
      /\ length calls = length Ws
      /\ Forall (fun c => nnf_H c = Some (values mmatrix)
                          /\ nnf_update_H c = false
                          /\ nnf_init c = Some init_custom
                          /\ nnf_n_components c = length (index mmatrix)
                          /\ nnf_random_state c = Some seed) calls
      /\ forall cks, chunks = (cks ++ [[]])%list ->
                     Forall (fun ck => 1 <= length ck) cks ->
                     map nnf_X calls = cks.
Proof.
  induction chunks as [|ck chunks IH]; intros acc w out w' Hrun.
  - simpl in Hrun. inversion Hrun; subst. exists [], [].
    rewrite !app_nil_r. repeat split; auto.
    intros cks E. destruct cks; discriminate.
  - cbn [chunk_loop] in Hrun.
    destruct (length ck <? 1) eqn:E.
    + inversion Hrun; subst. exists [], [].
      rewrite !app_nil_r. repeat split; auto.
      intros cks Ecks Hcks. destruct cks as [|ck' cks]; [reflexivity|].
      inversion Ecks; subst. inversion Hcks; subst.
      apply Nat.ltb_lt in E. lia.
    + apply Nat.ltb_ge in E.
      apply bind_inr in Hrun. destruct Hrun as (W & w1 & HW & Hrun).
      destruct (np_random_uniform_inv 0 (1 / 10) (length ck) (length (index mmatrix)) w)
        as (W0 & w1' & HW0 & Hc1 & _ & _).
      rewrite HW in HW0. inversion HW0; subst W0 w1'.
      apply bind_inr in Hrun. destruct Hrun as ((ck_W, H) & w2 & Hcall & Hrun).
      destruct (call_nnf_inr _ _ Hcall) as (Hc2 & (Hr & Hc) & _).
      cbn [nnf_X nnf_n_components] in Hr, Hc.
      destruct (IH _ _ _ _ Hrun) as (Ws & calls & Hout & HWs & Hc3 & Hlen & Hpar & Hx).
      eexists (ck_W :: Ws), (_ :: calls).
      split; [now rewrite Hout, <- app_assoc|].
      split; [constructor; [|exact HWs]|].
      { split; [unfold nrows in Hr; lia | exact Hc]. }
      split; [rewrite Hc3, Hc2, Hc1, <- app_assoc; reflexivity|].
      split; [simpl; now rewrite Hlen|].
      split; [constructor; [cbn; auto 6 | exact Hpar]|].
      intros cks Ecks Hcks. destruct cks as [|ck' cks].
      * simpl in Ecks. inversion Ecks; subst. simpl in E. lia.
      * simpl in Ecks. inversion Ecks; subst. inversion Hcks; subst.
        cbn [map nnf_X]. f_equal. now apply Hx.
Qed.

End SignalTrace.

Lemma make_width_mismatch (m : matrix) idx cols row :
  In row m -> length row <> length cols ->
  Pd.make m idx cols = inl ValueError.
Proof.
  intros Hin Hne. unfold Pd.make.
  assert (E : forallb (fun r => length r =? length cols) m = false).
  { apply not_true_is_false. intros E. rewrite forallb_forall in E.
    apply E in Hin. apply Nat.eqb_eq in Hin. contradiction. }
  rewrite E, andb_false_r. reflexivity.
Qed.

Section SignalRun.
Context {G : Type} {B : Backend G}.

(** The stacked blocks of a run that returns. *)
Lemma extract_signal_inv data_df mmatrix conds cs aW seed (w : world G) out w' :
  extract_signal data_df mmatrix conds cs aW seed w = (inr out, w') ->
  exists pts Ws W1 row calls,
    range cs (length (index data_df) + cs) cs = inr pts
    /\ chunk_loop mmatrix aW seed (split (values data_df) pts) [] w = (inr Ws, w')
    /\ In W1 Ws /\ In row W1 /\ length row = length (index mmatrix)
    /\ Pd.make (concat Ws) (index data_df) conds = inr out
    /\ nmf_calls w' = nmf_calls w ++ calls
    /\ length calls = length Ws
    /\ Forall (fun c => nnf_H c = Some (values mmatrix)
                        /\ nnf_update_H c = false
                        /\ nnf_init c = Some init_custom
                        /\ nnf_n_components c = length (index mmatrix)
                        /\ nnf_random_state c = Some seed) calls
    /\ forall cks, split (values data_df) pts = (cks ++ [[]])%list ->
                   Forall (fun ck => 1 <= length ck) cks ->
                   map nnf_X calls = cks.
Proof.
  unfold extract_signal. intros Hrun.
  apply bind_lift_inr in Hrun. destruct Hrun as (pts & Hpts & Hrun).
  apply bind_inr in Hrun. destruct Hrun as (Ws & w1 & Hloop & Hrun).
  apply bind_lift_inr in Hrun. destruct Hrun as (stacked & Hstack & Hrun).
  apply lift_inr in Hrun. destruct Hrun as (Hmk & ->).
  pose proof (vstack_inr _ Hstack) as ->.
  destruct (chunk_loop_trace _ _ _ _ _ _ Hloop)
    as (Ws' & calls & HWs & Hblocks & Hcalls & Hlen & Hpar & Hx).
  simpl in HWs. subst Ws'.
  destruct Ws as [|W1 Ws]; [discriminate|].
  inversion Hblocks as [|? ? (Hrows & Hwidth) _]; subst.
  destruct W1 as [|row W1]; [simpl in Hrows; lia|].
  exists pts, ((row :: W1) :: Ws), (row :: W1), row, calls.
  split; [exact Hpts|]. split; [exact Hloop|].
  split; [now left|]. split; [now left|].
  split; [now inversion Hwidth|]. auto 8.
Qed.

End SignalRun.

(** X7.  For a chunk size of at least one and a rectangular coverage
    matrix, a run of [extract_signal] that returns had at least one bin and
    as many entries in [conditions_list] as the mixing matrix has rows, and
    it has made one factorization call per chunk, [ceil(bins / chunk_size)]
    in all, in order, each on its chunk with the mixing matrix as the fixed
    [H] ([init='custom'], [update_H=False]), one component per row of the
    mixing matrix and [random_state=seed]. *)
Theorem X7_signal_run
        {G : Type} {B : Backend G}
        data_df mmatrix conds cs aW seed (w : world G) out w' :
  1 <= cs ->
  wf data_df ->
  extract_signal data_df mmatrix conds cs aW seed w = (inr out, w') ->
  1 <= length (values data_df)
  /\ length conds = length (index mmatrix)
  /\ exists calls,
      nmf_calls w' = nmf_calls w ++ calls
      /\ length calls = (length (values data_df) + cs - 1) / cs
      /\ map nnf_X calls = chunks cs (values data_df)
      /\ Forall (fun c => nnf_H c = Some (values mmatrix)
                          /\ nnf_update_H c = false
                          /\ nnf_init c = Some init_custom
                          /\ nnf_n_components c = length (index mmatrix)
                          /\ nnf_random_state c = Some seed) calls.
Proof.
  intros Hcs (Hix & _) Hrun.
  destruct (extract_signal_inv _ _ _ _ _ _ _ Hrun)
    as (pts & Ws & W1 & row & calls & Hpts & Hloop & HW1 & Hrow & Hwidth & Hmk
        & Hcalls & Hlen & Hpar & Hx).
  rewrite Hix in Hpts.
  pose proof (split_chunks _ Hcs Hpts) as Hsplit.
  pose proof (@chunks_from_bounds cs (values data_df) (length (values data_df)) Hcs)
    as Hb. fold (chunks cs (values data_df)) in Hb.
  assert (Hx' : map nnf_X calls = chunks cs (values data_df)).
  { apply Hx; [exact Hsplit|]. eapply Forall_impl; [|exact Hb].
    intros ck ((Hl & _) & _). exact Hl. }
  assert (Hn : length calls = (length (values data_df) + cs - 1) / cs).
  { rewrite <- (length_map nnf_X), Hx'. unfold chunks.
    now apply chunks_from_length. }
  split; [|split].
  - destruct (values data_df) as [|r m] eqn:Hv; [|simpl; lia].
    exfalso. simpl in Hn. rewrite Nat.div_small in Hn by lia.
    rewrite Hlen in Hn. destruct Ws; [contradiction | discriminate].
  - apply make_inr in Hmk. destruct Hmk as (_ & _ & Hall).
    rewrite Forall_forall in Hall. rewrite <- Hwidth. symmetry. apply Hall.
    apply in_concat. eauto.
  - exists calls. auto.
Qed.

(** X8.  [extract_signal] never compares [conditions_list] with the mixing
    matrix before it factorizes: where a call with one list of labels
    returns, the same call with a list of another length raises ValueError
    at the construction of the result, after all the factorization calls,
    and leaves the world in the same state. *)
Theorem X8_label_mismatch_detected_late
        {G : Type} {B : Backend G}
        data_df mmatrix conds conds2 cs aW seed (w : world G) out w' :
  extract_signal data_df mmatrix conds cs aW seed w = (inr out, w') ->
  length conds2 <> length conds ->
  extract_signal data_df mmatrix conds2 cs aW seed w = (inl ValueError, w')
  /\ length (nmf_calls w) < length (nmf_calls w').
Proof.
  intros Hrun Hne.
  destruct (extract_signal_inv _ _ _ _ _ _ _ Hrun)
    as (pts & Ws & W1 & row & calls & Hpts & Hloop & HW1 & Hrow & Hwidth & Hmk
        & Hcalls & Hlen & _).
  assert (Hin : In row (concat Ws)) by (apply in_concat; eauto).
  split.
  - unfold extract_signal.
    rewrite (bind_lift_run _ _ Hpts).
    rewrite (@bind_run _ _ _ _ _ _ _ _ Hloop).
    assert (Hstack : vstack Ws = inr (concat Ws)).
    { unfold extract_signal in Hrun.
      rewrite (bind_lift_run _ _ Hpts) in Hrun.
      rewrite (@bind_run _ _ _ _ _ _ _ _ Hloop) in Hrun.
      apply bind_lift_inr in Hrun. destruct Hrun as (st & Hst & _).
      now rewrite (vstack_inr _ Hst) in Hst. }
    rewrite (bind_lift_run _ _ Hstack).
    unfold lift. f_equal. apply make_width_mismatch with (row := row); [exact Hin|].
    apply make_inr in Hmk. destruct Hmk as (_ & _ & Hall).
    rewrite Forall_forall in Hall. rewrite (Hall row Hin). auto.
  - rewrite Hcalls, length_app, Hlen. destruct Ws; [contradiction | simpl; lia].
Qed.

Lemma X7_witness :
  1 <= 1
  /\ wf Example.data_df
  /\ exists out w' calls,
      extract_signal (B := Reference.backend) Example.data_df Example.mmatrix
                     Example.conditions_list 1 Example.alpha_W 42 Example.w0
      = (inr out, w')
      /\ nmf_calls w' = nmf_calls Example.w0 ++ calls
      /\ length calls = 2.
Proof.
  split; [exact (le_n 1)|]. split; [exact example_wf|].
  assert (Hin : signal_input Example.data_df Example.mmatrix
                             Example.conditions_list 1 Example.alpha_W).
  { apply example_signal_input; [exact example_wf | | reflexivity].
    exact (ud_nonneg example_usable). }
  destruct (@extract_signal_total nat Reference.backend _ _ _ _ _ 42%Z Example.w0 Hin)
    as (out & w' & _ & _ & Hrun & _); [simpl; lia|].
  destruct (@X7_signal_run _ _ _ _ _ _ _ _ _ _ _ (le_n 1) example_wf Hrun)
    as (_ & _ & calls & Hcalls & Hlen & _).
  exists out, w', calls. split; [exact Hrun|]. split; [exact Hcalls|].
  rewrite Hlen. reflexivity.
Defined.

Lemma X8_witness :
  length ["control"; "A"]%string <> length Example.conditions_list
  /\ exists out w',
      extract_signal (B := Reference.backend) Example.data_df Example.mmatrix
                     Example.conditions_list 1 Example.alpha_W 42 Example.w0
      = (inr out, w')
      /\ extract_signal (B := Reference.backend) Example.data_df Example.mmatrix
                        ["control"; "A"]%string 1 Example.alpha_W 42 Example.w0
         = (inl ValueError, w')
      /\ length (nmf_calls Example.w0) < length (nmf_calls w').
Proof.
  assert (Hne : length ["control"; "A"]%string <> length Example.conditions_list)
    by (simpl; lia).
  split; [exact Hne|].
  assert (Hin : signal_input Example.data_df Example.mmatrix
                             Example.conditions_list 1 Example.alpha_W).
  { apply example_signal_input; [exact example_wf | | reflexivity].
    exact (ud_nonneg example_usable). }
  destruct (@extract_signal_total nat Reference.backend _ _ _ _ _ 42%Z Example.w0 Hin)
    as (out & w' & _ & _ & Hrun & _); [simpl; lia|].
  exists out, w'. split; [exact Hrun|].
  exact (@X8_label_mismatch_detected_late _ _ _ _ _ _ _ _ _ _ _ _ Hrun Hne).
Defined.

(** X9.  The list of chunks of line 173
    ([np.split(values, range(chunk_size, len + chunk_size, chunk_size))])
    always ends with one empty chunk, whether or not the row count is a
    multiple of the chunk size: it is [ceil(rows / chunk_size)] non-empty
    chunks of at most [chunk_size] rows (exactly [chunk_size] for all but
    the last) that concatenate to the data, then the empty chunk at which
    the loop breaks. *)
Theorem X9_trailing_empty_chunk (m : matrix) (cs : nat) :
  1 <= cs ->
  exists pts cks,
    range cs (length m + cs) cs = inr pts
    /\ split m pts = (cks ++ [[]])%list
    /\ concat cks = m
    /\ length cks = (length m + cs - 1) / cs
    /\ Forall (fun ck => 1 <= length ck <= cs) cks
    /\ forall i, S i < length cks -> length (nth i cks []) = cs.
Proof.
  intros Hcs.
  destruct (range cs (length m + cs) cs) as [e|pts] eqn:Hpts.
  { unfold range in Hpts. destruct (cs =? 0) eqn:E; [|discriminate].
    apply Nat.eqb_eq in E. lia. }
  exists pts, (chunks cs m).
  split; [reflexivity|]. split; [now apply split_chunks|].
  unfold chunks.
  split; [now apply chunks_from_concat|].
  split; [now apply chunks_from_length|].
  split.
  - eapply Forall_impl; [|now apply chunks_from_bounds]. intros ck H. apply H.
  - intros i Hi. now apply chunks_from_full.
Qed.

Lemma X9_witness :
  1 <= 2
  /\ exists pts cks,
      range 2 (length [[1]; [2]; [3]; [4]]%R + 2) 2 = inr pts
      /\ split [[1]; [2]; [3]; [4]]%R pts = (cks ++ [[]])%list
      /\ length cks = 2.
Proof.
  split; [lia|].
  destruct (@X9_trailing_empty_chunk [[1]; [2]; [3]; [4]]%R 2 (le_S 1 1 (le_n 1)))
    as (pts & cks & H1 & H2 & _ & H4 & _).
  exists pts, cks. split; [exact H1|]. split; [exact H2|]. rewrite H4. reflexivity.
Defined.

(* ================================================================== *)
(** ** Further properties of [run_HSR] and [run_HSR_replicates] *)

Lemma positions_absent cols name : ~ In name cols -> positions cols name = [].
Proof.
  intros Hn. destruct (positions cols name) as [|p ps] eqn:E; [reflexivity|].
  exfalso. apply Hn.
  assert (Hp : In p (positions cols name)) by (rewrite E; now left).
  apply positions_spec in Hp. eapply nth_error_In; eauto.
Qed.

Lemma setitem_col_new df name v df' :
  setitem_col df name v = inr df' -> ~ In name (columns df) ->
  columns df' = (columns df ++ [name])%list.
Proof.
  intros E Hn. apply setitem_col_inv in E.
  destruct E as (Hv & Hix & [(_ & Hc & Hvals) | (p & rest & Hp & _)]).
  - exact Hc.
  - rewrite (positions_absent _ _ Hn) in Hp. discriminate.
Qed.

Section HsrLayout.
Context {X : Type} (label : X -> string) (body : X -> result hsr_locals).

(** With distinct labels, every iteration appends its two columns. *)
Lemma hsr_loop_layout items :
  forall out_df out,
    hsr_loop label body items out_df = inr out ->
    NoDup (map label items) ->
    (forall x, In x items ->
               ~ In (label x ++ " HSR Value")%string (columns out_df)
               /\ ~ In (label x ++ " fit")%string (columns out_df)) ->
    columns out
    = (columns out_df
       ++ flat_map (fun x => [label x ++ " HSR Value"; label x ++ " fit"]%string) items)%list.
Proof.
  induction items as [|x items IH]; intros out_df out Hrun Hnd Hfresh.
  - simpl in Hrun. inversion Hrun. simpl. now rewrite app_nil_r.
  - cbn [hsr_loop] in Hrun.
    apply rbind_inr in Hrun. destruct Hrun as (st & Hst & Hrun).
    apply rbind_inr in Hrun. destruct Hrun as (out1 & Hstore & Hrun).
    apply hsr_store_inv in Hstore. destruct Hstore as (o1 & Hs1 & Hs2).
    destruct (Hfresh x (or_introl eq_refl)) as (Hf1 & Hf2).
    pose proof (setitem_col_new _ _ _ Hs1 Hf1) as Hc1.
    assert (Hf2' : ~ In (label x ++ " fit")%string (columns o1)).
    { rewrite Hc1. intros Hin. apply in_app_or in Hin.
      destruct Hin as [Hin | [Hin | []]]; [contradiction|].
      symmetry in Hin. now apply fit_label_not_value_label in Hin. }
    pose proof (setitem_col_new _ _ _ Hs2 Hf2') as Hc2.
    cbn [map] in Hnd. apply NoDup_cons_iff in Hnd. destruct Hnd as (Hx & Hnd).
    rewrite (IH _ _ Hrun Hnd).
    + rewrite Hc2, Hc1, <- !app_assoc. reflexivity.
    + intros y Hy. destruct (Hfresh y (or_intror Hy)) as (Hy1 & Hy2).
      assert (Hne : label y <> label x).
      { intros E. apply Hx. rewrite <- E. now apply in_map. }
      rewrite Hc2, Hc1. split; intros Hin;
        repeat (apply in_app_or in Hin; destruct Hin as [Hin | Hin]);
        try contradiction;
        repeat match goal with
               | H : In _ [_] |- _ => destruct H as [H | []]
               end.
      * apply append_inj_l in Hin. congruence.
      * now apply fit_label_not_value_label in Hin.
      * symmetry in Hin. now apply fit_label_not_value_label in Hin.
      * apply append_inj_l in Hin. congruence.
Qed.

End HsrLayout.

(** X10.  For a rectangular signal matrix and distinct treatment conditions,
    the table returned by [run_HSR] has the row labels of [wmat] and
    exactly two columns per treatment condition, in list order:
    [cond + " HSR Value"] then [cond + " fit"]; with the control condition
    alone it has no column. *)
Theorem X10_run_HSR_table_layout
        {G : Type} {B : Backend G} wmat bl_mask conds eps out :
  wf wmat ->
  NoDup (skipn 1 conds) ->
  run_HSR wmat bl_mask conds eps = inr out ->
  index out = index wmat
  /\ columns out
     = flat_map (fun t => [t ++ " HSR Value"; t ++ " fit"]%string) (skipn 1 conds)
  /\ wf out.
Proof.
  intros Hwf Hnd Hrun. unfold run_HSR in Hrun.
  apply rbind_inr in Hrun. destruct Hrun as (c0 & Hc0 & Hrun).
  apply rbind_inr in Hrun. destruct Hrun as (control_col & Hcc & Hrun).
  destruct (hsr_loop_columns _ _ _ (loc_no_cols_wf Hwf) Hrun) as (Hwf' & Hix & _).
  split; [exact Hix|]. split; [|exact Hwf'].
  rewrite (@hsr_loop_layout _ _ _ _ _ _ Hrun).
  - reflexivity.
  - now rewrite map_id.
  - intros x _. simpl. tauto.
Qed.

(** X11.  For a rectangular signal matrix and distinct sample names, the
    table returned by [run_HSR_replicates] has the row labels of [wmat]
    and exactly two columns per treatment sample (a column of [replicates]
    whose name does not start with the control condition), in column
    order: [sample + " HSR Value"] then [sample + " fit"]. *)
Theorem X11_run_HSR_replicates_table_layout
        {G : Type} {B : Backend G}
        replicates wmat mmat bl_mask conds counts eps out :
  wf wmat ->
  NoDup (columns replicates) ->
  run_HSR_replicates replicates wmat mmat bl_mask conds counts eps = inr out ->
  exists control_condition,
    nth_error conds 0 = Some control_condition
    /\ index out = index wmat
    /\ columns out
       = flat_map (fun s => [s ++ " HSR Value"; s ++ " fit"]%string)
                  (filter (fun c => negb (startswith c control_condition))
                          (columns replicates))
    /\ wf out.
Proof.
  intros Hwf Hnd Hrun. unfold run_HSR_replicates in Hrun.
  apply rbind_inr in Hrun. destruct Hrun as (c0 & Hc0 & Hrun).
  apply rbind_inr in Hrun. destruct Hrun as (n0 & Hn0 & Hrun).
  apply rbind_inr in Hrun. destruct Hrun as (control_col & Hcc & Hrun).
  apply rbind_inr in Hrun. destruct Hrun as (tissue & Hts & Hrun).
  apply getitem_inr in Hc0.
  destruct (hsr_loop_columns _ _ _ (loc_no_cols_wf Hwf) Hrun) as (Hwf' & Hix & _).
  exists c0. split; [exact Hc0|]. split; [exact Hix|]. split; [|exact Hwf'].
  rewrite (@hsr_loop_layout _ _ _ _ _ _ Hrun).
  - cbn [loc_no_cols columns app]. unfold enumerate.
    set (l := filter _ _). generalize 0 as s.
    induction l as [|a l IH]; intros s; [reflexivity|].
    cbn [length seq combine flat_map snd app]. now rewrite IH.
  - unfold enumerate.
    rewrite (map_snd_combine (fun s => s)) by apply length_seq.
    rewrite map_id. now apply NoDup_filter.
  - intros x _. simpl. tauto.
Qed.

Lemma loc_col_length df name col :
  loc_col df name = inr col -> length col = length (values df).
Proof.
  unfold loc_col. destruct (positions (columns df) name); [discriminate|].
  intros E. inversion E. apply length_map.
Qed.

Lemma loc_col_In df name col : loc_col df name = inr col -> In name (columns df).
Proof.
  unfold loc_col. destruct (positions (columns df) name) as [|p ps] eqn:E; [discriminate|].
  intros _. assert (Hp : In p (positions (columns df) name)) by (rewrite E; now left).
  apply positions_spec in Hp. eapply nth_error_In; eauto.
Qed.

Section FitMask.
Context {G : Type} {B : Backend G}.

Lemma hsr_fit_mask_length c t mask r :
  hsr_fit c t mask = inr r -> length mask = length c /\ length mask = length t.
Proof.
  unfold hsr_fit. intros H.
  apply rbind_inr in H. destruct H as (cb & Hcb & H).
  apply rbind_inr in H. destruct H as (tb & Htb & _).
  unfold bool_index in Hcb, Htb.
  destruct (length mask =? length c) eqn:E1; [|discriminate].
  destruct (length mask =? length t) eqn:E2; [|discriminate].
  apply Nat.eqb_eq in E1, E2. auto.
Qed.

End FitMask.

(** X13.  [run_HSR] returns a table only if [conditions_list] is not
    empty, the control condition and every treatment condition are columns
    of [wmat], and, when there is a treatment condition, the blacklist
    mask has one entry per bin. *)
Theorem X13_run_HSR_returns_only_if
        {G : Type} {B : Backend G} wmat bl_mask conds eps out :
  run_HSR wmat bl_mask conds eps = inr out ->
  exists control_condition,
    nth_error conds 0 = Some control_condition
    /\ In control_condition (columns wmat)
    /\ (forall t, In t (skipn 1 conds) -> In t (columns wmat))
    /\ (skipn 1 conds <> [] -> length bl_mask = length (values wmat)).
Proof.
  intros Hrun. unfold run_HSR in Hrun.
  apply rbind_inr in Hrun. destruct Hrun as (c0 & Hc0 & Hrun).
  apply rbind_inr in Hrun. destruct Hrun as (control_col & Hcc & Hrun).
  apply getitem_inr in Hc0.
  pose proof (hsr_loop_bodies _ _ _ _ Hrun) as Hbodies.
  exists c0. split; [exact Hc0|]. split; [eapply loc_col_In; eauto|]. split.
  - intros t Ht. destruct (Hbodies t Ht) as (st & Hst).
    unfold run_HSR_step in Hst.
    apply rbind_inr in Hst. destruct Hst as (tc & Htc & _).
    eapply loc_col_In; eauto.
  - intros Hne. destruct (skipn 1 conds) as [|t rest]; [congruence|].
    destruct (Hbodies t (or_introl eq_refl)) as (st & Hst).
    unfold run_HSR_step in Hst.
    apply rbind_inr in Hst. destruct Hst as (tc & Htc & Hreg).
    apply hsr_regress_inv in Hreg. destruct Hreg as (_ & Hfit & _).
    apply hsr_fit_mask_length in Hfit. destruct Hfit as (Hl & _).
    rewrite Hl. unfold log_transform. rewrite !length_map.
    eapply loc_col_length; eauto.
Qed.

Lemma X13_witness :
  exists out,
    run_HSR (B := Reference.backend) Example.wmat Example.bl_mask
            Example.conditions_list Example.eps = inr out
    /\ length Example.bl_mask = length (values Example.wmat).
Proof.
  destruct example_run_HSR as (out & Hrun).
  exists out. split; [exact Hrun|].
  destruct (X13_run_HSR_returns_only_if _ _ _ _ Hrun) as (c0 & _ & _ & _ & Hmask).
  apply Hmask. discriminate.
Defined.

(** X14.  [run_HSR_replicates] returns a table only if [conditions_list]
    is not empty, the control condition has a count and is a column of
    [wmat], and, when [replicates] has a treatment column, the blacklist
    mask has one entry per bin and row 0 of the mixing matrix has at least
    as many entries as the control count plus the number of treatment
    columns. *)
Theorem X14_run_HSR_replicates_returns_only_if
        {G : Type} {B : Backend G}
        replicates wmat mmat bl_mask conds counts eps out :
  run_HSR_replicates replicates wmat mmat bl_mask conds counts eps = inr out ->
  exists control_condition n_control_samples,
    let treatment_columns :=
      filter (fun c => negb (startswith c control_condition)) (columns replicates) in
    nth_error conds 0 = Some control_condition
    /\ dict_getitem counts control_condition = inr n_control_samples
    /\ In control_condition (columns wmat)
    /\ (treatment_columns <> [] ->
        length bl_mask = length (values wmat)
        /\ exists row0,
            nth_error (values mmat) 0 = Some row0
            /\ n_control_samples + length treatment_columns <= length row0).
Proof.
  intros Hrun.
  destruct (run_HSR_replicates_signals _ _ _ _ _ _ _ Hrun)
    as (c0 & n0 & tissue & Hc0 & Hn0 & Hts & Hall).
  exists c0, n0. cbv zeta.
  split; [exact Hc0|]. split; [exact Hn0|]. split; [eapply loc_col_In; eauto|].
  intros Hne.
  set (tc := filter (fun c => negb (startswith c c0)) (columns replicates)) in *.
  destruct tc as [|s0 tc'] eqn:Etc; [congruence|].
  split.
  - destruct (Hall 0 s0 eq_refl) as (sd & row0 & coef & st & _ & _ & _ & _ & _ & _ & Hfit & _).
    apply hsr_fit_mask_length in Hfit. destruct Hfit as (Hl & _).
    rewrite Hl. unfold log_transform. rewrite !length_map.
    eapply loc_col_length; eauto.
  - assert (Hlast : exists s, nth_error (s0 :: tc') (length tc') = Some s).
    { destruct (nth_error (s0 :: tc') (length tc')) eqn:E; [eauto|].
      apply nth_error_None in E. simpl in E. lia. }
    destruct Hlast as (s & Hs).
    destruct (Hall _ _ Hs) as (sd & row0 & coef & st & _ & Hrow0 & Hcoef & _).
    exists row0. split; [exact Hrow0|].
    assert (Hlt : length tc' + n0 < length row0).
    { apply nth_error_Some. congruence. }
    simpl. lia.
Qed.

Lemma X14_witness :
  exists out row0,
    run_HSR_replicates (B := Reference.backend) Example.replicates Example.wmat
      Example.mmatrix Example.bl_mask Example.conditions_list
      Example.conditions_counts_ref Example.eps = inr out
    /\ nth_error (values Example.mmatrix) 0 = Some row0
    /\ 1 + 2 <= length row0.
Proof.
  destruct example_run_HSR_replicates as (out & Hrun).
  destruct (X14_run_HSR_replicates_returns_only_if _ _ _ _ _ _ _ Hrun)
    as (c0 & n0 & Hc0 & Hn0 & _ & H).
  inversion Hc0; subst c0. cbn in Hn0. inversion Hn0; subst n0.
  destruct H as (_ & row0 & Hrow0 & Hlen); [discriminate|].
  exists out, row0. split; [exact Hrun|]. split; [exact Hrow0|]. exact Hlen.
Defined.

Lemma X10_witness :
  wf Example.wmat /\ NoDup (skipn 1 Example.conditions_list)
  /\ exists out,
      run_HSR (B := Reference.backend) Example.wmat Example.bl_mask
              Example.conditions_list Example.eps = inr out
      /\ columns out = ["A HSR Value"; "A fit"; "B HSR Value"; "B fit"]%string.
Proof.
  assert (Hnd : NoDup (skipn 1 Example.conditions_list)).
  { simpl. repeat constructor; simpl; intuition discriminate. }
  split; [exact example_wmat_wf|]. split; [exact Hnd|].
  destruct example_run_HSR as (out & Hrun).
  exists out. split; [exact Hrun|].
  exact (proj1 (proj2 (@X10_run_HSR_table_layout nat Reference.backend _ _ _ _ _
                         example_wmat_wf Hnd Hrun))).
Defined.

Lemma X11_witness :
  wf Example.wmat /\ NoDup (columns Example.replicates)
  /\ exists out,
      run_HSR_replicates (B := Reference.backend) Example.replicates Example.wmat
        Example.mmatrix Example.bl_mask Example.conditions_list
        Example.conditions_counts_ref Example.eps = inr out
      /\ columns out = ["A_1 HSR Value"; "A_1 fit"; "B_1 HSR Value"; "B_1 fit"]%string.
Proof.
  assert (Hnd : NoDup (columns Example.replicates)).
  { simpl. repeat constructor; simpl; intuition discriminate. }
  split; [exact example_wmat_wf|]. split; [exact Hnd|].
  destruct example_run_HSR_replicates as (out & Hrun).
  exists out. split; [exact Hrun|].
  destruct (@X11_run_HSR_replicates_table_layout nat Reference.backend _ _ _ _ _ _ _ _
              example_wmat_wf Hnd Hrun) as (c0 & Hc0 & _ & Hcols & _).
  inversion Hc0; subst c0. exact Hcols.
Defined.

(* ================================================================== *)
(** ** The double-median filter *)

Lemma insert_sorted_perm x l : Permutation (insert_sorted x l) (x :: l).
Proof.
  induction l as [|y l IH]; simpl; [reflexivity|].
  destruct (Rleb x y); [reflexivity|].
  rewrite IH. apply perm_swap.
Qed.

Lemma sort_perm l : Permutation (sort l) l.
Proof.
  unfold sort. induction l as [|x l IH]; simpl; [reflexivity|].
  rewrite insert_sorted_perm. now constructor.
Qed.

Lemma insert_sorted_sorted x l :
  StronglySorted Rle l -> StronglySorted Rle (insert_sorted x l).
Proof.
  induction 1 as [|y l Hs IH Hy]; simpl.
  - repeat constructor.
  - unfold Rleb. destruct (Rle_dec x y) as [Hxy|Hxy].
    + constructor; [now constructor|].
      constructor; [exact Hxy|].
      eapply Forall_impl; [|exact Hy]. intros z Hz. lra.
    + constructor; [exact IH|].
      rewrite insert_sorted_perm. constructor; [lra | exact Hy].
Qed.

Lemma sort_sorted l : StronglySorted Rle (sort l).
Proof.
  unfold sort. induction l as [|x l IH]; simpl; [constructor|].
  now apply insert_sorted_sorted.
Qed.

Lemma sorted_nth_le s :
  StronglySorted Rle s ->
  forall i j, i <= j -> j < length s -> (nth i s 0 <= nth j s 0)%R.
Proof.
  induction 1 as [|x s Hs IH Hx]; intros i j Hij Hj; [simpl in Hj; lia|].
  destruct i as [|i], j as [|j]; simpl in *; try lia; try lra.
  - rewrite Forall_forall in Hx. apply Hx. apply nth_In. lia.
  - apply IH; lia.
Qed.

Lemma filter_length_perm {A} (f : A -> bool) l l' :
  Permutation l l' -> length (filter f l) = length (filter f l').
Proof.
  induction 1 as [|x l l' _ IH|x y l|l l' l'' _ IH1 _ IH2]; simpl.
  - reflexivity.
  - destruct (f x); simpl; now rewrite IH.
  - destruct (f x), (f y); reflexivity.
  - now rewrite IH1.
Qed.

(** Fewer than half of the values (rounded down) lie strictly above the
    median. *)
Lemma above_median_at_most_half l m :
  median l = Some m ->
  length (filter (fun x => Rgtb x m) l) <= length l / 2.
Proof.
  unfold median. intros Hm.
  pose proof (sort_perm l) as Hp. pose proof (sort_sorted l) as Hs.
  rewrite <- (filter_length_perm _ Hp), <- (Permutation_length Hp).
  set (s := sort l) in *. set (n := length s) in *.
  destruct (n =? 0) eqn:En; [discriminate|]. apply Nat.eqb_neq in En.
  set (k := if Nat.even n then n / 2 else n / 2 + 1).
  assert (Hk : 1 <= k <= n /\ n - k <= n / 2).
  { unfold k. destruct (Nat.even n) eqn:Ev.
    - apply Nat.even_spec in Ev. destruct Ev as (q & Hq).
      rewrite Hq, Nat.mul_comm, Nat.div_mul by lia. lia.
    - assert (Ho : Nat.odd n = true) by (rewrite <- Nat.negb_even, Ev; reflexivity).
      apply Nat.odd_spec in Ho. destruct Ho as (q & Hq).
      assert (E : n / 2 = q).
      { symmetry. apply Nat.div_unique with (r := 1); lia. }
      rewrite E. lia. }
  assert (Hhalf : n / 2 < n) by (apply Nat.div_lt; lia).
  assert (Hm' : (nth (k - 1) s 0 <= m)%R).
  { unfold k in *. destruct (Nat.even n) eqn:Ev.
    - assert (Em : ((nth (n / 2 - 1) s 0 + nth (n / 2) s 0) / 2)%R = m) by congruence.
      assert (nth (n / 2 - 1) s 0 <= nth (n / 2) s 0)%R.
      { apply sorted_nth_le; trivial; fold n; lia. }
      lra.
    - assert (Em : nth (n / 2) s 0%R = m) by congruence.
      replace (n / 2 + 1 - 1) with (n / 2) by lia. lra. }
  rewrite <- (firstn_skipn k s), filter_app, length_app.
  assert (E1 : filter (fun x => Rgtb x m) (firstn k s) = []).
  { apply filter_none, Forall_forall. intros x Hx.
    apply In_nth with (d := 0%R) in Hx. destruct Hx as (i & Hi & <-).
    rewrite length_firstn in Hi. rewrite nth_firstn.
    assert (Hik : i < k) by lia. apply Nat.ltb_lt in Hik as Hik'. rewrite Hik'.
    apply Rgtb_false.
    assert (nth i s 0 <= nth (k - 1) s 0)%R.
    { apply sorted_nth_le; trivial; fold n; lia. }
    lra. }
  rewrite E1. cbn [length Nat.add].
  pose proof (filter_length_le (fun x => Rgtb x m) (skipn k s)) as Hle.
  rewrite length_skipn in Hle. fold n in Hle. lia.
Qed.

Lemma count_true_map {A} (f : A -> bool) l :
  length (filter (fun b : bool => b) (map f l)) = length (filter f l).
Proof.
  induction l as [|x l IH]; simpl; [reflexivity|].
  destruct (f x); simpl; now rewrite IH.
Qed.

Lemma np_where_length mask :
  length (np_where mask) = length (filter (fun b : bool => b) mask).
Proof.
  unfold np_where, enumerate. rewrite length_map.
  generalize 0 as s. induction mask as [|b mask IH]; intros s; [reflexivity|].
  cbn [length seq combine filter snd]. destruct b; simpl; now rewrite IH.
Qed.

Lemma np_where_lt mask i : In i (np_where mask) -> i < length mask.
Proof.
  unfold np_where. intros Hin. apply in_map_iff in Hin.
  destruct Hin as ((j, b) & <- & Hin). apply filter_In in Hin.
  destruct Hin as (Hin & _). apply enumerate_In in Hin.
  apply nth_error_Some. simpl. congruence.
Qed.

Lemma count_true_and (a b : list bool) :
  length (filter (fun x : bool => x)
                 (map (fun p => fst p && snd p) (combine a b)))
  <= length (filter (fun x : bool => x) a).
Proof.
  revert b. induction a as [|x a IH]; intros b; [simpl; lia|].
  destruct b as [|y b]; [simpl; lia|].
  specialize (IH b). cbn [combine map filter fst snd].
  destruct x, y; cbn [andb length]; lia.
Qed.

Lemma gt_median_count l :
  length (filter (fun x : bool => x) (gt_median l)) <= length l / 2.
Proof.
  unfold gt_median. destruct (median l) as [m|] eqn:Hm.
  - rewrite count_true_map. now apply above_median_at_most_half.
  - rewrite count_true_map. rewrite filter_none; [simpl; lia|].
    apply Forall_forall. auto.
Qed.

Lemma gt_median_length l : length (gt_median l) = length l.
Proof. unfold gt_median. destruct (median l); apply length_map. Qed.

Lemma mask_select_count {A} (mask : list bool) (l : list A) :
  length mask = length l ->
  length (mask_select mask l) = length (filter (fun b : bool => b) mask).
Proof.
  revert l. induction mask as [|b mask IH]; intros [|x l] H; simpl in *;
    try reflexivity; try discriminate.
  destruct b; simpl; rewrite IH; auto.
Qed.

Section FitSet.
Context {G : Type} {B : Backend G}.

(** The bins of the fit: positions among the bins the mask keeps, and at
    most half of them. *)
Lemma hsr_fit_bound c t mask ixs coef :
  hsr_fit c t mask = inr (ixs, coef) ->
  length ixs <= length (filter (fun b : bool => b) mask) / 2
  /\ Forall (fun i => i < length (filter (fun b : bool => b) mask)) ixs.
Proof.
  intros Hfit. pose proof (hsr_fit_mask_length _ _ _ Hfit) as (Hlc & Hlt).
  unfold hsr_fit in Hfit.
  apply rbind_inr in Hfit. destruct Hfit as (cb & Hcb & Hfit).
  apply rbind_inr in Hfit. destruct Hfit as (tb & Htb & Hfit).
  cbv zeta in Hfit.
  apply rbind_inr in Hfit. destruct Hfit as (coef' & _ & Hfit).
  inversion Hfit; subst ixs coef'. clear Hfit.
  unfold bool_index in Hcb, Htb.
  rewrite (proj2 (Nat.eqb_eq _ _) Hlc) in Hcb.
  rewrite (proj2 (Nat.eqb_eq _ _) Hlt) in Htb.
  inversion Hcb; subst cb. inversion Htb; subst tb.
  pose proof (mask_select_count mask c Hlc) as Hkc.
  pose proof (mask_select_count mask t Hlt) as Hkt.
  split.
  - rewrite np_where_length.
    eapply Nat.le_trans; [apply count_true_and|].
    rewrite <- Hkc. apply gt_median_count.
  - apply Forall_forall. intros i Hi. apply np_where_lt in Hi.
    rewrite length_map, length_combine, !gt_median_length in Hi. lia.
Qed.

End FitSet.

(** X15.  In both HSR variants the bins used for the regression are
    positions among the bins the blacklist mask keeps, and at most half of
    them (rounded down): only values strictly above the median pass the
    filter.  With fewer than two bins kept, no bin is used. *)
Theorem X15_fit_uses_at_most_half
        {G : Type} {B : Backend G}
        wmat replicates mmat bl_mask eps n_control_samples
        control_transf tissue_signal :
  let kept := length (filter (fun b : bool => b) bl_mask) in
  (forall treatment_cond st,
      run_HSR_step wmat bl_mask eps control_transf treatment_cond = inr st ->
      length (fit_ixs st) <= kept / 2
      /\ Forall (fun i => i < kept) (fit_ixs st))
  /\ (forall i treatment_sample st,
         run_HSR_replicates_step replicates mmat bl_mask eps n_control_samples
                                 control_transf tissue_signal i treatment_sample
         = inr st ->
         length (fit_ixs st) <= kept / 2
         /\ Forall (fun i => i < kept) (fit_ixs st)).
Proof.
  cbv zeta. split.
  - intros t st Hst. unfold run_HSR_step in Hst.
    apply rbind_inr in Hst. destruct Hst as (tc & _ & Hreg).
    apply hsr_regress_inv in Hreg. destruct Hreg as (_ & Hfit & _).
    exact (hsr_fit_bound _ _ _ Hfit).
  - intros i s st Hst. unfold run_HSR_replicates_step in Hst.
    apply rbind_inr in Hst. destruct Hst as (sd & _ & Hst).
    apply rbind_inr in Hst. destruct Hst as (coef & _ & Hreg).
    apply hsr_regress_inv in Hreg. destruct Hreg as (_ & Hfit & _).
    exact (hsr_fit_bound _ _ _ Hfit).
Qed.

Lemma X15_witness :
  exists st,
    run_HSR_step (B := Reference.backend) Example.wmat Example.bl_mask Example.eps
                 (log_transform Example.eps [0; 2; 5]%R) "A" = inr st
    /\ length (fit_ixs st) <= 1.
Proof.
  pose proof example_eps as He.
  destruct (@example_hsr_regress
              (ln (Rmax Example.eps 0)) (ln (Rmax Example.eps 2)) (ln (Rmax Example.eps 5))
              (ln (Rmax Example.eps 0)) (ln (Rmax Example.eps 2)) (ln (Rmax Example.eps 9)))
    as (cA & HA); try (apply ln_floor_lt; lra).
  eexists. split; [cbn; exact HA|].
  exact (proj1 (proj1 (@X15_fit_uses_at_most_half nat Reference.backend
                         Example.wmat Example.replicates Example.mmatrix
                         Example.bl_mask Example.eps 1
                         (log_transform Example.eps [0; 2; 5]%R) [0; 2; 5]%R)
                      "A"%string _ ltac:(cbn; exact HA))).
Defined.

(* ================================================================== *)
(** ** Paths *)

Section Paths.
Import Pre.

Lemma rfind_from_spec c s :
  forall i found,
    match rfind_from c s i found with
    | Some j =>
        (exists k, j = i + k /\ String.get k s = Some c
                   /\ forall k', k < k' -> String.get k' s <> Some c)
        \/ (found = Some j /\ lacks c s)
    | None => found = None /\ lacks c s
    end.
Proof.
  induction s as [|a s IH]; intros i found.
  - simpl. destruct found; [right|]; (split; [reflexivity | intros k; now destruct k]).
  - cbn [rfind_from]. specialize (IH (S i) (if Ascii.eqb a c then Some i else found)).
    destruct (rfind_from c s (S i) _) as [j|].
    + destruct IH as [(k & -> & Hk & Hlast) | (Hf & Hl)].
      * left. exists (S k). split; [lia|]. split; [exact Hk|].
        intros [|k'] Hlt; [lia|]. simpl. apply Hlast. lia.
      * destruct (Ascii.eqb a c) eqn:E.
        -- left. exists 0. apply Ascii.eqb_eq in E. subst a.
           inversion Hf; subst j. split; [lia|]. split; [reflexivity|].
           intros [|k'] Hlt; [lia|]. simpl. apply Hl.
        -- right. split; [exact Hf|]. intros [|k]; simpl.
           ++ intros E'. inversion E'; subst a. now rewrite Ascii.eqb_refl in E.
           ++ apply Hl.
    + destruct IH as (Hf & Hl).
      destruct (Ascii.eqb a c) eqn:E; [discriminate|].
      split; [exact Hf|]. intros [|k]; simpl.
      * intros E'. inversion E'; subst a. now rewrite Ascii.eqb_refl in E.
      * apply Hl.
Qed.

Lemma rfind_Some s c i :
  rfind s c = Some i ->
  String.get i s = Some c /\ forall j, i < j -> String.get j s <> Some c.
Proof.
  unfold rfind. intros H. pose proof (rfind_from_spec c s 0 None) as S0.
  rewrite H in S0. destruct S0 as [(k & -> & Hk & Hlast) | (Hf & _)]; [|discriminate].
  simpl. auto.
Qed.

Lemma rfind_None s c : rfind s c = None <-> lacks c s.
Proof.
  unfold rfind. pose proof (rfind_from_spec c s 0 None) as S0. split.
  - intros H. rewrite H in S0. tauto.
  - intros Hl. destruct (rfind_from c s 0 None) as [j|]; [|reflexivity].
    destruct S0 as [(k & _ & Hk & _) | (Hf & _)]; [|discriminate].
    now apply Hl in Hk.
Qed.

Lemma lacks_substring c s n m :
  (forall j, n <= j -> String.get j s <> Some c) -> lacks c (substring n m s).
Proof.
  intros H i. destruct (Nat.lt_ge_cases i m) as [Hlt|Hge].
  - rewrite substring_correct1 by exact Hlt. apply H. lia.
  - rewrite substring_correct2 by exact Hge. discriminate.
Qed.

Lemma lacks_append c s1 s2 : lacks c s1 -> lacks c s2 -> lacks c (s1 ++ s2).
Proof.
  intros H1 H2 i. destruct (Nat.lt_ge_cases i (String.length s1)) as [Hlt|Hge].
  - rewrite <- append_correct1 by exact Hlt. apply H1.
  - replace i with ((i - String.length s1) + String.length s1) by lia.
    rewrite <- append_correct2. apply H2.
Qed.

(** [basename] has no directory part, and leaves such a name as it is. *)
Lemma basename_lacks_slash p : lacks "/" (basename p).
Proof.
  unfold basename. destruct (rfind p "/") as [i|] eqn:E.
  - apply rfind_Some in E. destruct E as (_ & Hlast).
    unfold str_from. apply lacks_substring. intros j Hj. apply Hlast. lia.
  - now apply rfind_None.
Qed.

Lemma basename_fixed s : lacks "/" s -> basename s = s.
Proof.
  intros H. unfold basename. apply rfind_None in H. now rewrite H.
Qed.

Lemma splitext_root_lacks_slash b : lacks "/" b -> lacks "/" (fst (splitext b)).
Proof.
  intros H. unfold splitext.
  destruct (rfind b ".") as [d|]; [|exact H].
  destruct (_ && _); [|exact H].
  cbn [fst]. unfold str_to. apply lacks_substring. intros j _. apply H.
Qed.

Lemma tiled_name_lacks_slash p : lacks "/" (tiled_name p).
Proof.
  unfold tiled_name. apply lacks_append.
  - apply splitext_root_lacks_slash, basename_lacks_slash.
  - apply rfind_None. reflexivity.
Qed.

Lemma join_data b : lacks "/" b -> os_path_join "data" b = ("data/" ++ b)%string.
Proof.
  intros H. unfold os_path_join.
  assert (E : Py.startswith b "/" = false).
  { unfold Py.startswith. destruct b as [|a b]; [reflexivity|].
    cbn [String.prefix]. destruct (ascii_dec "/" a) as [<-|Hne]; [|reflexivity].
    exfalso. now apply (H 0). }
  rewrite E. reflexivity.
Qed.

End Paths.

(* ================================================================== *)
(** ** Dictionaries built by a comprehension *)

Lemma dict_getitem_setitem {V} (d : dict V) k v k' :
  dict_getitem (Pre.dict_setitem d k v) k'
  = if String.eqb k' k then ok v else dict_getitem d k'.
Proof.
  induction d as [|(k0, v0) d IH]; simpl.
  - reflexivity.
  - destruct (String.eqb_spec k k0) as [->|Hne]; simpl.
    + destruct (String.eqb k' k0); reflexivity.
    + rewrite IH. destruct (String.eqb_spec k' k0) as [->|Hne'].
      * destruct (String.eqb_spec k0 k); [congruence | reflexivity].
      * reflexivity.
Qed.

Lemma dict_setitem_keys {V} (d : dict V) k v :
  map fst (Pre.dict_setitem d k v)
  = if str_in k (map fst d) then map fst d else (map fst d ++ [k])%list.
Proof.
  unfold str_in. induction d as [|(k0, v0) d IH]; simpl; [reflexivity|].
  destruct (String.eqb k k0); simpl; [reflexivity|].
  rewrite IH. destruct (existsb (String.eqb k) (map fst d)); reflexivity.
Qed.

Lemma find_app_last {A} (f : A -> bool) l a :
  find f (l ++ [a]) = match find f l with
                      | Some x => Some x
                      | None => if f a then Some a else None
                      end.
Proof.
  induction l as [|x l IH]; simpl; [reflexivity|].
  destruct (f x); [reflexivity | exact IH].
Qed.

Lemma find_pointwise {A} (f g : A -> bool) l :
  (forall a, f a = g a) -> find f l = find g l.
Proof.
  intros H. induction l as [|x l IH]; simpl; [reflexivity|].
  rewrite H, IH. reflexivity.
Qed.

Section Comprehension.
Context {A V : Type} (key : A -> string) (value : A -> V).

Lemma comprehension_fold l :
  forall d0 k,
    dict_getitem (fold_left (fun d a => Pre.dict_setitem d (key a) (value a)) l d0) k
    = match find (fun a => String.eqb k (key a)) (rev l) with
      | Some a => ok (value a)
      | None => dict_getitem d0 k
      end.
Proof.
  induction l as [|a l IH]; intros d0 k; [reflexivity|].
  cbn [fold_left rev]. rewrite IH, find_app_last.
  destruct (find _ (rev l)); [reflexivity|].
  rewrite dict_getitem_setitem. now destruct (String.eqb k (key a)).
Qed.

Lemma comprehension_keys l :
  forall d0,
    NoDup (map fst d0) ->
    let d := fold_left (fun d a => Pre.dict_setitem d (key a) (value a)) l d0 in
    NoDup (map fst d)
    /\ length d <= length d0 + length l
    /\ forall k, In k (map fst d) -> In k (map fst d0) \/ exists a, In a l /\ k = key a.
Proof.
  induction l as [|a l IH]; intros d0 Hnd; cbv zeta.
  - simpl. split; [exact Hnd|]. split; [lia | auto].
  - cbn [fold_left].
    pose proof (dict_setitem_keys d0 (key a) (value a)) as Hk.
    assert (Hnd' : NoDup (map fst (Pre.dict_setitem d0 (key a) (value a)))).
    { rewrite Hk. destruct (str_in (key a) (map fst d0)) eqn:E; [exact Hnd|].
      apply NoDup_app; [exact Hnd | repeat constructor; auto |].
      intros x Hx [Ex | []]. subst x.
      assert (str_in (key a) (map fst d0) = true) by now apply str_in_spec.
      congruence. }
    destruct (IH _ Hnd') as (I1 & I2 & I3). cbv zeta in I1, I2, I3.
    split; [exact I1|]. split.
    + apply (f_equal (@length _)) in Hk. rewrite !length_map in Hk.
      destruct (str_in (key a) (map fst d0));
        [|rewrite length_app in Hk]; cbn [length] in *; rewrite ?length_map in Hk; lia.
    + intros k Hin. destruct (I3 k Hin) as [Hin'|(x & Hx & ->)].
      * rewrite Hk in Hin'. destruct (str_in (key a) (map fst d0)); [now left|].
        apply in_app_or in Hin'. destruct Hin' as [Hin'|[<-|[]]]; [now left|].
        right. exists a. split; [now left | reflexivity].
      * right. exists x. split; [now right | reflexivity].
Qed.

End Comprehension.

(* ================================================================== *)
(** ** Properties of [run_preprocess.py] *)

Section PreprocessFacts.
Import Pre.
Context {E : Type} {V : Env E}.

Lemma pbind_inr {A C} (m : P E A) (k : A -> P E C) s c s' :
  bind m k s = (inr c, s') ->
  exists a s1, m s = (inr a, s1) /\ k a s1 = (inr c, s').
Proof.
  unfold bind. destruct (m s) as [[e|a] s1]; [discriminate|]. eauto.
Qed.

Lemma require_column_inr input_csv c (s : state E) u s' :
  require_column input_csv c s = (inr u, s') ->
  str_in c (csv_columns input_csv) = true /\ s' = s.
Proof.
  unfold require_column. destruct (str_in c (csv_columns input_csv)); simpl.
  - unfold ret. intros H. inversion H. auto.
  - unfold bind, logger, raise. discriminate.
Qed.

(** A frame returned by [read_csv] is the parsed file and has the three
    required columns. *)
Lemma read_csv_inr path (s : state E) input_csv s' :
  read_csv path s = (inr input_csv, s') ->
  pd_read_csv path (env s) = inr input_csv
  /\ env s' = env s
  /\ str_in "filepath" (csv_columns input_csv) = true
  /\ str_in "exp_name" (csv_columns input_csv) = true
  /\ str_in "is_control" (csv_columns input_csv) = true.
Proof.
  unfold read_csv. intros H.
  apply pbind_inr in H. destruct H as ([] & s1 & Hlog & H).
  unfold logger in Hlog. inversion Hlog; subst s1. clear Hlog.
  apply pbind_inr in H. destruct H as (df & s2 & Hread & H).
  unfold env_read in Hread. cbn [env] in Hread.
  apply pbind_inr in H. destruct H as ([] & s3 & H1 & H).
  apply pbind_inr in H. destruct H as ([] & s4 & H2 & H).
  apply pbind_inr in H. destruct H as ([] & s5 & H3 & H).
  unfold ret in H. inversion H; subst.
  apply require_column_inr in H1, H2, H3.
  destruct H1 as (H1 & ->), H2 as (H2 & ->), H3 as (H3 & ->).
  inversion Hread; subst. cbn [env]. auto.
Qed.

Lemma row_attr_total columns row name :
  str_in name columns = true -> exists c, row_attr columns row name = inr c.
Proof.
  intros H. apply str_in_spec in H. unfold row_attr.
  destruct (positions columns name) as [|p ps] eqn:Ep; [|eauto].
  exfalso. apply In_nth_error in H. destruct H as (p & Hp).
  apply positions_spec in Hp. rewrite Ep in Hp. contradiction.
Qed.

Lemma map_rows_Forall2 {A C} (f : A -> result C) l :
  (forall a, In a l -> exists c, f a = inr c) ->
  exists cs, map_rows f l = inr cs /\ Forall2 (fun a c => f a = inr c) l cs.
Proof.
  induction l as [|a l IH]; intros H.
  - exists []. split; [reflexivity | constructor].
  - destruct (H a (or_introl eq_refl)) as (c & Hc).
    destruct IH as (cs & Hcs & HF); [intros x Hx; apply H; now right|].
    exists (c :: cs). simpl. rewrite Hc. simpl. rewrite Hcs. simpl.
    split; [reflexivity | now constructor].
Qed.

Lemma map_rows_inr {A C} (f : A -> result C) l cs :
  map_rows f l = inr cs -> Forall2 (fun a c => f a = inr c) l cs.
Proof.
  revert cs. induction l as [|a l IH]; intros cs H; simpl in H.
  - inversion H. constructor.
  - destruct (f a) as [e|c] eqn:Ec; [discriminate|]. simpl in H.
    destruct (map_rows f l) as [e|cs'] eqn:Ecs; [discriminate|]. simpl in H.
    inversion H; subst. constructor; auto.
Qed.

Lemma row_args_inr columns out_dir bin_size row a :
  row_args columns out_dir bin_size row = inr a ->
  row_attr columns row "filepath" = inr (arg_filepath a)
  /\ row_attr columns row "exp_name" = inr (arg_exp_name a)
  /\ row_attr columns row "is_control" = inr (arg_is_control a)
  /\ arg_out_dir a = out_dir
  /\ arg_bin_size a = bin_size.
Proof.
  unfold row_args. intros H.
  destruct (row_attr columns row "filepath") as [e|f]; [discriminate|]. simpl in H.
  destruct (row_attr columns row "exp_name") as [e|n]; [discriminate|]. simpl in H.
  destruct (row_attr columns row "is_control") as [e|c]; [discriminate|]. simpl in H.
  inversion H. simpl. auto.
Qed.

Lemma make_args_inr input_csv out_dir bin_size (s : state E) arg_list s' :
  make_args input_csv out_dir bin_size s = (inr arg_list, s') ->
  env s' = env s
  /\ Forall2 (fun row a => row_args (csv_columns input_csv) out_dir bin_size row = inr a)
             (csv_rows input_csv) arg_list.
Proof.
  unfold make_args. intros H.
  apply pbind_inr in H. destruct H as ([] & s1 & Hlog & H).
  unfold logger in Hlog. inversion Hlog; subst s1. clear Hlog.
  apply pbind_inr in H. destruct H as (al & s2 & Hmap & H).
  unfold lift in Hmap. inversion Hmap; subst s2.
  apply pbind_inr in H. destruct H as ([] & s3 & Hlog & H).
  unfold logger in Hlog. inversion Hlog; subst s3. clear Hlog.
  unfold ret in H. inversion H; subst. cbn [env].
  split; [reflexivity|]. now apply map_rows_inr.
Qed.

(** The name of a sample passes through [run_single]. *)
Lemma run_single_inr a (s : state E) r s' :
  run_single a s = (inr r, s') -> snd r = arg_exp_name a.
Proof.
  unfold run_single. intros H.
  apply pbind_inr in H. destruct H as ([] & s1 & _ & H).
  apply pbind_inr in H. destruct H as (files & s2 & _ & H).
  apply pbind_inr in H. destruct H as (path & s3 & _ & H).
  apply pbind_inr in H. destruct H as (tiled & s4 & _ & H).
  unfold ret in H. inversion H. reflexivity.
Qed.

End PreprocessFacts.

(** What [read_csv] does with a file that parses. *)
Lemma read_csv_outcome
      {E : Type} {V : Pre.Env E} path (s : Pre.state E) input_csv :
  Pre.pd_read_csv path (Pre.env s) = inr input_csv ->
  let reading :=
    Pre.mk_log_record Pre.INFO [Pre.Lit "Reading CSV file "; Pre.Lit path] in
  match find (fun c => negb (str_in c (Pre.csv_columns input_csv)))
             ["filepath"; "exp_name"; "is_control"]%string with
  | None =>
      Pre.read_csv path s
      = (inr input_csv, Pre.mk_state (Pre.env s) (Pre.log s ++ [reading]))
  | Some c =>
      Pre.read_csv path s
      = (inl (Pre.ValueError (Pre.column_not_found c)),
         Pre.mk_state (Pre.env s)
           (Pre.log s ++ [reading;
                          Pre.mk_log_record Pre.ERROR
                            [Pre.Lit (Pre.column_not_found c)]]))
  end.
Proof.
  intros Hread. cbv zeta.
  unfold Pre.read_csv, Pre.bind, Pre.logger, Pre.env_read. cbn [Pre.env Pre.log].
  rewrite Hread. unfold Pre.require_column. cbn [find].
  destruct (str_in "filepath" (Pre.csv_columns input_csv)); cbn [negb];
    [|unfold Pre.bind, Pre.logger, Pre.raise; cbn [Pre.env Pre.log];
      now rewrite <- app_assoc].
  unfold Pre.ret at 1. cbv beta iota.
  destruct (str_in "exp_name" (Pre.csv_columns input_csv)); cbn [negb];
    [|unfold Pre.bind, Pre.logger, Pre.raise; cbn [Pre.env Pre.log];
      now rewrite <- app_assoc].
  unfold Pre.ret at 1. cbv beta iota.
  destruct (str_in "is_control" (Pre.csv_columns input_csv)); cbn [negb];
    [|unfold Pre.bind, Pre.logger, Pre.raise; cbn [Pre.env Pre.log];
      now rewrite <- app_assoc].
  reflexivity.
Qed.

(** X16.  When the CSV file parses, [read_csv] returns the parsed table
    unchanged if it has the columns [filepath], [exp_name] and
    [is_control]; otherwise it raises ValueError for the first missing one
    in that order, after logging the same message at error level.  The
    environment is left as it was. *)
Theorem X16_read_csv_validation
        {E : Type} {V : Pre.Env E} path (s : Pre.state E) input_csv :
  Pre.pd_read_csv path (Pre.env s) = inr input_csv ->
  let reading :=
    Pre.mk_log_record Pre.INFO [Pre.Lit "Reading CSV file "; Pre.Lit path] in
  match find (fun c => negb (str_in c (Pre.csv_columns input_csv)))
             ["filepath"; "exp_name"; "is_control"]%string with
  | None =>
      Pre.read_csv path s
      = (inr input_csv, Pre.mk_state (Pre.env s) (Pre.log s ++ [reading]))
  | Some c =>
      Pre.read_csv path s
      = (inl (Pre.ValueError (Pre.column_not_found c)),
         Pre.mk_state (Pre.env s)
           (Pre.log s ++ [reading;
                          Pre.mk_log_record Pre.ERROR
                            [Pre.Lit (Pre.column_not_found c)]]))
  end.
Proof. apply read_csv_outcome. Qed.

Lemma X16_witness :
  Pre.pd_read_csv (Env := PreReference.environment)
    "unnamed.csv" (Pre.env PreReference.s0) = inr PreReference.unnamed
  /\ fst (Pre.read_csv (V := PreReference.environment) "unnamed.csv" PreReference.s0)
     = inl (Pre.ValueError "`exp_name` column not found. Check input CSV.").
Proof.
  split; [reflexivity|].
  pose proof (@X16_read_csv_validation _ PreReference.environment "unnamed.csv"
                PreReference.s0 PreReference.unnamed eq_refl) as H.
  cbv zeta in H. cbn [find PreReference.unnamed Pre.csv_columns str_in existsb
                      String.eqb Ascii.eqb Bool.eqb negb orb] in H.
  now rewrite H.
Defined.

(** X17.  On a table returned by [read_csv], [make_args] never fails: it
    returns one argument tuple per row, in row order, with the row's
    [filepath], [exp_name] and [is_control] and the given [out_dir] and
    [bin_size], and leaves the environment as it was. *)
Theorem X17_make_args_after_read_csv
        {E : Type} {V : Pre.Env E} path (s : Pre.state E) input_csv s1
        out_dir bin_size :
  Pre.read_csv path s = (inr input_csv, s1) ->
  exists arg_list s2,
    Pre.make_args input_csv out_dir bin_size s1 = (inr arg_list, s2)
    /\ Pre.env s2 = Pre.env s1
    /\ Forall2 (fun row a =>
                  Pre.row_attr (Pre.csv_columns input_csv) row "filepath"
                  = inr (Pre.arg_filepath a)
                  /\ Pre.row_attr (Pre.csv_columns input_csv) row "exp_name"
                     = inr (Pre.arg_exp_name a)
                  /\ Pre.row_attr (Pre.csv_columns input_csv) row "is_control"
                     = inr (Pre.arg_is_control a)
                  /\ Pre.arg_out_dir a = out_dir
                  /\ Pre.arg_bin_size a = bin_size)
               (Pre.csv_rows input_csv) arg_list.
Proof.
  intros Hread. apply read_csv_inr in Hread.
  destruct Hread as (_ & _ & Hf & Hn & Hc).
  destruct (@map_rows_Forall2 _ _
              (Pre.row_args (Pre.csv_columns input_csv) out_dir bin_size)
              (Pre.csv_rows input_csv)) as (arg_list & Hmap & HF).
  { intros row _. unfold Pre.row_args.
    destruct (@row_attr_total _ row _ Hf) as (f & ->).
    destruct (@row_attr_total _ row _ Hn) as (n & ->).
    destruct (@row_attr_total _ row _ Hc) as (c & ->). simpl. eauto. }
  eexists arg_list, _. split; [|split].
  - unfold Pre.make_args, Pre.bind, Pre.logger, Pre.lift, Pre.ret.
    cbn [Pre.env Pre.log]. rewrite Hmap. reflexivity.
  - reflexivity.
  - eapply Forall2_impl; [|exact HF]. intros row a Ha.
    now apply row_args_inr.
Qed.

Lemma X17_witness :
  exists input_csv s1 arg_list s2,
    Pre.read_csv (V := PreReference.environment) "samples.csv" PreReference.s0
    = (inr input_csv, s1)
    /\ Pre.make_args (E := list string) input_csv "out" 200 s1 = (inr arg_list, s2)
    /\ length arg_list = 2.
Proof.
  destruct (Pre.read_csv (V := PreReference.environment) "samples.csv" PreReference.s0)
    as [[e|input_csv] s1] eqn:Hread; [discriminate|].
  destruct (@X17_make_args_after_read_csv _ PreReference.environment _ _ _ _
              "out"%string 200%Z Hread) as (arg_list & s2 & Hmk & _ & HF).
  exists input_csv, s1, arg_list, s2. split; [reflexivity|]. split; [exact Hmk|].
  apply Forall2_length in HF. rewrite <- HF.
  cbv in Hread. inversion Hread. reflexivity.
Defined.

(** X18.  When the processed file of an input is already listed in
    [out_dir/data], [run_single] does not run the pipeline: it returns the
    name of that file and the sample name, logs the skip and leaves the
    environment as it was.  The returned name has no directory part, and
    [write_json] files it under the key ["data/" + name]. *)
Theorem X18_run_single_skips_existing_output
        {E : Type} {V : Pre.Env E} (a : Pre.args) (s : Pre.state E) path files :
  Pre.arg_filepath a = Pre.CStr path ->
  Pre.os_listdir (Pre.os_path_join (Pre.arg_out_dir a) "data") (Pre.env s) = inr files ->
  In (Pre.tiled_name path) files ->
  Pre.run_single a s
  = (inr (Pre.tiled_name path, Pre.arg_exp_name a),
     Pre.mk_state (Pre.env s)
       (Pre.log s
        ++ [Pre.mk_log_record Pre.INFO [Pre.Lit "Running pipeline for "; Pre.FArgs a];
            Pre.mk_log_record Pre.INFO
              [Pre.Lit "Skipping "; Pre.FCell (Pre.CStr path);
               Pre.Lit " as output already exists."]]))
  /\ Pre.basename (Pre.tiled_name path) = Pre.tiled_name path
  /\ Pre.json_obj [(Pre.tiled_name path, Pre.arg_exp_name a)]
     = [(("data/" ++ Pre.tiled_name path)%string, Pre.arg_exp_name a)].
Proof.
  intros Hpath Hfiles Hin.
  pose proof (tiled_name_lacks_slash path) as Hl.
  split; [|split].
  - unfold Pre.run_single, Pre.bind, Pre.logger, Pre.env_read, Pre.lift, Pre.ret.
    cbn [Pre.env Pre.log]. rewrite Hfiles, Hpath. cbn [Pre.fspath].
    apply str_in_spec in Hin. rewrite Hin. cbn [negb Pre.env Pre.log].
    now rewrite <- app_assoc.
  - now apply basename_fixed.
  - unfold Pre.json_obj, Pre.dict_comprehension. cbn [fold_left fst snd Pre.dict_setitem].
    rewrite (basename_fixed Hl), (join_data Hl). reflexivity.
Qed.

Lemma X18_witness :
  let a := Pre.mk_args (Pre.CStr "reads/input.bam") (Pre.CStr "control") "out"
                       (Pre.CBool true) 200 in
  let s := Pre.mk_state ["input_filterdup_pileup_tiled.bed"%string] [] in
  Pre.arg_filepath a = Pre.CStr "reads/input.bam"
  /\ Pre.os_listdir (Env := PreReference.environment)
       (Pre.os_path_join (Pre.arg_out_dir a) "data") (Pre.env s)
     = inr ["input_filterdup_pileup_tiled.bed"%string]
  /\ In (Pre.tiled_name "reads/input.bam") ["input_filterdup_pileup_tiled.bed"%string]
  /\ fst (Pre.run_single (V := PreReference.environment) a s)
     = inr ("input_filterdup_pileup_tiled.bed"%string, Pre.CStr "control").
Proof.
  cbv zeta.
  assert (Hin : In (Pre.tiled_name "reads/input.bam")
                   ["input_filterdup_pileup_tiled.bed"%string]) by (left; reflexivity).
  split; [reflexivity|]. split; [reflexivity|]. split; [exact Hin|].
  rewrite (proj1 (@X18_run_single_skips_existing_output _ PreReference.environment
                    (Pre.mk_args (Pre.CStr "reads/input.bam") (Pre.CStr "control") "out"
                                 (Pre.CBool true) 200)
                    (Pre.mk_state ["input_filterdup_pileup_tiled.bed"%string] [])
                    "reads/input.bam" _ eq_refl eq_refl Hin)).
  reflexivity.
Defined.

(** X19.  The object written by [write_json] has one entry per distinct
    base name of the processed files: its keys are distinct, each is
    ["data/"] followed by the base name of a processed file, and the value
    under a key is the sample name of the last processed file with that
    base name (an earlier sample with the same base name is overwritten). *)
Theorem X19_json_keys_last_wins (tiled_files : list (string * Pre.cell)) :
  let key := fun a : string * Pre.cell => ("data/" ++ Pre.basename (fst a))%string in
  NoDup (map fst (Pre.json_obj tiled_files))
  /\ length (Pre.json_obj tiled_files) <= length tiled_files
  /\ (forall k, In k (map fst (Pre.json_obj tiled_files)) ->
                exists a, In a tiled_files /\ k = key a)
  /\ forall k,
      dict_getitem (Pre.json_obj tiled_files) k
      = match find (fun a => String.eqb k (key a)) (rev tiled_files) with
        | Some a => ok (snd a)
        | None => raise KeyError
        end.
Proof.
  cbv zeta.
  assert (Hkey : forall a : string * Pre.cell,
             Pre.os_path_join "data" (Pre.basename (fst a))
             = ("data/" ++ Pre.basename (fst a))%string).
  { intros a. apply join_data, basename_lacks_slash. }
  unfold Pre.json_obj, Pre.dict_comprehension.
  destruct (@comprehension_keys _ _
              (fun a : string * Pre.cell => Pre.os_path_join "data" (Pre.basename (fst a)))
              snd tiled_files [] (NoDup_nil _)) as (H1 & H2 & H3).
  cbv zeta in H1, H2, H3.
  split; [exact H1|]. split; [exact H2|]. split.
  - intros k Hk. destruct (H3 k Hk) as [[] | (a & Ha & ->)].
    exists a. split; [exact Ha | apply Hkey].
  - intros k. rewrite comprehension_fold. cbn [dict_getitem].
    erewrite find_pointwise; [reflexivity|]. intros a. now rewrite Hkey.
Qed.

(** X20.  When [run] returns, it returns one pair per row of the CSV
    table, in row order, and the second component of each pair is the
    [exp_name] of its row, however the jobs were scheduled. *)
Theorem X20_run_results
        {E : Type} {V : Pre.Env E} path bin_size num_jobs out_dir
        (s : Pre.state E) tiled_files s' :
  Pre.run path bin_size num_jobs out_dir s = (inr tiled_files, s') ->
  exists input_csv,
    Pre.pd_read_csv path (Pre.env s) = inr input_csv
    /\ Forall2 (fun row r =>
                  Pre.row_attr (Pre.csv_columns input_csv) row "exp_name"
                  = inr (snd r))
               (Pre.csv_rows input_csv) tiled_files.
Proof.
  unfold Pre.run. intros H.
  apply pbind_inr in H. destruct H as (input_csv & s1 & Hread & H).
  apply pbind_inr in H. destruct H as (arg_list & s2 & Hargs & H).
  apply pbind_inr in H. destruct H as ([] & s3 & _ & H).
  apply pbind_inr in H. destruct H as ([] & s4 & _ & H).
  apply pbind_inr in H. destruct H as (tf & s5 & Hpar & H).
  apply pbind_inr in H. destruct H as ([] & s6 & _ & H).
  apply pbind_inr in H. destruct H as ([] & s7 & _ & H).
  unfold Pre.ret in H. inversion H; subst tf s7. clear H.
  apply read_csv_inr in Hread. destruct Hread as (Hparse & _).
  apply make_args_inr in Hargs. destruct Hargs as (_ & HF).
  apply Pre.parallel_results in Hpar.
  exists input_csv. split; [exact Hparse|].
  clear - HF Hpar. revert tiled_files Hpar.
  induction HF as [|row a rows al Ha _ IH]; intros tf Hpar;
    inversion Hpar as [|? r ? rs (s1 & s2 & Hr) Hrest]; subst; constructor.
  - apply row_args_inr in Ha. destruct Ha as (_ & Hn & _).
    apply run_single_inr in Hr. now rewrite Hr.
  - now apply IH.
Qed.

Lemma X20_witness :
  exists tiled_files s',
    Pre.run (V := PreReference.environment) "samples.csv" 200 1 "out" PreReference.s0
    = (inr tiled_files, s')
    /\ map snd tiled_files = [Pre.CStr "control"; Pre.CStr "A"].
Proof.
  destruct (Pre.run (V := PreReference.environment) "samples.csv" 200 1 "out"
                    PreReference.s0) as [[e|tiled_files] s'] eqn:Hrun.
  { exfalso. vm_compute in Hrun. discriminate. }
  exists tiled_files, s'. split; [reflexivity|].
  destruct (X20_run_results _ _ _ _ _ Hrun) as (input_csv & Hparse & HF).
  cbv in Hparse. inversion Hparse; subst input_csv. clear Hparse.
  cbn [PreReference.samples Pre.csv_rows Pre.csv_columns] in HF.
  inversion HF as [|? r1 ? l1 H1 HF1]; subst.
  inversion HF1 as [|? r2 ? l2 H2 HF2]; subst.
  inversion HF2; subst.
  cbv in H1, H2. inversion H1 as [E1]. inversion H2 as [E2].
  destruct r1, r2. simpl in *. now subst.
Defined.

(** X21.  When the CSV file parses and lacks a required column, [run]
    raises the ValueError of [read_csv] for the first missing column
    before it creates the output directory or runs any job: the
    environment is left as it was, and the log has gained the two records
    of [read_csv]. *)
Theorem X21_run_fails_before_any_job
        {E : Type} {V : Pre.Env E} path bin_size num_jobs out_dir
        (s : Pre.state E) input_csv c :
  Pre.pd_read_csv path (Pre.env s) = inr input_csv ->
  find (fun c => negb (str_in c (Pre.csv_columns input_csv)))
       ["filepath"; "exp_name"; "is_control"]%string = Some c ->
  Pre.run path bin_size num_jobs out_dir s
  = (inl (Pre.ValueError (Pre.column_not_found c)),
     Pre.mk_state (Pre.env s)
       (Pre.log s
        ++ [Pre.mk_log_record Pre.INFO [Pre.Lit "Reading CSV file "; Pre.Lit path];
            Pre.mk_log_record Pre.ERROR [Pre.Lit (Pre.column_not_found c)]])).
Proof.
  intros Hread Hmiss. pose proof (read_csv_outcome path s Hread) as H.
  cbv zeta in H. rewrite Hmiss in H.
  unfold Pre.run, Pre.bind at 1. now rewrite H.
Qed.

Lemma X21_witness :
  Pre.pd_read_csv (Env := PreReference.environment)
    "unnamed.csv" (Pre.env PreReference.s0) = inr PreReference.unnamed
  /\ find (fun c => negb (str_in c (Pre.csv_columns PreReference.unnamed)))
          ["filepath"; "exp_name"; "is_control"]%string = Some "exp_name"%string
  /\ fst (Pre.run (V := PreReference.environment) "unnamed.csv" 200 1 "out"
                  PreReference.s0)
     = inl (Pre.ValueError "`exp_name` column not found. Check input CSV.").
Proof.
  split; [reflexivity|]. split; [reflexivity|].
  rewrite (@X21_run_fails_before_any_job _ PreReference.environment "unnamed.csv"
             200 1 "out" PreReference.s0 PreReference.unnamed "exp_name"
             eq_refl eq_refl).
  reflexivity.
Defined.
